(** * with.namespace: process-pipeline supervisor and setuid namespace helper

    A shallow embedding of [exec.hpp]/[exec.cpp], [pipe.hpp]/[pipe.cpp] and
    [exec_with_namespace.cpp].  The C++ code is sequential code that talks to
    the kernel; it is embedded in a state-and-exception monad over a [World]
    that holds the process state the code can observe (errno, signal mask,
    SIGHUP disposition, environ), the C++ objects that are shared by pointer
    (FD, File, daemon_proc_spec, ...), and the trace of system calls made so
    far.  What each system call answers is decided by a [Kernel], a function
    of the history and the call. *)

From Stdlib Require Import ZArith Lia String Ascii List.
From stdpp Require Import base list strings pretty.

Open Scope Z_scope.

(** ** Constants of the Linux ABI (x86) used by the sources *)

Definition O_RDONLY : Z := 0.
Definition O_WRONLY : Z := 1.
Definition O_RDWR : Z := 2.
Definition O_ACCMODE : Z := 3.
Definition O_CREAT : Z := 64.
Definition O_APPEND : Z := 1024.
Definition O_NONBLOCK : Z := 2048.
Definition FD_CLOEXEC : Z := 1.
Definition F_GETFD : Z := 1.
Definition F_SETFD : Z := 2.
Definition F_GETFL : Z := 3.
Definition F_SETFL : Z := 4.
Definition STDIN_FILENO : Z := 0.
Definition STDOUT_FILENO : Z := 1.
Definition STDERR_FILENO : Z := 2.
Definition SIGHUP : Z := 1.
Definition SIGINT : Z := 2.
Definition SIGQUIT : Z := 3.
Definition SIGPIPE : Z := 13.
Definition SIGTERM : Z := 15.
Definition SIGCHLD : Z := 17.
Definition SIG_BLOCK : Z := 0.
Definition SIG_UNBLOCK : Z := 1.
Definition SIG_SETMASK : Z := 2.
Definition SIG_DFL : Z := 0.
Definition SIG_IGN : Z := 1.
Definition LOCK_EX : Z := 2.
Definition LOCK_NB : Z := 4.
Definition WNOHANG : Z := 1.
Definition ENOENT : Z := 2.
Definition EWOULDBLOCK : Z := 11.
Definition EEXIST : Z := 17.
Definition CLONE_NEWNS : Z := 131072.
Definition MNT_DETACH : Z := 2.
(** [0666] and [S_IRWXU|S_IRGRP|S_IXGRP|S_IRUSR|S_IXUSR|S_IROTH|S_IXOTH] *)
Definition mode_0666 : Z := 438.
Definition mode_0755 : Z := 493.

(** [exec_defs.hpp] *)
Definition WITH_MOUNTPOINT : string := "/with".
Definition WITH_NAMESPACE_DIR : string := "/usr/bin".

(** [<sys/wait.h>] *)
Definition WIFEXITED (status : Z) : bool := Z.land status 127 =? 0.
Definition WEXITSTATUS (status : Z) : Z := Z.shiftr (Z.land status 65280) 8.

(** ** C strings and character buffers *)

Definition NUL : ascii := "000"%char.
Definition nl : string := String "010"%char EmptyString.

(** A [char] array.  [None] is a byte that was never written (its value is
    indeterminate). *)
Abbreviation cbuf := (list (option ascii)).

Definition uninit (n : nat) : cbuf := replicate n None.

(** Store [cs] at the start of [buf]. *)
Definition poke (buf : cbuf) (cs : list ascii) : cbuf :=
  (Some <$> cs) ++ drop (length cs) buf.

(** [vsnprintf(buf, size, fmt, ap)], where [s] is the expansion of [fmt]:
    at most [size - 1] characters of it are stored, then a null byte. *)
Definition vsnprintf (buf : cbuf) (size : nat) (s : string) : cbuf :=
  match size with
  | O => buf
  | S n => poke buf (take n (list_ascii_of_string s) ++ [NUL])
  end.

(** Reading a buffer as a C string: the characters before the first null
    byte.  Running into an unwritten byte, or off the end of the array,
    is undefined: [None]. *)
Fixpoint c_str (b : cbuf) : option string :=
  match b with
  | [] => None
  | None :: _ => None
  | Some c :: r =>
      if Ascii.eqb c NUL then Some EmptyString
      else option_map (String c) (c_str r)
  end.

(** The part of a string before its first null byte. *)
Fixpoint until_nul (s : string) : string :=
  match s with
  | EmptyString => EmptyString
  | String c r => if Ascii.eqb c NUL then EmptyString else String c (until_nul r)
  end.

(** [std::string::substr(0, n)] *)
Fixpoint prefix_n (n : nat) (s : string) : string :=
  match n, s with
  | S m, String c r => String c (prefix_n m r)
  | _, _ => EmptyString
  end.

(** [std::string::substr(n)] *)
Fixpoint suffix_from (n : nat) (s : string) : string :=
  match n, s with
  | S m, String _ r => suffix_from m r
  | _, _ => s
  end.

(** [std::string::find(c)]: index of the first [c], [None] for [npos]. *)
Fixpoint find_char (c : ascii) (s : string) : option nat :=
  match s with
  | EmptyString => None
  | String d r => if Ascii.eqb d c then Some O else option_map S (find_char c r)
  end.

(** [std::string::rfind(c)]: index of the last [c], [None] for [npos]. *)
Fixpoint rfind_char (c : ascii) (s : string) : option nat :=
  match s with
  | EmptyString => None
  | String d r =>
      match rfind_char c r with
      | Some i => Some (S i)
      | None => if Ascii.eqb d c then Some O else None
      end
  end.

(** ** [exec.hpp]: class failure *)

Record failure := { m_err : cbuf }.

(** [failure() { m_err[0] = '\0'; }] *)
Definition failure_default : failure :=
  {| m_err := <[0%nat := Some NUL]> (uninit 256) |}.

(** [failure(const char *fmt, ...)]: [s] is the expansion of the format.
    [vsnprintf(m_err, sizeof(m_err)-1, fmt, ap); m_err[255] = '\0';] *)
Definition failure_fmt (s : string) : failure :=
  {| m_err := <[255%nat := Some NUL]> (vsnprintf (uninit 256) 255 s) |}.

Definition what (f : failure) : option string := c_str (m_err f).

(** [strerror], as [%m] prints it (glibc's table, abridged). *)
Definition strerror (e : Z) : string :=
  match e with
  | 1 => "Operation not permitted"
  | 2 => "No such file or directory"
  | 3 => "No such process"
  | 4 => "Interrupted system call"
  | 5 => "Input/output error"
  | 9 => "Bad file descriptor"
  | 10 => "No child processes"
  | 11 => "Resource temporarily unavailable"
  | 12 => "Cannot allocate memory"
  | 13 => "Permission denied"
  | 17 => "File exists"
  | 22 => "Invalid argument"
  | 24 => "Too many open files"
  | 32 => "Broken pipe"
  | 0 => "Success"
  | _ => "Unknown error " +:+ pretty e
  end.

(** [%d] *)
Definition fmt_d (n : Z) : string := pretty n.

(** ** [exec.hpp]: struct exec_args

    [m_args] is the argv vector; its terminating [NULL] is left implicit. *)
Abbreviation exec_args := (list string).

(** [bool empty() const { return m_args.size() <= 1; }] *)
Definition exec_args_empty (a : exec_args) : bool :=
  match a with [] => true | _ => false end.

(** [m_args.front()]; glibc prints a null [char*] as "(null)". *)
Definition exec_name (a : exec_args) : string := hd "(null)"%string a.

(** ** [pipe.hpp]: the data model

    Objects that the code shares by pointer live in the heap of the
    [World]; a pointer is an index into the heap of its type. *)

Abbreviation ptr := nat.

Record sigaction_t := { sa_handler : Z; sa_mask : Z; sa_flags : Z }.

Module file_spec.
Record t := { m_filename : string; m_append : bool }.
End file_spec.

Module daemon_proc_spec.
Record t := {
    m_forwardSignals : bool;
    m_cmdArgv : exec_args;
    m_stdin : option ptr;   (* file_spec_ptr, [None] when null *)
    m_stdout : option ptr;
    m_stderr : option ptr;
    m_pid : Z;
    m_exited : bool;
    m_status : Z }.

Definition resetStatus (s : t) : t :=
    {| m_forwardSignals := m_forwardSignals s; m_cmdArgv := m_cmdArgv s;
       m_stdin := m_stdin s; m_stdout := m_stdout s; m_stderr := m_stderr s;
       m_pid := -1; m_exited := false; m_status := 0 |}.

Definition started (s : t) : bool := negb (m_pid s =? -1).
Definition running (s : t) : bool := negb (m_pid s =? -1) && negb (m_exited s).
Definition finished (s : t) : bool := started s && negb (running s).

Definition set_pid (s : t) (pid : Z) : t :=
    {| m_forwardSignals := m_forwardSignals s; m_cmdArgv := m_cmdArgv s;
       m_stdin := m_stdin s; m_stdout := m_stdout s; m_stderr := m_stderr s;
       m_pid := pid; m_exited := m_exited s; m_status := m_status s |}.

Definition set_exited (s : t) (status : Z) : t :=
    {| m_forwardSignals := m_forwardSignals s; m_cmdArgv := m_cmdArgv s;
       m_stdin := m_stdin s; m_stdout := m_stdout s; m_stderr := m_stderr s;
       m_pid := m_pid s; m_exited := true; m_status := status |}.
End daemon_proc_spec.

Module File.
Record t := {
    m_spec : ptr;                (* file_spec_ptr *)
    m_append : bool;
    m_wantRead : bool;
    m_wantWrite : bool;
    m_readSide : option ptr;     (* FDPtr, [None] when null *)
    m_writeSide : option ptr }.

Definition set_want (f : t) (r w : bool) : t :=
    {| m_spec := m_spec f; m_append := m_append f; m_wantRead := r;
       m_wantWrite := w; m_readSide := m_readSide f;
       m_writeSide := m_writeSide f |}.
Definition set_readSide (f : t) (p : option ptr) : t :=
    {| m_spec := m_spec f; m_append := m_append f; m_wantRead := m_wantRead f;
       m_wantWrite := m_wantWrite f; m_readSide := p;
       m_writeSide := m_writeSide f |}.
Definition set_writeSide (f : t) (p : option ptr) : t :=
    {| m_spec := m_spec f; m_append := m_append f; m_wantRead := m_wantRead f;
       m_wantWrite := m_wantWrite f; m_readSide := m_readSide f;
       m_writeSide := p |}.
End File.

Module SignalBlocker.
Record t := { m_sigset : Z; m_oldset : Z; m_oldHUPAction : sigaction_t }.
End SignalBlocker.

Module Proc.
Record t := {
    m_spec : ptr;                (* daemon_proc_spec_ptr *)
    m_stdin : option ptr;        (* File*, [None] when NULL *)
    m_stdout : option ptr;
    m_stderr : option ptr;
    m_newPGID : Z;
    m_blockedSignals : option SignalBlocker.t }.

  (** [Proc(daemon_proc_spec_ptr spec)] *)
Definition make (spec : ptr) : t :=
    {| m_spec := spec; m_stdin := None; m_stdout := None; m_stderr := None;
       m_newPGID := -1; m_blockedSignals := None |}.
Definition set_stdin (p : t) (f : option ptr) : t :=
    {| m_spec := m_spec p; m_stdin := f; m_stdout := m_stdout p;
       m_stderr := m_stderr p; m_newPGID := m_newPGID p;
       m_blockedSignals := m_blockedSignals p |}.
Definition set_stdout (p : t) (f : option ptr) : t :=
    {| m_spec := m_spec p; m_stdin := m_stdin p; m_stdout := f;
       m_stderr := m_stderr p; m_newPGID := m_newPGID p;
       m_blockedSignals := m_blockedSignals p |}.
Definition set_stderr (p : t) (f : option ptr) : t :=
    {| m_spec := m_spec p; m_stdin := m_stdin p; m_stdout := m_stdout p;
       m_stderr := f; m_newPGID := m_newPGID p;
       m_blockedSignals := m_blockedSignals p |}.
Definition set_fork_args (p : t) (sb : SignalBlocker.t) (pgid : Z) : t :=
    {| m_spec := m_spec p; m_stdin := m_stdin p; m_stdout := m_stdout p;
       m_stderr := m_stderr p; m_newPGID := pgid;
       m_blockedSignals := Some sb |}.
End Proc.

Module ProcHarvester.
Record t := { m_procs : list Proc.t; m_sigset : Z }.
End ProcHarvester.

Module daemon_pipe.
Record t := { m_lockFile : string; m_specs : list ptr }.
End daemon_pipe.

(** ** The kernel and the world *)

Inductive Call :=
| sys_pipe
| sys_close (fd : Z)
| sys_fcntl (fd cmd arg : Z)
| sys_dup (fd : Z)
| sys_dup2 (oldfd newfd : Z)
| sys_open (path : string) (flags mode : Z)
| sys_read (fd count : Z)
| sys_write (fd : Z) (buf : string)
| sys_fork
| sys_setpgid (pid pgid : Z)
| sys_execvp (file : string) (argv : list string)
| sys_execve (file : string) (argv envp : list string)
| sys_exit (status : Z)
| sys_kill (pid sig : Z)
| sys_waitpid (pid options : Z)
| sys_sigaction (sig : Z) (act : sigaction_t)
| sys_sigprocmask (how set : Z)
| sys_sigwait (set : Z)
| sys_flock (fd op : Z)
| sys_ftruncate (fd len : Z)
| sys_getpid
| sys_mkdir (path : string) (mode : Z)
| sys_symlink (target linkpath : string)
| sys_fopen (path mode : string)
| sys_fputs (stream : Z) (text : string)
| sys_fclose (stream : Z)
| sys_eprint (text : string)
| sys_unshare (flags : Z)
| sys_umount2 (target : string) (flags : Z)
| sys_mount (source target fstype : string) (flags : Z)
| sys_getuid
| sys_getgid
| sys_setresuid (r e s : Z)
| sys_setresgid (r e s : Z).

(** What the kernel answers: the return value, the errno it sets when the
    call fails, and the values it stores through pointer arguments (the two
    descriptors of [pipe], the status of [waitpid], the signal of [sigwait])
    or the bytes it delivers to [read]. *)
Record Resp := { r_ret : Z; r_errno : Z; r_aux : list Z; r_data : string }.

Definition Event : Type := Call * Resp.
Definition Kernel : Type := list Event -> Call -> Resp.

Record World := {
  w_kernel : Kernel;
  w_trace : list Event;            (* oldest first *)
  w_errno : Z;
  w_sigmask : Z;                   (* bit [sig - 1] set: [sig] is blocked *)
  w_sighup : sigaction_t;          (* disposition of SIGHUP *)
  w_environ : list string;
  h_fd : list Z;                   (* FD objects: their [m_fd] *)
  h_file_spec : list file_spec.t;
  h_proc_spec : list daemon_proc_spec.t;
  h_file : list File.t;
  h_filemap : list (list ptr);     (* FileMap objects: their [m_files] *)
  h_harvester : list ProcHarvester.t }.

Definition set_kernel_view (w : World) (t : list Event) (e : Z) : World :=
  {| w_kernel := w_kernel w; w_trace := t; w_errno := e;
     w_sigmask := w_sigmask w; w_sighup := w_sighup w;
     w_environ := w_environ w; h_fd := h_fd w; h_file_spec := h_file_spec w;
     h_proc_spec := h_proc_spec w; h_file := h_file w;
     h_filemap := h_filemap w; h_harvester := h_harvester w |}.
Definition set_errno (w : World) (e : Z) : World :=
  set_kernel_view w (w_trace w) e.
Definition set_sigmask (w : World) (m : Z) : World :=
  {| w_kernel := w_kernel w; w_trace := w_trace w; w_errno := w_errno w;
     w_sigmask := m; w_sighup := w_sighup w;
     w_environ := w_environ w; h_fd := h_fd w; h_file_spec := h_file_spec w;
     h_proc_spec := h_proc_spec w; h_file := h_file w;
     h_filemap := h_filemap w; h_harvester := h_harvester w |}.
Definition set_sighup (w : World) (a : sigaction_t) : World :=
  {| w_kernel := w_kernel w; w_trace := w_trace w; w_errno := w_errno w;
     w_sigmask := w_sigmask w; w_sighup := a;
     w_environ := w_environ w; h_fd := h_fd w; h_file_spec := h_file_spec w;
     h_proc_spec := h_proc_spec w; h_file := h_file w;
     h_filemap := h_filemap w; h_harvester := h_harvester w |}.
Definition set_environ (w : World) (env : list string) : World :=
  {| w_kernel := w_kernel w; w_trace := w_trace w; w_errno := w_errno w;
     w_sigmask := w_sigmask w; w_sighup := w_sighup w;
     w_environ := env; h_fd := h_fd w; h_file_spec := h_file_spec w;
     h_proc_spec := h_proc_spec w; h_file := h_file w;
     h_filemap := h_filemap w; h_harvester := h_harvester w |}.
Definition set_h_fd (w : World) (h : list Z) : World :=
  {| w_kernel := w_kernel w; w_trace := w_trace w; w_errno := w_errno w;
     w_sigmask := w_sigmask w; w_sighup := w_sighup w;
     w_environ := w_environ w; h_fd := h; h_file_spec := h_file_spec w;
     h_proc_spec := h_proc_spec w; h_file := h_file w;
     h_filemap := h_filemap w; h_harvester := h_harvester w |}.
Definition set_h_file_spec (w : World) (h : list file_spec.t) : World :=
  {| w_kernel := w_kernel w; w_trace := w_trace w; w_errno := w_errno w;
     w_sigmask := w_sigmask w; w_sighup := w_sighup w;
     w_environ := w_environ w; h_fd := h_fd w; h_file_spec := h;
     h_proc_spec := h_proc_spec w; h_file := h_file w;
     h_filemap := h_filemap w; h_harvester := h_harvester w |}.
Definition set_h_proc_spec (w : World) (h : list daemon_proc_spec.t) : World :=
  {| w_kernel := w_kernel w; w_trace := w_trace w; w_errno := w_errno w;
     w_sigmask := w_sigmask w; w_sighup := w_sighup w;
     w_environ := w_environ w; h_fd := h_fd w; h_file_spec := h_file_spec w;
     h_proc_spec := h; h_file := h_file w;
     h_filemap := h_filemap w; h_harvester := h_harvester w |}.
Definition set_h_file (w : World) (h : list File.t) : World :=
  {| w_kernel := w_kernel w; w_trace := w_trace w; w_errno := w_errno w;
     w_sigmask := w_sigmask w; w_sighup := w_sighup w;
     w_environ := w_environ w; h_fd := h_fd w; h_file_spec := h_file_spec w;
     h_proc_spec := h_proc_spec w; h_file := h;
     h_filemap := h_filemap w; h_harvester := h_harvester w |}.
Definition set_h_filemap (w : World) (h : list (list ptr)) : World :=
  {| w_kernel := w_kernel w; w_trace := w_trace w; w_errno := w_errno w;
     w_sigmask := w_sigmask w; w_sighup := w_sighup w;
     w_environ := w_environ w; h_fd := h_fd w; h_file_spec := h_file_spec w;
     h_proc_spec := h_proc_spec w; h_file := h_file w;
     h_filemap := h; h_harvester := h_harvester w |}.
Definition set_h_harvester (w : World) (h : list ProcHarvester.t) : World :=
  {| w_kernel := w_kernel w; w_trace := w_trace w; w_errno := w_errno w;
     w_sigmask := w_sigmask w; w_sighup := w_sighup w;
     w_environ := w_environ w; h_fd := h_fd w; h_file_spec := h_file_spec w;
     h_proc_spec := h_proc_spec w; h_file := h_file w;
     h_filemap := h_filemap w; h_harvester := h |}.

(** ** The monad: state, C++ exceptions, and the ways a process stops *)

Inductive halted :=
| Exited (status : Z)                           (* [_exit] or return from [main] *)
| Execed (file : string) (argv envp : list string)  (* replaced by [exec] *)
| Crashed                                       (* null or wild pointer *)
| Terminated.                                   (* [std::terminate] *)

Inductive Result (A : Type) :=
| Ok (a : A)
| Throw (f : failure)
| Halt (h : halted)
| Diverge.                                      (* out of fuel *)
Arguments Ok {A} a.
Arguments Throw {A} f.
Arguments Halt {A} h.
Arguments Diverge {A}.

Definition M (A : Type) : Type := World -> Result A * World.

Definition ret {A} (a : A) : M A := fun w => (Ok a, w).

Definition bind {A B} (m : M A) (k : A -> M B) : M B := fun w =>
  match m w with
  | (Ok a, w1) => k a w1
  | (Throw f, w1) => (Throw f, w1)
  | (Halt h, w1) => (Halt h, w1)
  | (Diverge, w1) => (Diverge, w1)
  end.

Notation "'let*' x ':=' m 'in' k" := (bind m (fun x => k))
  (at level 10, x pattern, m at level 100, k at level 200).

Definition throw {A} (f : failure) : M A := fun w => (Throw f, w).
Definition halt {A} (h : halted) : M A := fun w => (Halt h, w).
Definition diverge {A} : M A := fun w => (Diverge, w).
Definition gets {A} (f : World -> A) : M A := fun w => (Ok (f w), w).
Definition modify (f : World -> World) : M unit := fun w => (Ok tt, f w).

(** [try { body } catch(failure &e) { handler }]; [catch(...)] is the same,
    [failure] being the only exception the code throws. *)
Definition try_catch {A} (body : M A) (handler : failure -> M A) : M A :=
  fun w =>
    match body w with
    | (Throw f, w1) => handler f w1
    | other => other
    end.

(** A scope with one local object: [dtor] runs when [body] is left, by
    return or by exception; its argument is [std::uncaught_exception()].
    A destructor that throws while an exception is in flight ends the
    process. *)
Definition finally {A} (body : M A) (dtor : bool -> M unit) : M A :=
  fun w =>
    match body w with
    | (Ok a, w1) =>
        match dtor false w1 with
        | (Ok _, w2) => (Ok a, w2)
        | (Throw f, w2) => (Throw f, w2)
        | (Halt h, w2) => (Halt h, w2)
        | (Diverge, w2) => (Diverge, w2)
        end
    | (Throw f, w1) =>
        match dtor true w1 with
        | (Ok _, w2) => (Throw f, w2)
        | (Throw _, w2) => (Halt Terminated, w2)
        | (Halt h, w2) => (Halt h, w2)
        | (Diverge, w2) => (Diverge, w2)
        end
    | other => other
    end.

(** [throw failure(fmt, ...)]; the message may print errno ([%m]). *)
Definition throw_fmt {A} (msg : Z -> string) : M A := fun w =>
  (Throw (failure_fmt (msg (w_errno w))), w).

(** The [CHECK] macro of [pipe.cpp]. *)
Definition CHECK (cond : bool) (msg : Z -> string) : M unit :=
  if cond then ret tt else throw_fmt msg.

(** ** System calls

    A call is answered by the kernel and logged.  The wrappers below read
    the answer as the manual page of the call documents it: a status is 0
    or -1, a value is non-negative or -1, and errno is set exactly when the
    result is -1. *)
Definition syscall (c : Call) : M Resp := fun w =>
  let r := w_kernel w (w_trace w) c in
  (Ok r, set_kernel_view w (w_trace w ++ [(c, r)]) (w_errno w)).

Definition fails (r : Resp) : M Z :=
  let* _ := modify (fun w => set_errno w (r_errno r)) in ret (-1).

Definition sys_status (c : Call) : M Z :=
  let* r := syscall c in
  if r_ret r =? 0 then ret 0 else fails r.

Definition sys_value (c : Call) : M Z :=
  let* r := syscall c in
  if r_ret r <? 0 then fails r else ret (r_ret r).

Definition pipe : M (Z * Z * Z) :=
  let* r := syscall sys_pipe in
  if r_ret r =? 0 then ret (0, nth 0 (r_aux r) 0, nth 1 (r_aux r) 0)
  else let* e := fails r in ret (e, 0, 0).
Definition close (fd : Z) : M Z := sys_status (sys_close fd).
Definition fcntl (fd cmd arg : Z) : M Z := sys_value (sys_fcntl fd cmd arg).
Definition dup (fd : Z) : M Z := sys_value (sys_dup fd).
Definition dup2 (oldfd newfd : Z) : M Z := sys_value (sys_dup2 oldfd newfd).
Definition open (path : string) (flags mode : Z) : M Z :=
  sys_value (sys_open path flags mode).
Definition write (fd : Z) (buf : string) : M Z := sys_value (sys_write fd buf).
Definition fork : M Z := sys_value sys_fork.
Definition setpgid (pid pgid : Z) : M Z := sys_status (sys_setpgid pid pgid).
Definition kill (pid sig : Z) : M Z := sys_status (sys_kill pid sig).
Definition flock (fd op : Z) : M Z := sys_status (sys_flock fd op).
Definition ftruncate (fd len : Z) : M Z := sys_status (sys_ftruncate fd len).
(** [getpid] cannot fail. *)
Definition getpid : M Z := let* r := syscall sys_getpid in ret (r_ret r).

(** [read(fd, buf, count)]: the bytes delivered, at most [count], are
    stored at the start of [buf]. *)
Definition read (fd : Z) (buf : cbuf) (count : nat) : M (Z * cbuf) :=
  let* r := syscall (sys_read fd (Z.of_nat count)) in
  if r_ret r <? 0 then let* e := fails r in ret (e, buf)
  else
    let data := take count (list_ascii_of_string (r_data r)) in
    ret (Z.of_nat (length data), poke buf data).

(** [waitpid(pid, &status, options)] *)
Definition waitpid (pid options : Z) : M (Z * Z) :=
  let* r := syscall (sys_waitpid pid options) in
  if r_ret r <? 0 then let* e := fails r in ret (e, 0)
  else ret (r_ret r, nth 0 (r_aux r) 0).

(** [sigwait(set, &sig)] returns 0 or an error number; errno is not set. *)
Definition sigwait (set : Z) : M (Z * Z) :=
  let* r := syscall (sys_sigwait set) in
  ret (r_ret r, nth 0 (r_aux r) 0).

(** [_exit(status)] *)
Definition _exit {A} (status : Z) : M A :=
  let* _ := syscall (sys_exit status) in halt (Exited status).

(** [execvp(file, argv)] returns only when it fails. *)
Definition execvp (file : string) (argv : list string) : M Z :=
  let* r := syscall (sys_execvp file argv) in
  if r_ret r <? 0 then fails r
  else let* env := gets w_environ in halt (Execed file argv env).

(** [execve(file, argv, envp)] *)
Definition execve (file : string) (argv envp : list string) : M Z :=
  let* r := syscall (sys_execve file argv envp) in
  if r_ret r <? 0 then fails r
  else halt (Execed file argv envp).

(** Signal sets are bit masks. *)
Definition sigbit (sig : Z) : Z := Z.shiftl 1 (sig - 1).
Definition sigemptyset : Z * Z := (0, 0).
Definition sigaddset (set sig : Z) : Z * Z :=
  if (1 <=? sig) && (sig <=? 64) then (0, Z.lor set (sigbit sig))
  else (-1, set).

(** [sigprocmask(how, &set, &old)]: on success the mask changes as [how]
    says and the previous mask is returned. *)
Definition sigprocmask (how set : Z) : M (Z * option Z) :=
  let* r := syscall (sys_sigprocmask how set) in
  if r_ret r =? 0 then
    let* old := gets w_sigmask in
    let* _ := modify (fun w => set_sigmask w
      (if how =? SIG_BLOCK then Z.lor old set
       else if how =? SIG_UNBLOCK then Z.land old (Z.lnot set)
       else if how =? SIG_SETMASK then set
       else old)) in
    ret (0, Some old)
  else let* e := fails r in ret (e, None).

(** [sigaction(sig, &act, &old)]: on success the disposition is replaced
    and the previous one returned.  Only that of SIGHUP is tracked. *)
Definition sigaction (sig : Z) (act : sigaction_t) : M (Z * option sigaction_t) :=
  let* r := syscall (sys_sigaction sig act) in
  if r_ret r =? 0 then
    let* old := gets w_sighup in
    let* _ := (if sig =? SIGHUP then modify (fun w => set_sighup w act)
               else ret tt) in
    ret (0, Some old)
  else let* e := fails r in ret (e, None).

(** ** Heap access; a pointer outside its heap crashes the process *)

Definition load {A} (heap : World -> list A) (p : ptr) : M A := fun w =>
  match heap w !! p with
  | Some v => (Ok v, w)
  | None => (Halt Crashed, w)
  end.

Definition store {A} (heap : World -> list A)
    (set : World -> list A -> World) (p : ptr) (v : A) : M unit := fun w =>
  match heap w !! p with
  | Some _ => (Ok tt, set w (<[p := v]> (heap w)))
  | None => (Halt Crashed, w)
  end.

Definition alloc {A} (heap : World -> list A)
    (set : World -> list A -> World) (v : A) : M ptr := fun w =>
  (Ok (length (heap w)), set w (heap w ++ [v])).

(** Dereferencing a possibly null pointer. *)
Definition deref {A} (p : option A) : M A :=
  match p with
  | Some q => ret q
  | None => halt Crashed
  end.

(** ** [pipe.cpp]: writeN *)

(** The loop of [writeN]; every round with [s > 0] consumes at least one
    byte, so the length of the buffer bounds the number of rounds. *)
Fixpoint writeN_loop (rounds : nat) (fd : Z) (buf : string) : M Z :=
  match rounds with
  | O => ret 0
  | S n =>
      if (String.length buf =? 0)%nat then ret 0
      else
        let* s := write fd buf in
        if s <=? 0 then ret s
        else writeN_loop n fd (suffix_from (Z.to_nat s) buf)
  end.

Definition writeN (fd : Z) (buf : string) : M Z :=
  writeN_loop (String.length buf) fd buf.

(** ** [pipe.cpp]: class FD *)

(** [FD(int fd = -1)] *)
Definition FD_new (fd : Z) : M ptr := alloc h_fd set_h_fd fd.
Definition FD_m_fd (self : ptr) : M Z := load h_fd self.

Definition FD_isOk (self : ptr) : M bool :=
  let* fd := FD_m_fd self in ret (negb (fd =? -1)).

Definition FD_get (self : ptr) : M Z :=
  let* ok := FD_isOk self in
  if ok then FD_m_fd self else throw_fmt (fun _ => "FD::get: invalid fd"%string).

Definition FD_reset (self : ptr) (newFD : Z) : M unit :=
  let* fd := FD_m_fd self in
  let* _ := (if negb (fd =? -1) then
               let* r := close fd in
               CHECK (r =? 0) (fun e => "close failed: " +:+ strerror e)
             else ret tt) in
  store h_fd set_h_fd self newFD.

(** [~FD() { try { reset(); } catch(...) {} }] *)
Definition FD_dtor (self : ptr) : M unit :=
  try_catch (FD_reset self (-1)) (fun _ => ret tt).

Definition FD_setCloseOnExec (self : ptr) : M unit :=
  let* fd := FD_m_fd self in
  let* fdflags := fcntl fd F_GETFD 0 in
  let* _ := CHECK (fdflags >=? 0)
              (fun e => "fcntl(F_GETFD) failed: " +:+ strerror e) in
  let* r := fcntl fd F_SETFD (Z.lor fdflags FD_CLOEXEC) in
  CHECK (r >=? 0) (fun e => "fcntl(F_SETFD) failed: " +:+ strerror e).

Definition FD_setNonBlock (self : ptr) : M unit :=
  let* fd := FD_m_fd self in
  let* flags := fcntl fd F_GETFL 0 in
  let* _ := CHECK (flags >=? 0)
              (fun e => "fcntl(F_GETFL) failed: " +:+ strerror e) in
  let* r := fcntl fd F_SETFL (Z.lor flags O_NONBLOCK) in
  CHECK (r >=? 0) (fun e => "fcntl(F_SETFL) failed: " +:+ strerror e).

Definition FD_pipe (readFD writeFD : ptr) (fdflags : Z) : M unit :=
  let* (r, raw0, raw1) := pipe in
  let* _ := CHECK (r =? 0) (fun _ => "pipe failed"%string) in
  let* _ := FD_reset readFD raw0 in
  let* _ := FD_reset writeFD raw1 in
  if fdflags =? FD_CLOEXEC then
    let* _ := FD_setCloseOnExec readFD in
    FD_setCloseOnExec writeFD
  else if negb (fdflags =? 0) then
    throw_fmt (fun _ => "FD::pipe: unrecognized fdflags " +:+ fmt_d fdflags)
  else ret tt.

(** ** [pipe.hpp], [pipe.cpp]: daemon_pipe::File *)

Definition load_file (f : ptr) : M File.t := load h_file f.
Definition store_file (f : ptr) (v : File.t) : M unit :=
  store h_file set_h_file f v.

(** [File(const file_spec_ptr &spec)] *)
Definition File_new (spec : ptr) : M ptr :=
  let* s := load h_file_spec spec in
  alloc h_file set_h_file
    {| File.m_spec := spec; File.m_append := file_spec.m_append s;
       File.m_wantRead := false; File.m_wantWrite := false;
       File.m_readSide := None; File.m_writeSide := None |}.

(** The end of life of the local [FDPtr fd] of [File::open]: the FD is
    destroyed unless a side of the File still points to it. *)
Definition FDPtr_release_local (fd : ptr) (self : ptr) : M unit :=
  let* F := load_file self in
  if bool_decide (File.m_readSide F = Some fd)
     || bool_decide (File.m_writeSide F = Some fd)
  then ret tt else FD_dtor fd.

Definition File_open (self : ptr) : M unit :=
  let* F := load_file self in
  let* spec := load h_file_spec (File.m_spec F) in
  let filename := file_spec.m_filename spec in
  if (String.length filename =? 0)%nat then
    let* rs := FD_new (-1) in
    let* _ := store_file self (File.set_readSide F (Some rs)) in
    let* F := load_file self in
    let* ws := FD_new (-1) in
    let* _ := store_file self (File.set_writeSide F (Some ws)) in
    FD_pipe rs ws FD_CLOEXEC
  else
    let* fd := FD_new (-1) in
    finally
      (let* _ :=
         if String.eqb filename "/dev/stdin" then
           let* _ := CHECK (negb (File.m_wantWrite F))
                       (fun _ => "caller_stdin cannot be used for writing"%string) in
           let* d := dup STDIN_FILENO in
           let* _ := FD_reset fd d in
           let* ok := FD_isOk fd in
           let* _ := CHECK ok
                       (fun e => "dup(STDIN_FILENO) failed: " +:+ strerror e) in
           store_file self (File.set_readSide F (Some fd))
         else if String.eqb filename "/dev/stdout" then
           let* _ := CHECK (negb (File.m_wantRead F))
                       (fun _ => "caller_stdout cannot be used for reading"%string) in
           let* d := dup STDOUT_FILENO in
           let* _ := FD_reset fd d in
           let* ok := FD_isOk fd in
           let* _ := CHECK ok
                       (fun e => "dup(STDOUT_FILENO) failed: " +:+ strerror e) in
           store_file self (File.set_writeSide F (Some fd))
         else if String.eqb filename "/dev/stderr" then
           let* _ := CHECK (negb (File.m_wantRead F))
                       (fun _ => "caller_stderr cannot be used for reading"%string) in
           let* d := dup STDERR_FILENO in
           let* _ := FD_reset fd d in
           let* ok := FD_isOk fd in
           let* _ := CHECK ok
                       (fun e => "dup(STDERR_FILENO) failed: " +:+ strerror e) in
           store_file self (File.set_writeSide F (Some fd))
         else
           let mode := 0 in
           let mode := if File.m_wantRead F then Z.lor mode O_RDONLY else mode in
           let F1 := if File.m_wantRead F
                     then File.set_readSide F (Some fd) else F in
           let mode := if File.m_wantWrite F
                       then Z.lor mode (Z.lor O_CREAT O_WRONLY) else mode in
           let mode := if File.m_wantWrite F && File.m_append F
                       then Z.lor mode O_APPEND else mode in
           let F2 := if File.m_wantWrite F
                     then File.set_writeSide F1 (Some fd) else F1 in
           let* _ := store_file self F2 in
           let* d := open filename mode mode_0666 in
           let* _ := FD_reset fd d in
           let* ok := FD_isOk fd in
           CHECK ok (fun e => "open " +:+ filename +:+ " failed: " +:+ strerror e)
       in
       FD_setCloseOnExec fd)
      (fun _ => FDPtr_release_local fd self).

(** The implicit [~File]: members go in reverse order of declaration,
    [m_writeSide] then [m_readSide]; an FD that both sides share is
    destroyed when the second pointer to it goes. *)
Definition File_dtor (self : ptr) : M unit :=
  let* F := load_file self in
  let* _ := match File.m_writeSide F with
            | Some p =>
                if bool_decide (File.m_readSide F = Some p) then ret tt
                else FD_dtor p
            | None => ret tt
            end in
  match File.m_readSide F with
  | Some p => FD_dtor p
  | None => ret tt
  end.

(** ** [pipe.hpp]: daemon_pipe::FileMap *)

Definition FileMap_new : M ptr := alloc h_filemap set_h_filemap [].

(** The search loop of [FileMap::get]: the first File whose [m_spec] is
    the same pointer. *)
Fixpoint FileMap_find (files : list ptr) (spec : ptr) : M (option ptr) :=
  match files with
  | [] => ret None
  | i :: rest =>
      let* F := load_file i in
      if (File.m_spec F =? spec)%nat then ret (Some i)
      else FileMap_find rest spec
  end.

Definition FileMap_get (self : ptr) (spec : ptr) (wantRead wantWrite : bool)
  : M ptr :=
  let* files := load h_filemap self in
  let* found := FileMap_find files spec in
  let* f := match found with
            | Some f => ret f
            | None =>
                let* f := File_new spec in
                let* _ := store h_filemap set_h_filemap self (files ++ [f]) in
                ret f
            end in
  let* F := load_file f in
  let* _ := store_file f
              (File.set_want F (File.m_wantRead F || wantRead)
                               (File.m_wantWrite F || wantWrite)) in
  ret f.

Fixpoint delete_files (files : list ptr) : M unit :=
  match files with
  | [] => ret tt
  | f :: rest => let* _ := File_dtor f in delete_files rest
  end.

(** [~FileMap()] *)
Definition FileMap_dtor (self : ptr) : M unit :=
  let* files := load h_filemap self in delete_files files.

(** ** [pipe.cpp]: SignalBlocker *)

(** The six [sigaddset] calls of the constructor, with their [CHECK]s. *)
Fixpoint add_signals (set : Z) (sigs : list Z) : M Z :=
  match sigs with
  | [] => ret set
  | sig :: rest =>
      let '(r, set') := sigaddset set sig in
      let* _ := CHECK (r =? 0) (fun e => "sigaddset failed: " +:+ strerror e) in
      add_signals set' rest
  end.

Definition gated_signals : list Z :=
  [SIGCHLD; SIGHUP; SIGTERM; SIGINT; SIGQUIT; SIGPIPE].

Definition ignore_action : sigaction_t :=
  {| sa_handler := SIG_IGN; sa_mask := 0; sa_flags := 0 |}.

Definition SignalBlocker_ctor : M SignalBlocker.t :=
  let* _ := CHECK (fst sigemptyset =? 0)
              (fun e => "sigemptyset failed: " +:+ strerror e) in
  let* sigset := add_signals (snd sigemptyset) gated_signals in
  let* (r, oldHUP) := sigaction SIGHUP ignore_action in
  let* _ := CHECK (r =? 0) (fun e => "sigaction failed: " +:+ strerror e) in
  let* (r, oldset) := sigprocmask SIG_BLOCK sigset in
  let* _ := CHECK (r =? 0) (fun e => "sigprocmask failed: " +:+ strerror e) in
  ret {| SignalBlocker.m_sigset := sigset;
         SignalBlocker.m_oldset := default 0 oldset;
         SignalBlocker.m_oldHUPAction := default ignore_action oldHUP |}.

(** [unblock()]; [uncaught] is [std::uncaught_exception()]. *)
Definition SignalBlocker_unblock (self : SignalBlocker.t) (uncaught : bool)
  : M unit :=
  let* (r, _) := sigprocmask SIG_SETMASK (SignalBlocker.m_oldset self) in
  if negb (r =? 0) && negb uncaught
  then throw_fmt (fun e => "sigprocmask failed: " +:+ strerror e)
  else ret tt.

Definition SignalBlocker_dtor (self : SignalBlocker.t) (uncaught : bool)
  : M unit :=
  let* _ := SignalBlocker_unblock self uncaught in
  let* (r, _) := sigaction SIGHUP (SignalBlocker.m_oldHUPAction self) in
  if (r =? -1) && negb uncaught
  then throw_fmt (fun e => "sigaction failed: " +:+ strerror e)
  else ret tt.

(** ** [exec.cpp]: exec_args::do_execvp *)

Definition do_execvp {A} (a : exec_args) : M A :=
  let* _ := execvp (exec_name a) a in
  throw_fmt (fun e => "execvp " +:+ exec_name a +:+ " failed: " +:+ strerror e).

Definition do_execve {A} (a : exec_args) (envp : list string) : M A :=
  let* _ := execve (exec_name a) a envp in
  throw_fmt (fun e => "execve " +:+ exec_name a +:+ " failed: " +:+ strerror e).

(** ** [pipe.cpp]: daemon_pipe::Proc::safe_fork_exec *)

Definition load_proc_spec (p : ptr) : M daemon_proc_spec.t :=
  load h_proc_spec p.
Definition store_proc_spec (p : ptr) (v : daemon_proc_spec.t) : M unit :=
  store h_proc_spec set_h_proc_spec p v.

(** [dup2(file->side->get(), target)] for a wired stdio File. *)
Definition child_dup2 (file : option ptr) (side : File.t -> option ptr)
    (target : Z) : M unit :=
  match file with
  | Some f =>
      let* F := load_file f in
      let* s := deref (side F) in
      let* fd := FD_get s in
      let* r := dup2 fd target in
      CHECK (r >=? 0) (fun e => "dup2 failed: " +:+ strerror e)
  | None => ret tt
  end.

(** The [if(pid == 0)] block: what the child does.  It never returns. *)
Definition safe_fork_exec_child {A} (self : Proc.t) (argv : exec_args)
    (errorPipeWrite : ptr) : M A :=
  let* _ :=
    try_catch
      (let* _ := (if Proc.m_newPGID self >=? 0 then
                    let* r := setpgid 0 (Proc.m_newPGID self) in
                    CHECK (r =? 0) (fun e => "setpgid failed: " +:+ strerror e)
                  else ret tt) in
       let* _ := child_dup2 (Proc.m_stdin self) File.m_readSide STDIN_FILENO in
       let* _ := child_dup2 (Proc.m_stdout self) File.m_writeSide STDOUT_FILENO in
       let* _ := child_dup2 (Proc.m_stderr self) File.m_writeSide STDERR_FILENO in
       let* _ := match Proc.m_blockedSignals self with
                 | Some sb => SignalBlocker_unblock sb false
                 | None => ret tt
                 end in
       do_execvp argv)
      (fun e =>
         let* fd := FD_get errorPipeWrite in
         match what e with
         | Some msg => let* _ := write fd msg in ret tt
         | None => halt Crashed
         end) in
  _exit 1.

(** The rest of the outer [try] block: what the parent does. *)
Definition safe_fork_exec_parent (self : Proc.t) (pid : Z)
    (errorPipeRead errorPipeWrite : ptr) : M Z :=
  let* _ := FD_reset errorPipeWrite (-1) in
  let f := failure_default in
  let* fd := FD_get errorPipeRead in
  let* (r, buf) := read fd (m_err f) 256 in
  let* _ := CHECK (r >=? 0)
              (fun e => "read from error pipe failed: " +:+ strerror e) in
  if r >? 0 then throw {| m_err := buf |}
  else
    let* spec := load_proc_spec (Proc.m_spec self) in
    let* _ := store_proc_spec (Proc.m_spec self)
                (daemon_proc_spec.set_pid spec pid) in
    ret pid.

(** The outer [try { ... } catch(...) { kill; waitpid; throw; }]. *)
Definition safe_fork_exec_guarded (self : Proc.t) (argv : exec_args) (pid : Z)
    (errorPipeRead errorPipeWrite : ptr) : M Z :=
  try_catch
    (let* _ := (if pid =? 0
                then safe_fork_exec_child self argv errorPipeWrite
                else ret tt) in
     safe_fork_exec_parent self pid errorPipeRead errorPipeWrite)
    (fun e =>
       let* _ := kill pid SIGTERM in
       let* _ := waitpid pid 0 in
       throw e).

Definition safe_fork_exec (self : Proc.t) : M Z :=
  let* spec := load_proc_spec (Proc.m_spec self) in
  let argv := daemon_proc_spec.m_cmdArgv spec in
  let* _ := CHECK (negb (exec_args_empty argv))
              (fun _ => "cmd_argv is empty"%string) in
  let* errorPipeRead := FD_new (-1) in
  finally
    (let* errorPipeWrite := FD_new (-1) in
     finally
       (let* _ := FD_pipe errorPipeRead errorPipeWrite FD_CLOEXEC in
        let* _ := FD_setNonBlock errorPipeWrite in
        let* pid := fork in
        let* _ := CHECK (pid >=? 0) (fun e => "fork failed: " +:+ strerror e) in
        safe_fork_exec_guarded self argv pid errorPipeRead errorPipeWrite)
       (fun _ => FD_dtor errorPipeWrite))
    (fun _ => FD_dtor errorPipeRead).

(** ** [pipe.cpp]: ProcHarvester *)

Definition ProcHarvester_new (sigset : Z) : M ptr :=
  alloc h_harvester set_h_harvester
    {| ProcHarvester.m_procs := []; ProcHarvester.m_sigset := sigset |}.

Definition load_harvester (h : ptr) : M ProcHarvester.t := load h_harvester h.

(** [addProc]: the index of the new Proc in [m_procs] stands for the
    reference it returns. *)
Definition ProcHarvester_addProc (self : ptr) (spec : ptr) : M nat :=
  let* s := load_proc_spec spec in
  let* _ := store_proc_spec spec (daemon_proc_spec.resetStatus s) in
  let* H := load_harvester self in
  let* _ := store h_harvester set_h_harvester self
              {| ProcHarvester.m_procs :=
                   ProcHarvester.m_procs H ++ [Proc.make spec];
                 ProcHarvester.m_sigset := ProcHarvester.m_sigset H |} in
  ret (length (ProcHarvester.m_procs H)).

Definition load_proc (h : ptr) (i : nat) : M Proc.t :=
  let* H := load_harvester h in
  match ProcHarvester.m_procs H !! i with
  | Some P => ret P
  | None => halt Crashed
  end.

Definition store_proc (h : ptr) (i : nat) (P : Proc.t) : M unit :=
  let* H := load_harvester h in
  store h_harvester set_h_harvester h
    {| ProcHarvester.m_procs := <[i := P]> (ProcHarvester.m_procs H);
       ProcHarvester.m_sigset := ProcHarvester.m_sigset H |}.

(** The first loop of [harvest]: a non-blocking [waitpid] on every
    running child; the result is [somethingleft]. *)
Fixpoint harvest_scan (procs : list Proc.t) (somethingleft : bool) : M bool :=
  match procs with
  | [] => ret somethingleft
  | P :: rest =>
      let* spec := load_proc_spec (Proc.m_spec P) in
      if negb (daemon_proc_spec.running spec) then
        harvest_scan rest somethingleft
      else
        let* (r, status) := waitpid (daemon_proc_spec.m_pid spec) WNOHANG in
        let* _ := CHECK (r >=? 0)
                    (fun e => "waitpid failed: " +:+ strerror e) in
        if r >? 0 then
          let* _ := store_proc_spec (Proc.m_spec P)
                      (daemon_proc_spec.set_exited spec status) in
          harvest_scan rest somethingleft
        else harvest_scan rest true
  end.

(** The loop under [case SIGTERM: case SIGINT: case SIGQUIT:]. *)
Fixpoint harvest_forward (procs : list Proc.t) (sig : Z) : M unit :=
  match procs with
  | [] => ret tt
  | P :: rest =>
      let* spec := load_proc_spec (Proc.m_spec P) in
      let* _ :=
        if daemon_proc_spec.running spec
           && daemon_proc_spec.m_forwardSignals spec
        then
          let* r := kill (daemon_proc_spec.m_pid spec) sig in
          CHECK (r =? 0)
            (fun e => "kill pid=" +:+ fmt_d (daemon_proc_spec.m_pid spec)
                      +:+ " sig=" +:+ fmt_d sig +:+ " failed: " +:+ strerror e)
        else ret tt in
      harvest_forward rest sig
  end.

(** The [switch(sig)]. *)
Definition harvest_dispatch (procs : list Proc.t) (sig : Z) : M unit :=
  if (sig =? SIGTERM) || (sig =? SIGINT) || (sig =? SIGQUIT)
  then harvest_forward procs sig
  else ret tt.

(** [harvest()]: [while(true)], bounded here by [fuel] rounds. *)
Fixpoint harvest (fuel : nat) (self : ptr) : M unit :=
  match fuel with
  | O => diverge
  | S fuel' =>
      let* H := load_harvester self in
      let procs := ProcHarvester.m_procs H in
      let* somethingleft := harvest_scan procs false in
      if negb somethingleft then ret tt
      else
        let* (r, sig) := sigwait (ProcHarvester.m_sigset H) in
        let* _ := CHECK (r =? 0) (fun e => "sigwait failed: " +:+ strerror e) in
        let* _ := harvest_dispatch procs sig in
        harvest fuel' self
  end.

(** [~ProcHarvester() { try { harvest(); } catch(...) {} m_procs.clear(); }] *)
Definition ProcHarvester_dtor (fuel : nat) (self : ptr) : M unit :=
  let* _ := try_catch (harvest fuel self) (fun _ => ret tt) in
  let* H := load_harvester self in
  store h_harvester set_h_harvester self
    {| ProcHarvester.m_procs := [];
       ProcHarvester.m_sigset := ProcHarvester.m_sigset H |}.

(** ** [pipe.cpp]: daemon_pipe::LockFile

    A LockFile is its one member, the FD [m_fd]. *)

Definition LockFile_new : M ptr := FD_new (-1).

Definition already_running_msg (file : string) : string :=
  "process is already running (pidfile " +:+ file +:+ " is locked)".
Definition unable_to_lock_msg (file : string) : string :=
  "unable to lock pidfile " +:+ file.

Definition LockFile_open (m_fd : ptr) (file : string) : M unit :=
  let* d := open file (Z.lor O_CREAT O_RDWR) mode_0666 in
  let* _ := FD_reset m_fd d in
  let* ok := FD_isOk m_fd in
  let* _ := CHECK ok
              (fun e => "unable to open pidfile " +:+ file
                        +:+ " for writing: " +:+ strerror e) in
  let* _ := FD_setCloseOnExec m_fd in
  let* fd := FD_get m_fd in
  let* r := flock fd (Z.lor LOCK_EX LOCK_NB) in
  if negb (r =? 0) then
    let* _ := FD_reset m_fd (-1) in
    let* errno := gets w_errno in
    if errno =? EWOULDBLOCK
    then throw_fmt (fun _ => already_running_msg file)
    else throw_fmt (fun _ => unable_to_lock_msg file)
  else
    let* fd := FD_get m_fd in
    let* r := ftruncate fd 0 in
    let* _ := CHECK (r =? 0)
                (fun e => "unable to truncate lockfile " +:+ file
                          +:+ ": " +:+ strerror e) in
    (* [snprintf(buf, 255, "%d\n", getpid())]: a pid and a newline always
       fit the buffer *)
    let* pid := getpid in
    let buf := fmt_d pid +:+ nl in
    let* fd := FD_get m_fd in
    let* r := writeN fd buf in
    CHECK (r =? 0)
      (fun e => "unable to write to lockfile " +:+ file +:+ ": " +:+ strerror e).

(** [~LockFile()]; the member [m_fd] is destroyed after its body, however
    the body is left. *)
Definition LockFile_dtor (m_fd : ptr) : M unit :=
  finally
    (let* ok := FD_isOk m_fd in
     if ok then
       let* fd := FD_get m_fd in
       let* _ := ftruncate fd 0 in
       FD_reset m_fd (-1)
     else ret tt)
    (fun _ => FD_dtor m_fd).

(** ** [pipe.cpp]: daemon_pipe::exec *)

(** The first loop of [exec]: one Proc per spec, its stdio looked up in
    the FileMap. *)
Fixpoint exec_wire (harvester files : ptr) (specs : list ptr) : M unit :=
  match specs with
  | [] => ret tt
  | i :: rest =>
      let* proc := ProcHarvester_addProc harvester i in
      let* spec := load_proc_spec i in
      let* _ := match daemon_proc_spec.m_stdin spec with
                | Some fs =>
                    let* f := FileMap_get files fs true false in
                    let* P := load_proc harvester proc in
                    store_proc harvester proc (Proc.set_stdin P (Some f))
                | None => ret tt
                end in
      let* _ := match daemon_proc_spec.m_stdout spec with
                | Some fs =>
                    let* f := FileMap_get files fs false true in
                    let* P := load_proc harvester proc in
                    store_proc harvester proc (Proc.set_stdout P (Some f))
                | None => ret tt
                end in
      let* _ := match daemon_proc_spec.m_stderr spec with
                | Some fs =>
                    let* f := FileMap_get files fs false true in
                    let* P := load_proc harvester proc in
                    store_proc harvester proc (Proc.set_stderr P (Some f))
                | None => ret tt
                end in
      exec_wire harvester files rest
  end.

(** The second loop: open every File of the FileMap. *)
Fixpoint exec_open (files : list ptr) : M unit :=
  match files with
  | [] => ret tt
  | f :: rest => let* _ := File_open f in exec_open rest
  end.

(** The third loop: fork every Proc of the harvester, [n] of them left
    from index [i] on; the first pid becomes the process group. *)
Fixpoint exec_fork (harvester : ptr) (signals : SignalBlocker.t)
    (n i : nat) (pgid : Z) : M unit :=
  match n with
  | O => ret tt
  | S n' =>
      let* P := load_proc harvester i in
      let P' := Proc.set_fork_args P signals pgid in
      let* _ := store_proc harvester i P' in
      let* pid := safe_fork_exec P' in
      exec_fork harvester signals n' (S i) (if pgid =? 0 then pid else pgid)
  end.

Definition exec (fuel : nat) (self : daemon_pipe.t) : M unit :=
  let* _ := CHECK (negb (bool_decide (daemon_pipe.m_specs self = [])))
              (fun _ => "no procs to execute"%string) in
  let* signals := SignalBlocker_ctor in
  finally
    (let* lock := LockFile_new in
     finally
       (let* harvester := ProcHarvester_new (SignalBlocker.m_sigset signals) in
        finally
          (let* files := FileMap_new in
           finally
             (let* _ := exec_wire harvester files (daemon_pipe.m_specs self) in
              let* _ :=
                if negb (String.length (daemon_pipe.m_lockFile self) =? 0)%nat
                then LockFile_open lock (daemon_pipe.m_lockFile self)
                else ret tt in
              let* m_files := load h_filemap files in
              let* _ := exec_open m_files in
              let* H := load_harvester harvester in
              exec_fork harvester signals
                (length (ProcHarvester.m_procs H)) 0 0)
             (fun _ => FileMap_dtor files))
          (fun _ => ProcHarvester_dtor fuel harvester))
       (fun _ => LockFile_dtor lock))
    (fun uncaught => SignalBlocker_dtor signals uncaught).

(** ** [pipe.cpp]: daemon_pipe::try_error_write *)

(** The [try] block. *)
Definition try_error_write_block (fuel : nat) (self : daemon_pipe.t)
    (input : string) (signals : SignalBlocker.t) : M unit :=
  let* _ := CHECK (length (daemon_pipe.m_specs self) =? 1)%nat
              (fun _ => "specs must have 1 element"%string) in
  let* procSpec := deref (daemon_pipe.m_specs self !! 0%nat) in
  let* _ :=
    let* harvester := ProcHarvester_new (SignalBlocker.m_sigset signals) in
    finally
      (let* pipe_spec :=
         alloc h_file_spec set_h_file_spec
           {| file_spec.m_filename := ""; file_spec.m_append := false |} in
       let* file := File_new pipe_spec in
       finally
         (let* _ := File_open file in
          let* F := load_file file in
          let* ws := deref (File.m_writeSide F) in
          let* _ := FD_setNonBlock ws in
          let* proc := ProcHarvester_addProc harvester procSpec in
          let* P := load_proc harvester proc in
          let P' := Proc.set_fork_args (Proc.set_stdin P (Some file))
                      signals 0 in
          let* _ := store_proc harvester proc P' in
          let* _ := safe_fork_exec P' in
          let* F := load_file file in
          let* rs := deref (File.m_readSide F) in
          let* _ := FD_reset rs (-1) in
          let* ws := deref (File.m_writeSide F) in
          let* fd := FD_get ws in
          let* r := write fd input in
          let* _ := CHECK (r >=? 0)
                      (fun e => "write failed: " +:+ strerror e) in
          FD_reset ws (-1))
         (fun _ => File_dtor file))
      (fun _ => ProcHarvester_dtor fuel harvester) in
  let* spec := load_proc_spec procSpec in
  if negb (daemon_proc_spec.finished spec
           && WIFEXITED (daemon_proc_spec.m_status spec)
           && (WEXITSTATUS (daemon_proc_spec.m_status spec) =? 0))
  then throw (failure_fmt "proc failed")
  else ret tt.

(** The [catch(failure &f)] block: the fallback. *)
Definition try_error_write_fallback (input : string) : M unit :=
  let* _ := writeN STDERR_FILENO input in ret tt.

(** The SignalBlocker is declared before the [try], so that signals stay
    blocked inside the [catch] too. *)
Definition try_error_write (fuel : nat) (self : daemon_pipe.t)
    (input : string) : M unit :=
  let* signals := SignalBlocker_ctor in
  finally
    (try_catch (try_error_write_block fuel self input signals)
       (fun _ => try_error_write_fallback input))
    (fun uncaught => SignalBlocker_dtor signals uncaught).

(** ** [exec.cpp]: exec_with_namespace (the launcher in the library) *)

Definition launcher_argv (devname : string) (namespace_argv cmd_argv : list string)
    (env : list string) : exec_args :=
  [WITH_NAMESPACE_DIR +:+ "/exec_with_namespace"] ++ cmd_argv
  ++ ["--"%string] ++ [devname] ++ namespace_argv ++ ["--"%string] ++ env.

Definition exec_with_namespace {A} (devname : string)
    (namespace_argv cmd_argv : list string) : M A :=
  let* env := gets w_environ in
  do_execve (launcher_argv devname namespace_argv cmd_argv env) [].

(** ** [exec_with_namespace.cpp]: the setuid helper

    The helper throws nothing: its functions return an [int] and its
    [CHECK] prints to stderr and returns 1. *)

Definition eprint (text : string) : M unit :=
  let* _ := syscall (sys_eprint text) in ret tt.
Definition mkdir (path : string) (mode : Z) : M Z :=
  sys_status (sys_mkdir path mode).
Definition symlink (target linkpath : string) : M Z :=
  sys_status (sys_symlink target linkpath).
Definition unshare (flags : Z) : M Z := sys_status (sys_unshare flags).
Definition umount2 (target : string) (flags : Z) : M Z :=
  sys_status (sys_umount2 target flags).
Definition mount (source target fstype : string) (flags : Z) : M Z :=
  sys_status (sys_mount source target fstype flags).
(** [getuid] and [getgid] cannot fail. *)
Definition getuid : M Z := let* r := syscall sys_getuid in ret (r_ret r).
Definition getgid : M Z := let* r := syscall sys_getgid in ret (r_ret r).
Definition setresuid (r e s : Z) : M Z := sys_status (sys_setresuid r e s).
Definition setresgid (r e s : Z) : M Z := sys_status (sys_setresgid r e s).

(** [fopen]: a [FILE*] as an address, 0 for [NULL]. *)
Definition fopen (path mode : string) : M Z :=
  let* r := syscall (sys_fopen path mode) in
  if r_ret r <=? 0 then let* _ := fails r in ret 0 else ret (r_ret r).
(** [fprintf(stream, ...)] and [fclose(stream)] go through the stream. *)
Definition fputs (stream : Z) (text : string) : M unit :=
  if stream =? 0 then halt Crashed
  else let* _ := syscall (sys_fputs stream text) in ret tt.
Definition fclose (stream : Z) : M unit :=
  if stream =? 0 then halt Crashed
  else let* _ := syscall (sys_fclose stream) in ret tt.

(** The environment, as libc keeps it. *)
Definition env_name (entry : string) : string :=
  match find_char "=" entry with
  | Some i => prefix_n i entry
  | None => entry
  end.

Fixpoint env_replace (name entry : string) (env : list string)
  : option (list string) :=
  match env with
  | [] => None
  | e :: rest =>
      if String.eqb (env_name e) name then Some (entry :: rest)
      else option_map (cons e) (env_replace name entry rest)
  end.

(** [clearenv()] *)
Definition clearenv : M unit := modify (fun w => set_environ w []).

(** [putenv(entry)]: an entry [name=value] replaces the entry of that name
    or is added; an entry without [=] removes the name. *)
Definition putenv_env (entry : string) (env : list string) : list string :=
  match find_char "=" entry with
  | Some _ =>
      match env_replace (env_name entry) entry env with
      | Some env' => env'
      | None => env ++ [entry]
      end
  | None => filter (fun e => negb (String.eqb (env_name e) entry)) env
  end.

Definition putenv (entry : string) : M unit :=
  modify (fun w => set_environ w (putenv_env entry (w_environ w))).

Definition usage (progname : string) : M Z :=
  let* _ := eprint ("usage: " +:+ progname +:+
    " cmd args... -- mount-name target1=src1 target2=src ... -- env" +:+ nl +:+
    "    This is a setuid utility helper for with_exec.lua and /usr/bin/with"
    +:+ nl +:+
    "    For each target=src, makes a symlink mount-name/target1 => src."
    +:+ nl) in
  ret 1.

(** [mkdir_p]; every recursive call is on a strictly shorter path. *)
Fixpoint mkdir_p_rec (depth : nat) (dir : string) (mode : Z) : M Z :=
  let* r := mkdir dir mode in
  let* errno := gets w_errno in
  if (r <? 0) && (errno =? ENOENT) then
    match rfind_char "/" dir, depth with
    | Some slash, S depth' =>
        let prefix := prefix_n slash dir in
        let* _ := mkdir_p_rec depth' prefix mode in
        mkdir dir mode
    | _, _ => ret r
    end
  else ret r.

Definition mkdir_p (dir : string) (mode : Z) : M Z :=
  mkdir_p_rec (String.length dir) dir mode.

(** [target_source[equal_index + 1]] is not the terminating null *)
Definition has_source (target_source : string) (equal_index : nat) : bool :=
  negb (String.length target_source =? S equal_index)%nat.

(** One round of the symlink loop; [Some r] when a [CHECK] returns [r]
    from the function. *)
Definition create_symlink (progname target_source : string) : M (option Z) :=
  match find_char "=" target_source with
  | Some equal_index =>
      if has_source target_source equal_index then
        let target := prefix_n equal_index target_source in
        let source := suffix_from (S equal_index) target_source in
        let mount_path := WITH_MOUNTPOINT +:+ "/" +:+ target in
        let* early :=
          match rfind_char "/" mount_path with
          | Some path_end_index =>
              let dir_path := prefix_n path_end_index mount_path in
              let* r := mkdir_p dir_path mode_0755 in
              let* errno := gets w_errno in
              if (r >=? 0) || (errno =? EEXIST) then ret None
              else
                let* _ := eprint (progname +:+ ": create " +:+ dir_path
                                  +:+ " failed: " +:+ strerror errno +:+ nl) in
                ret (Some 1)
          | None => ret None
          end in
        match early with
        | Some r => ret (Some r)
        | None =>
            let* r := symlink source mount_path in
            if r >=? 0 then ret None
            else
              let* errno := gets w_errno in
              let* _ := eprint (progname +:+ ": symlink " +:+ mount_path
                                +:+ " -> " +:+ source +:+ " failed: "
                                +:+ strerror errno +:+ nl) in
              ret (Some 1)
        end
      else
        let* _ := eprint (progname +:+ " argument " +:+ target_source
                          +:+ " is must be of the form target=src" +:+ nl) in
        ret (Some 1)
  | None =>
      let* _ := eprint (progname +:+ " argument " +:+ target_source
                        +:+ " is must be of the form target=src" +:+ nl) in
      ret (Some 1)
  end.

Fixpoint create_symlinks (progname : string) (args : list string)
  : M (option Z) :=
  match args with
  | [] => ret None
  | a :: rest =>
      let* early := create_symlink progname a in
      match early with
      | Some r => ret (Some r)
      | None => create_symlinks progname rest
      end
  end.

Fixpoint write_tokens (stream : Z) (sep : string) (args : list string)
  : M unit :=
  match args with
  | [] => ret tt
  | a :: rest =>
      let* _ := fputs stream (a +:+ sep) in write_tokens stream sep rest
  end.

(** The loop starts at [++ns_args.begin()]: the first token is skipped.
    [fd >= 0] compares a pointer with null and never fails. *)
Definition create_symlinks_and_metadata (progname : string)
    (ns_args : list string) : M Z :=
  let* early := create_symlinks progname (tl ns_args) in
  match early with
  | Some r => ret r
  | None =>
      let* fd := fopen (WITH_MOUNTPOINT +:+ "/.ns") "w" in
      if fd >=? 0 then
        let* _ := write_tokens fd " " ns_args in
        let* _ := fclose fd in
        ret 0
      else
        let* errno := gets w_errno in
        let* _ := eprint (progname +:+ ": unable to write namespace metadata: "
                          +:+ strerror errno +:+ nl +:+ WITH_MOUNTPOINT
                          +:+ "/.ns" +:+ nl) in
        ret 1
  end.

(** GNU [basename]: what follows the last slash. *)
Definition basename (path : string) : string :=
  match rfind_char "/" path with
  | Some i => suffix_from (S i) path
  | None => path
  end.

(** [while (i > 0 && !stop(argv[i])) acc.push_front(argv[i--]);]
    The loop runs at most [i] rounds. *)
Fixpoint scan_back (argv : list string) (stop : string -> bool)
    (rounds : nat) (i : Z) (acc : list string) : Z * list string :=
  match rounds with
  | O => (i, acc)
  | S n =>
      if i >? 0 then
        match argv !! Z.to_nat i with
        | Some a =>
            if stop a then (i, acc)
            else scan_back argv stop n (i - 1) (a :: acc)
        | None => (i, acc)
        end
      else (i, acc)
  end.

Definition is_dashdash (a : string) : bool := String.eqb a "--".

(** The three sections of the command line, found from its end. *)
Definition parse_args (argv : list string)
  : list string * list string * list string :=
  let i := Z.of_nat (length argv) - 1 in
  let '(i, env_args) := scan_back argv is_dashdash (Z.to_nat i) i [] in
  let i := i - 1 in
  let '(i, ns_args) := scan_back argv is_dashdash (Z.to_nat i) i [] in
  let i := i - 1 in
  let '(_, exec_args) := scan_back argv (fun _ => false) (Z.to_nat i) i [] in
  (env_args, ns_args, exec_args).

Fixpoint putenv_all (env_args : list string) : M unit :=
  match env_args with
  | [] => ret tt
  | env_var :: rest => let* _ := putenv env_var in putenv_all rest
  end.

(** The part of [main] after the command line is parsed. *)
Definition main_namespace (progname : string)
    (env_args ns_args exec_args : list string) : M Z :=
  let* r := unshare CLONE_NEWNS in
  if negb (r =? 0) then
    let* errno := gets w_errno in
    let* _ := eprint (progname +:+ ": unshare failed: " +:+ strerror errno
                      +:+ nl) in
    ret 1
  else
  let* r := umount2 WITH_MOUNTPOINT MNT_DETACH in
  if negb (r >=? 0) then
    let* errno := gets w_errno in
    let* _ := eprint (progname +:+ ": umount2 tmpfs " +:+ WITH_MOUNTPOINT
                      +:+ " failed: " +:+ strerror errno +:+ nl) in
    ret 1
  else
  let* mount_name := deref (head ns_args) in
  let* r := mount mount_name "/with" "tmpfs" 0 in
  if negb (r >=? 0) then
    let* errno := gets w_errno in
    let* _ := eprint (progname +:+ ": mount tmpfs " +:+ WITH_MOUNTPOINT
                      +:+ " failed: " +:+ strerror errno +:+ nl) in
    ret 1
  else
  let* r := create_symlinks_and_metadata progname ns_args in
  if negb (r =? 0) then ret r
  else
  let* fd := fopen (WITH_MOUNTPOINT +:+ "/.env") "w" in
  if negb (fd >=? 0) then
    let* errno := gets w_errno in
    let* _ := eprint (progname +:+ ": unable to write env metadata: "
                      +:+ strerror errno +:+ nl +:+ WITH_MOUNTPOINT
                      +:+ "/.env" +:+ nl) in
    ret 1
  else
  let* _ := write_tokens fd nl env_args in
  let* _ := fclose fd in
  let* uid := getuid in
  let* gid := getgid in
  let* ru := setresuid uid uid uid in
  let* ok := (if ru >=? 0 then
                let* rg := setresgid gid gid gid in ret (rg >=? 0)
              else ret false) in
  if negb ok then
    let* errno := gets w_errno in
    let* _ := eprint (progname +:+ ": setresuid/setresgid failed: "
                      +:+ strerror errno +:+ nl) in
    ret 1
  else
  let* _ := clearenv in
  let* _ := putenv_all env_args in
  let* r := execvp (exec_name exec_args) exec_args in
  if negb (negb (r =? -1)) then
    let* errno := gets w_errno in
    let* _ := eprint (progname +:+ ": cannot exec " +:+ exec_name exec_args
                      +:+ ": " +:+ strerror errno +:+ nl) in
    ret 1
  else ret 1.

Definition main (argv : list string) : M Z :=
  let* argv0 := deref (head argv) in
  let progname := basename argv0 in
  if (length argv <=? 1)%nat then usage progname
  else if String.eqb (nth 1 argv ""%string) "--init.d" then
    (* ns_args is argv[1..argc-1], "--init.d" included *)
    create_symlinks_and_metadata progname (tl argv)
  else
    let '(env_args, ns_args, exec_args) := parse_args argv in
    if (length ns_args =? 0)%nat then usage progname
    else main_namespace progname env_args ns_args exec_args.

(** * Reasoning about runs

    [wp m Q w]: the run of [m] from [w] ends in a result and a world that
    satisfy [Q]. *)

Definition wp {A} (m : M A) (Q : Result A -> World -> Prop) (w : World) : Prop :=
  Q (fst (m w)) (snd (m w)).

(** What [bind] passes on when its first part does not return. *)
Definition pass {A B} (r : Result A) : Result B :=
  match r with
  | Ok _ => Diverge
  | Throw f => Throw f
  | Halt h => Halt h
  | Diverge => Diverge
  end.

Definition is_ok {A} (r : Result A) : bool :=
  match r with Ok _ => true | _ => false end.

(** The world after a call is logged. *)
Definition logged (w : World) (c : Call) : World :=
  set_kernel_view w (w_trace w ++ [(c, w_kernel w (w_trace w) c)]) (w_errno w).

(** The answer to the call that would be made next. *)
Definition answer (w : World) (c : Call) : Resp := w_kernel w (w_trace w) c.

(** The calls of a trace. *)
Definition calls (t : list Event) : list Call := map fst t.


(** ** Kernels and worlds for concrete runs *)

Definition resp (ret : Z) : Resp :=
  {| r_ret := ret; r_errno := 0; r_aux := []; r_data := "" |}.
Definition resp_err (errno : Z) : Resp :=
  {| r_ret := -1; r_errno := errno; r_aux := []; r_data := "" |}.
Definition resp_aux (ret : Z) (aux : list Z) : Resp :=
  {| r_ret := ret; r_errno := 0; r_aux := aux; r_data := "" |}.
Definition resp_data (data : string) : Resp :=
  {| r_ret := 0; r_errno := 0; r_aux := []; r_data := data |}.

(** A kernel under which every call succeeds: [pipe] hands out descriptors
    3 and 4, [open] 5, [dup] 6, [fork] answers in the parent with pid 100,
    the child execs at once (the error pipe reads EOF) and has exited with
    status 0 when waited for. *)
Definition kernel_ok : Kernel := fun _ c =>
  match c with
  | sys_pipe => resp_aux 0 [3; 4]
  | sys_open _ _ _ => resp 5
  | sys_dup _ => resp 6
  | sys_fork => resp 100
  | sys_waitpid pid _ => resp_aux pid [0]
  | sys_getpid => resp 42
  | sys_fopen _ _ => resp 1000
  | sys_write _ buf => resp (Z.of_nat (String.length buf))
  | _ => resp 0
  end.

Definition default_action : sigaction_t :=
  {| sa_handler := SIG_DFL; sa_mask := 0; sa_flags := 0 |}.

(** A fresh process: nothing blocked, SIGHUP at its default, an inherited
    environment, no objects. *)
Definition world0 (k : Kernel) : World :=
  {| w_kernel := k; w_trace := []; w_errno := 0; w_sigmask := 0;
     w_sighup := default_action; w_environ := ["HOME=/root"%string];
     h_fd := []; h_file_spec := []; h_proc_spec := []; h_file := [];
     h_filemap := []; h_harvester := [] |}.

(** ** Vocabulary for the helper's command line *)

(** A well-formed [target=src]: it has an [=], and something after the
    first one. *)
Definition wf_pair (p : string) : bool :=
  match find_char "=" p with
  | Some i => has_source p i
  | None => false
  end.
Definition pair_target (p : string) : string :=
  match find_char "=" p with Some i => prefix_n i p | None => p end.
Definition pair_source (p : string) : string :=
  match find_char "=" p with Some i => suffix_from (S i) p | None => ""%string end.
Definition mount_path (p : string) : string :=
  WITH_MOUNTPOINT +:+ "/" +:+ pair_target p.
Definition parent_dir (path : string) : string :=
  match rfind_char "/" path with Some i => prefix_n i path | None => path end.

(** The calls that make the symlink of one pair when nothing fails. *)
Definition pair_calls (p : string) : list Call :=
  [sys_mkdir (parent_dir (mount_path p)) mode_0755;
   sys_symlink (pair_source p) (mount_path p)].




(** The environment that [clearenv] followed by [putenv] of every entry
    leaves. *)
Definition install_env (env_args : list string) : list string :=
  fold_left (fun env entry => putenv_env entry env) env_args [].

Definition has_equals (entry : string) : bool :=
  match find_char "=" entry with Some _ => true | None => false end.

(** The command line the launcher builds:
    [helper cmd... -- mount-name target=src... -- KEY=VALUE...] *)
Definition helper_argv (progname : string) (cmd ns env : list string)
  : list string :=
  progname :: cmd ++ "--"%string :: ns ++ "--"%string :: env.

(** A computation that never ends in a successful [exec]. *)
Definition no_exec {A} (m : M A) : Prop :=
  forall w, wp m (fun r _ => forall f a e, r <> Halt (Execed f a e)) w.

(** If the run ends in a successful [exec], it is the exec of [cmd] with
    the environment installed from [env]. *)
Definition exec_post (cmd env : list string) (r : Result Z) (w : World) : Prop :=
  forall f a e,
    r = Halt (Execed f a e) ->
    f = exec_name cmd /\ a = cmd /\ e = install_env env.

(** ** Vocabulary for the signal state *)

(** The part of the process state that [execute] promises to restore. *)
Definition sig_state (w : World) : Z * sigaction_t :=
  (w_sigmask w, w_sighup w).

(** A computation that leaves the signal state alone, however it ends. *)
Definition sig_pure {A} (m : M A) : Prop :=
  forall w, wp m (fun _ w' => sig_state w' = sig_state w) w.


(** A computation that never returns normally. *)
Definition never_ok {A} (m : M A) : Prop :=
  forall w, wp m (fun r _ => is_ok r = false) w.

(** The set the SignalBlocker blocks: the bits of the six gated signals. *)
Definition gate_mask : Z :=
  fold_left (fun set sig => Z.lor set (sigbit sig)) gated_signals 0.



(** ** Vocabulary for the endpoints *)

(** A named path: not anonymous and none of the three caller
    descriptors. *)
Definition is_named_path (filename : string) : bool :=
  negb (String.length filename =? 0)%nat
  && negb (String.eqb filename "/dev/stdin")
  && negb (String.eqb filename "/dev/stdout")
  && negb (String.eqb filename "/dev/stderr").

Definition is_fcntl (c : Call) : bool :=
  match c with sys_fcntl _ _ _ => true | _ => false end.

(** The flags [File::open] computes for a named path wanted for both
    reading and writing. *)
Definition rw_open_flags (append : bool) : Z :=
  if append then Z.lor (Z.lor (Z.lor 0 O_RDONLY) (Z.lor O_CREAT O_WRONLY)) O_APPEND
  else Z.lor (Z.lor 0 O_RDONLY) (Z.lor O_CREAT O_WRONLY).

(** Scenario: one endpoint on [/tmp/f], wanted for reading and writing. *)
Definition world_rw_file : World :=
  set_h_file
    (set_h_file_spec (world0 kernel_ok)
       [{| file_spec.m_filename := "/tmp/f"; file_spec.m_append := false |}])
    [{| File.m_spec := 0%nat; File.m_append := false;
        File.m_wantRead := true; File.m_wantWrite := true;
        File.m_readSide := None; File.m_writeSide := None |}].

(** What holds from the [open] call of [File::open] on: the calls made
    since [base] are [fcntl] calls, and both sides of the File [self] are
    the FD object [fd]. *)
Definition opened_both_sides (base : list Call) (self fd : ptr) (w : World)
  : Prop :=
  exists rest F',
    calls (w_trace w) = base ++ rest
    /\ forallb is_fcntl rest = true
    /\ h_file w !! self = Some F'
    /\ File.m_readSide F' = Some fd
    /\ File.m_writeSide F' = Some fd.

(** ** Vocabulary for safe_fork_exec *)


(** The bytes that [read(fd, f.m_err, sizeof(f.m_err))] delivers. *)
Definition relayed (r : Resp) : list ascii :=
  take 256 (list_ascii_of_string (r_data r)).

Definition proc_cat : daemon_proc_spec.t :=
  {| daemon_proc_spec.m_forwardSignals := true;
     daemon_proc_spec.m_cmdArgv := ["cat"%string];
     daemon_proc_spec.m_stdin := None; daemon_proc_spec.m_stdout := None;
     daemon_proc_spec.m_stderr := None; daemon_proc_spec.m_pid := -1;
     daemon_proc_spec.m_exited := false; daemon_proc_spec.m_status := 0 |}.

(** Scenario: the parent just after [fork] answered 100, the error pipe
    on descriptors 3 (read) and 4 (write). *)
Definition world_forked (k : Kernel) : World :=
  set_h_proc_spec (set_h_fd (world0 k) [3; 4]) [proc_cat].

(** A kernel whose child fails to exec and says so on the error pipe. *)
Definition kernel_exec_fails : Kernel := fun h c =>
  match c with
  | sys_read _ _ =>
      resp_data "execvp /does/not/exist failed: No such file or directory"
  | _ => kernel_ok h c
  end.

(** ** Vocabulary for the LockFile *)

(** The calls by which [LockFile::open] opens and locks [file] as
    descriptor [fd], whose descriptor flags were [fdflags]. *)
Definition locking_calls (file : string) (fd fdflags : Z) : list Call :=
  [sys_open file (Z.lor O_CREAT O_RDWR) mode_0666;
   sys_fcntl fd F_GETFD 0;
   sys_fcntl fd F_SETFD (Z.lor fdflags FD_CLOEXEC);
   sys_flock fd (Z.lor LOCK_EX LOCK_NB)].

(** The world [LockFile::open] has reached when the file is open as [fd],
    stored in [m_fd] and made close-on-exec, just before [flock]. *)
Definition world_lock_opened (w : World) (m_fd : ptr) (file : string)
    (fd fdflags : Z) : World :=
  logged
    (logged
       (set_h_fd (logged w (sys_open file (Z.lor O_CREAT O_RDWR) mode_0666))
          (<[m_fd := fd]> (h_fd w)))
       (sys_fcntl fd F_GETFD 0))
    (sys_fcntl fd F_SETFD (Z.lor fdflags FD_CLOEXEC)).

(** A kernel like [kernel_ok] but for its answer to [flock]. *)
Definition kernel_flock (answer : Resp) : Kernel := fun h c =>
  match c with
  | sys_flock _ _ => answer
  | _ => kernel_ok h c
  end.

(** Scenario: a LockFile just constructed, its [m_fd] the FD object 0. *)
Definition world_lock (k : Kernel) : World := set_h_fd (world0 k) [-1].

(** ** Vocabulary for the harvest loop *)





(** Scenario: a pipeline of the one process [proc_cat], which has
    [forward_signals] set; SIGUSR1 is blocked and SIGHUP is handled when
    [exec] is called. *)
Definition pipeline_cat : daemon_pipe.t :=
  {| daemon_pipe.m_lockFile := ""; daemon_pipe.m_specs := [0%nat] |}.

Definition handled_action : sigaction_t :=
  {| sa_handler := 4198400; sa_mask := 0; sa_flags := 0 |}.

Definition world_cat (k : Kernel) : World :=
  set_sighup (set_sigmask (set_h_proc_spec (world0 k) [proc_cat]) 512)
    handled_action.


(** ** Scenarios for try_error_write *)

(** A kernel that refuses to change the disposition of a signal. *)
Definition kernel_gate_fails : Kernel := fun h c =>
  match c with
  | sys_sigaction _ _ => resp_err 22
  | _ => kernel_ok h c
  end.

(** A kernel whose [write] to a pipe fails with EPIPE. *)
Definition kernel_write_fails : Kernel := fun h c =>
  match c with
  | sys_write 4 _ => resp_err 32
  | _ => kernel_ok h c
  end.

(** A kernel whose child exits with status 3. *)
Definition kernel_child_exits_3 : Kernel := fun h c =>
  match c with
  | sys_waitpid pid _ => resp_aux pid [768]
  | _ => kernel_ok h c
  end.

Definition is_stderr_write (input : string) (c : Call) : bool :=
  match c with
  | sys_write fd buf => (fd =? STDERR_FILENO) && String.eqb buf input
  | _ => false
  end.

(** Scenario: a supervisor about to fork [proc_cat] with no stdio wired. *)
Definition world_before_fork (k : Kernel) : World :=
  set_h_proc_spec (world0 k) [proc_cat].

(** The bytes written at the start of the message buffer of a thrown
    failure. *)
Fixpoint written_prefix (b : cbuf) : list ascii :=
  match b with
  | Some c :: r => c :: written_prefix r
  | _ => []
  end.
Definition what_failure {A} (r : Result A) : option (list ascii) :=
  match r with
  | Throw f => Some (written_prefix (m_err f))
  | _ => None
  end.

(** ** Vocabulary for messages, writes and descriptors *)

(** A string without a null byte. *)
Definition nul_free (s : string) : bool :=
  forallb (fun c => negb (Ascii.eqb c NUL)) (list_ascii_of_string s).

(** What a run has added to the trace. *)
Definition new_events (w w' : World) : list Event :=
  drop (length (w_trace w)) (w_trace w').

(** The bytes of its buffer that a [write] call took. *)
Definition accepted (e : Event) : string :=
  match e with
  | (sys_write _ buf, r) => prefix_n (Z.to_nat (r_ret r)) buf
  | _ => EmptyString
  end.

Definition concat_strings (l : list string) : string :=
  fold_right append EmptyString l.

Definition is_write_to (fd : Z) (c : Call) : bool :=
  match c with sys_write fd' _ => fd' =? fd | _ => false end.

(** The value of [m_fd] of the FD object [p]. *)
Definition fd_of (w : World) (p : ptr) : option Z := h_fd w !! p.

(** ** Vocabulary for File::open *)

(** The message with which [File::open] refuses a caller stream wanted
    for the direction it does not have. *)
Definition wrong_direction (filename : string) (F : File.t) : option string :=
  if String.eqb filename "/dev/stdin" then
    if File.m_wantWrite F
    then Some "caller_stdin cannot be used for writing"%string else None
  else if String.eqb filename "/dev/stdout" then
    if File.m_wantRead F
    then Some "caller_stdout cannot be used for reading"%string else None
  else if String.eqb filename "/dev/stderr" then
    if File.m_wantRead F
    then Some "caller_stderr cannot be used for reading"%string else None
  else None.

(** The calls that set close-on-exec on [fd], whose descriptor flags
    were [fdflags]. *)
Definition cloexec_calls (fd fdflags : Z) : list Call :=
  [sys_fcntl fd F_GETFD 0; sys_fcntl fd F_SETFD (Z.lor fdflags FD_CLOEXEC)].

(** A kernel whose [fcntl] never fails. *)
Definition fcntl_ok (k : Kernel) : Prop :=
  forall h fd cmd arg, 0 <= r_ret (k h (sys_fcntl fd cmd arg)).

(** Scenario: one endpoint, not yet opened, on the file_spec [spec],
    wanted as [wantRead] and [wantWrite] say. *)
Definition endpoint (spec : file_spec.t) (wantRead wantWrite : bool)
  : File.t :=
  {| File.m_spec := 0%nat; File.m_append := file_spec.m_append spec;
     File.m_wantRead := wantRead; File.m_wantWrite := wantWrite;
     File.m_readSide := None; File.m_writeSide := None |}.
Definition world_endpoint (k : Kernel) (spec : file_spec.t)
    (wantRead wantWrite : bool) : World :=
  set_h_file (set_h_file_spec (world0 k) [spec])
    [endpoint spec wantRead wantWrite].

Definition spec_pipe : file_spec.t :=
  {| file_spec.m_filename := ""; file_spec.m_append := false |}.
Definition spec_caller_stdout : file_spec.t :=
  {| file_spec.m_filename := "/dev/stdout"; file_spec.m_append := false |}.

(** ** Vocabulary for what a process is when it execs *)

(** A postcondition that speaks of successful execs only. *)
Definition exec_only {A} (Q : Result A -> World -> Prop) : Prop :=
  forall r w, (forall f a e, r <> Halt (Execed f a e)) -> Q r w.

(** The child of [safe_fork_exec], if it has execed, has done so as
    [argv], with the signal mask [mask] and the SIGHUP disposition
    [hup]. *)
Definition child_execed (argv : list string) (mask : Z) (hup : sigaction_t)
    (r : Result Z) (w : World) : Prop :=
  forall f a e,
    r = Halt (Execed f a e) ->
    f = exec_name argv /\ a = argv
    /\ w_sigmask w = mask /\ w_sighup w = hup.

(** Scenario: the child of a supervisor that was called with SIGUSR1
    blocked; the SignalBlocker has saved that mask, blocked its six
    signals on top of it and set SIGHUP to be ignored. *)
Definition blocker_usr1 : SignalBlocker.t :=
  {| SignalBlocker.m_sigset := 86023; SignalBlocker.m_oldset := 512;
     SignalBlocker.m_oldHUPAction := default_action |}.
Definition world_child (k : Kernel) : World :=
  set_sighup (set_sigmask (set_h_fd (set_h_proc_spec (world0 k) [proc_cat])
                             [3; 4]) (Z.lor 512 86023))
    ignore_action.

(** ** Vocabulary for the helper's runs *)

(** The end of a trace in which the process has given up its privileges
    and then execed: it asked for its real user and group, set all three
    user ids to the first and all three group ids to the second, both
    with success, and made the [execvp] of [file] with [argv] as its
    last call. *)
Definition dropped_then_execed (t : list Event) (file : string)
    (argv : list string) : Prop :=
  exists pre ru rg r1 r2 r3,
    t = pre ++ [(sys_getuid, ru); (sys_getgid, rg);
                (sys_setresuid (r_ret ru) (r_ret ru) (r_ret ru), r1);
                (sys_setresgid (r_ret rg) (r_ret rg) (r_ret rg), r2);
                (sys_execvp file argv, r3)]
    /\ r_ret r1 = 0 /\ r_ret r2 = 0.



(** The text [usage] prints. *)
Definition usage_text (progname : string) : string :=
  "usage: " +:+ progname +:+
  " cmd args... -- mount-name target1=src1 target2=src ... -- env" +:+ nl +:+
  "    This is a setuid utility helper for with_exec.lua and /usr/bin/with"
  +:+ nl +:+
  "    For each target=src, makes a symlink mount-name/target1 => src."
  +:+ nl.

(** The diagnostic for a token that is not a [target=src] pair. *)
Definition malformed_pair_text (progname token : string) : string :=
  progname +:+ " argument " +:+ token
  +:+ " is must be of the form target=src" +:+ nl.

(** A [mkdir] of [dir] cut at some length. *)
Definition is_mkdir_of_prefix (dir : string) (mode : Z) (c : Call) : Prop :=
  exists n, c = sys_mkdir (prefix_n n dir) mode.

(** A kernel whose [mkdir] and [symlink] always succeed. *)
Definition links_ok (k : Kernel) : Prop :=
  forall h c,
    match c with
    | sys_mkdir _ _ | sys_symlink _ _ => r_ret (k h c) = 0
    | _ => True
    end.

(** A kernel whose [fopen] always fails. *)
Definition fopen_fails (k : Kernel) : Prop :=
  forall h path mode, r_ret (k h (sys_fopen path mode)) <= 0.

(** Like [kernel_ok], but no file can be opened for writing. *)
Definition kernel_readonly : Kernel := fun h c =>
  match c with
  | sys_fopen _ _ => resp_err 30
  | _ => kernel_ok h c
  end.

(** ** Vocabulary for the harvester *)

(** No Proc of the list has a child that runs. *)
Definition none_running (w : World) (procs : list Proc.t) : Prop :=
  Forall (fun P => exists spec,
            h_proc_spec w !! Proc.m_spec P = Some spec
            /\ daemon_proc_spec.running spec = false) procs.

(** Every Proc of the list points to a ProcessSpec. *)
Definition specs_valid (w : World) (procs : list Proc.t) : Prop :=
  Forall (fun P => is_Some (h_proc_spec w !! Proc.m_spec P)) procs.

(** A kernel for which every child has exited: a [waitpid] with WNOHANG
    finds the child, and its status is [st pid]. *)
Definition all_exited (k : Kernel) (st : Z -> Z) : Prop :=
  forall h pid,
    0 < r_ret (k h (sys_waitpid pid WNOHANG))
    /\ nth 0 (r_aux (k h (sys_waitpid pid WNOHANG))) 0 = st pid.

(** The ProcessSpec at address [i] once the children of [procs] are
    reaped: a spec of one of them that was running has exited with the
    status of its pid; every other spec is as it was. *)
Definition reaped (st : Z -> Z) (procs : list Proc.t) (i : ptr)
    (s : daemon_proc_spec.t) : daemon_proc_spec.t :=
  if daemon_proc_spec.running s && bool_decide (i ∈ map Proc.m_spec procs)
  then daemon_proc_spec.set_exited s (st (daemon_proc_spec.m_pid s))
  else s.

Definition is_waitpid_nohang (c : Call) : bool :=
  match c with sys_waitpid _ options => options =? WNOHANG | _ => false end.

(** ** Vocabulary for the two sides of a fork *)

(** How a run may end without an exec: by returning, by throwing, or in a
    crash. *)
Definition ends_tamely {A} (r : Result A) : Prop :=
  match r with
  | Ok _ | Throw _ => True
  | Halt h => h = Crashed
  | Diverge => False
  end.

(** The world has moved on without touching the kernel or the FD
    objects: the trace has grown, nothing else that matters here has
    changed. *)
Definition moved_on (w w' : World) : Prop :=
  h_fd w' = h_fd w /\ w_kernel w' = w_kernel w
  /\ exists t, w_trace w' = w_trace w ++ t.

(** A computation that only makes calls: it leaves the FD objects alone
    and ends tamely. *)
Definition tame {A} (m : M A) : Prop :=
  forall w, wp m (fun r w' => moved_on w w' /\ ends_tamely r) w.

(** How the child of a fork ends. *)
Definition child_end (wfd : Z) (h : halted) (t : list Event) : Prop :=
  h = Crashed
  \/ (exists f a e, h = Execed f a e)
  \/ (h = Exited 1
      /\ exists msg pre r1 r2,
           t = pre ++ [(sys_write wfd msg, r1); (sys_exit 1, r2)]).

(** How the inner [try] block of the child may end. *)
Definition child_body_end {A} (w0 : World) (r : Result A) (w1 : World) : Prop :=
  h_fd w1 = h_fd w0 /\
  match r with
  | Throw _ => True
  | Halt h => h = Crashed \/ exists f a e, h = Execed f a e
  | _ => False
  end.

(** The FD object [p] still holds [raw], or [raw] has been closed in the
    calls [t]. *)
Definition held_or_closed (p : ptr) (raw : Z) (t : list Event) (w : World)
  : Prop :=
  h_fd w !! p = Some raw \/ In (sys_close raw) (calls t).

(** Since [w0], both ends of the error pipe are accounted for: each is
    held by its FD object or has been closed. *)
Definition pipe_kept (w0 : World) (er ew : ptr) (raw0 raw1 : Z) (w' : World)
  : Prop :=
  w_kernel w' = w_kernel w0
  /\ exists t, w_trace w' = w_trace w0 ++ t
               /\ held_or_closed er raw0 t w' /\ held_or_closed ew raw1 t w'.

(** [m] keeps [I] and ends tamely. *)
Definition keeps (I : World -> Prop) {A} (m : M A) : Prop :=
  forall w, I w -> wp m (fun r w' => I w' /\ ends_tamely r) w.

(** What [FD::reset] on [p] does to the world. *)
Definition reset_step (p : ptr) (w w' : World) : Prop :=
  w_kernel w' = w_kernel w
  /\ (forall q, q <> p -> h_fd w' !! q = h_fd w !! q)
  /\ exists t, w_trace w' = w_trace w ++ t
               /\ forall raw, h_fd w !! p = Some raw -> raw <> -1 ->
                              In (sys_close raw) (calls t).

(** How [safe_fork_exec] ends: in the child as [child_end] says, in the
    parent with both ends of the error pipe closed. *)
Definition fork_exec_end (w : World) (raw0 raw1 : Z) (r : Result Z)
    (w' : World) : Prop :=
  match r with
  | Ok _ | Throw _ =>
      In (sys_close raw0) (calls (new_events w w'))
      /\ In (sys_close raw1) (calls (new_events w w'))
  | Halt h => child_end raw1 h (w_trace w')
  | Diverge => False
  end.

(** How the block that owns the error pipe ends, before the destructors
    of the two FD objects. *)
Definition pipe_body_end (w0 : World) (er ew : ptr) (raw0 raw1 : Z)
    (r : Result Z) (w' : World) : Prop :=
  match r with
  | Ok _ | Throw _ => pipe_kept w0 er ew raw0 raw1 w'
  | Halt h => child_end raw1 h (w_trace w')
  | Diverge => False
  end.

(** After the destructor of the write end. *)
Definition write_end_closed (w0 : World) (er : ptr) (raw0 raw1 : Z)
    (w' : World) : Prop :=
  exists t, w_trace w' = w_trace w0 ++ t
            /\ held_or_closed er raw0 t w'
            /\ In (sys_close raw1) (calls t).

(** After the destructors of both ends. *)
Definition both_ends_closed (w0 : World) (raw0 raw1 : Z) (w' : World) : Prop :=
  exists t, w_trace w' = w_trace w0 ++ t
            /\ In (sys_close raw0) (calls t)
            /\ In (sys_close raw1) (calls t).

(** ** Vocabulary for the order of lock and fork *)

(** From [w] to [w'] the trace has only grown, by calls that satisfy [P]. *)
Definition grows (P : Call -> Prop) (w w' : World) : Prop :=
  exists t, w_trace w' = w_trace w ++ t /\ Forall (fun e => P (fst e)) t.

(** A computation all of whose calls satisfy [P]. *)
Definition only (P : Call -> Prop) {A} (m : M A) : Prop :=
  forall w, wp m (fun _ w' => grows P w w') w.

Definition not_fork (c : Call) : Prop := c <> sys_fork.
Definition any_call (c : Call) : Prop := True.

(** The event of a [flock(fd, LOCK_EX | LOCK_NB)] that succeeded. *)
Definition lock_taken (e : Event) : Prop :=
  exists fd, fst e = sys_flock fd (Z.lor LOCK_EX LOCK_NB) /\ r_ret (snd e) = 0.

(** Every fork of the trace has a successful lock before it. *)
Definition locked_before_fork (t : list Event) : Prop :=
  forall pre r post, t = pre ++ (sys_fork, r) :: post -> Exists lock_taken pre.

(** The two phases of a run that locks before it forks: nothing forked
    yet, or the lock taken before any fork. *)
Definition lock_phase (t : list Event) : Prop :=
  Forall (fun e => not_fork (fst e)) t
  \/ exists pre e post,
       t = pre ++ e :: post
       /\ Forall (fun e => not_fork (fst e)) pre /\ lock_taken e.

Definition phase {A} (m : M A) : Prop :=
  forall w, wp m (fun _ w' => exists t, w_trace w' = w_trace w ++ t
                                        /\ lock_phase t) w.

(** A computation that forks nothing and that, when it returns, has taken
    the lock. *)
Definition takes_lock {A} (m : M A) : Prop :=
  forall w, wp m (fun r w' =>
                    exists t, w_trace w' = w_trace w ++ t
                              /\ Forall (fun e => not_fork (fst e)) t
                              /\ (is_ok r = true -> Exists lock_taken t)) w.

(** * [exec_scripting.cpp]: the Lua binding

    The binding looks at Lua values through luabind.  Of a value it uses
    the type, of a number key what [object_cast<int>] makes of it, and of
    a string its bytes as a C string. *)

Inductive lua_type :=
| LUA_TNIL | LUA_TBOOLEAN | LUA_TLIGHTUSERDATA | LUA_TNUMBER | LUA_TSTRING
| LUA_TTABLE | LUA_TFUNCTION | LUA_TUSERDATA | LUA_TTHREAD.

(** [lua_typename] *)
Definition lua_typename (t : lua_type) : string :=
  match t with
  | LUA_TNIL => "nil"
  | LUA_TBOOLEAN => "boolean"
  | LUA_TLIGHTUSERDATA => "userdata"
  | LUA_TNUMBER => "number"
  | LUA_TSTRING => "string"
  | LUA_TTABLE => "table"
  | LUA_TFUNCTION => "function"
  | LUA_TUSERDATA => "userdata"
  | LUA_TTHREAD => "thread"
  end.

Inductive lua_value :=
| LNil
| LBoolean (b : bool)
| LLightUserdata
| LNumber (as_int : Z)         (* what [object_cast<int>] gives *)
| LString (s : string)
| LTable
| LFunction
| LUserdata
| LThread.

(** [luabind::type] *)
Definition lua_type_of (v : lua_value) : lua_type :=
  match v with
  | LNil => LUA_TNIL
  | LBoolean _ => LUA_TBOOLEAN
  | LLightUserdata => LUA_TLIGHTUSERDATA
  | LNumber _ => LUA_TNUMBER
  | LString _ => LUA_TSTRING
  | LTable => LUA_TTABLE
  | LFunction => LUA_TFUNCTION
  | LUserdata => LUA_TUSERDATA
  | LThread => LUA_TTHREAD
  end.

Definition is_number (t : lua_type) : bool :=
  match t with LUA_TNUMBER => true | _ => false end.
Definition is_string (t : lua_type) : bool :=
  match t with LUA_TSTRING => true | _ => false end.

(** The loop of [copyCmdFromLua]; [entries] are the key-value pairs of
    the table in the order the iterator yields them, [i] is the key that
    is expected next.  A value goes in through the [push_back] that
    takes a C string, so up to its first null byte. *)
Fixpoint copyCmdFromLua_from (i : Z) (cmd : exec_args)
    (entries : list (lua_value * lua_value)) (errName : string)
  : M exec_args :=
  match entries with
  | [] => ret cmd
  | (key, value) :: rest =>
      let keytype := lua_type_of key in
      let valtype := lua_type_of value in
      if negb (is_number keytype) then
        throw_fmt (fun _ => "bad key in " +:+ errName
                            +:+ " (number expected, got "
                            +:+ lua_typename keytype +:+ ")")
      else if negb (is_string valtype) then
        throw_fmt (fun _ => "bad value in " +:+ errName
                            +:+ " (string expected, got "
                            +:+ lua_typename valtype +:+ ")")
      else
        match key, value with
        | LNumber idx, LString s =>
            if negb (idx =? i) then
              throw_fmt (fun _ => "keys must be consecutive in " +:+ errName
                                  +:+ "; " +:+ fmt_d i +:+ "th key was "
                                  +:+ fmt_d idx)
            else copyCmdFromLua_from (i + 1) (cmd ++ [until_nul s]) rest errName
        | _, _ => halt Crashed      (* not reached: the types were checked *)
        end
  end.

Definition copyCmdFromLua (cmd : exec_args)
    (entries : list (lua_value * lua_value)) (errName : string)
  : M exec_args :=
  copyCmdFromLua_from 1 cmd entries errName.

(** [daemon_proc_spec()] *)
Definition daemon_proc_spec_new : daemon_proc_spec.t :=
  {| daemon_proc_spec.m_forwardSignals := false;
     daemon_proc_spec.m_cmdArgv := [];
     daemon_proc_spec.m_stdin := None; daemon_proc_spec.m_stdout := None;
     daemon_proc_spec.m_stderr := None; daemon_proc_spec.m_pid := -1;
     daemon_proc_spec.m_exited := false; daemon_proc_spec.m_status := 0 |}.

Definition set_forwardSignals (s : daemon_proc_spec.t) (b : bool)
  : daemon_proc_spec.t :=
  {| daemon_proc_spec.m_forwardSignals := b;
     daemon_proc_spec.m_cmdArgv := daemon_proc_spec.m_cmdArgv s;
     daemon_proc_spec.m_stdin := daemon_proc_spec.m_stdin s;
     daemon_proc_spec.m_stdout := daemon_proc_spec.m_stdout s;
     daemon_proc_spec.m_stderr := daemon_proc_spec.m_stderr s;
     daemon_proc_spec.m_pid := daemon_proc_spec.m_pid s;
     daemon_proc_spec.m_exited := daemon_proc_spec.m_exited s;
     daemon_proc_spec.m_status := daemon_proc_spec.m_status s |}.

Definition set_cmdArgv (s : daemon_proc_spec.t) (argv : exec_args)
  : daemon_proc_spec.t :=
  {| daemon_proc_spec.m_forwardSignals := daemon_proc_spec.m_forwardSignals s;
     daemon_proc_spec.m_cmdArgv := argv;
     daemon_proc_spec.m_stdin := daemon_proc_spec.m_stdin s;
     daemon_proc_spec.m_stdout := daemon_proc_spec.m_stdout s;
     daemon_proc_spec.m_stderr := daemon_proc_spec.m_stderr s;
     daemon_proc_spec.m_pid := daemon_proc_spec.m_pid s;
     daemon_proc_spec.m_exited := daemon_proc_spec.m_exited s;
     daemon_proc_spec.m_status := daemon_proc_spec.m_status s |}.

(** The static [try_error_write] of the binding: a pipeline of one
    process, with [forward_signals] set, that runs [cmd_argv]. *)
Definition lua_try_error_write (fuel : nat)
    (cmd_argv : list (lua_value * lua_value)) (input : string) : M unit :=
  let* proc := alloc h_proc_spec set_h_proc_spec daemon_proc_spec_new in
  let* s := load_proc_spec proc in
  let* _ := store_proc_spec proc (set_forwardSignals s true) in
  let* s := load_proc_spec proc in
  let* argv := copyCmdFromLua (daemon_proc_spec.m_cmdArgv s) cmd_argv
                 "try_error_write argument 1" in
  let* s := load_proc_spec proc in
  let* _ := store_proc_spec proc (set_cmdArgv s argv) in
  try_error_write fuel
    {| daemon_pipe.m_lockFile := ""; daemon_pipe.m_specs := [proc] |} input.

(** [<sys/wait.h>], as glibc has them. *)
Definition WTERMSIG (status : Z) : Z := Z.land status 127.
(** [((signed char) ((status & 0x7f) + 1) >> 1) > 0] *)
Definition WIFSIGNALED (status : Z) : bool :=
  let c := Z.land status 127 + 1 in
  let signed_char := if c >? 127 then c - 256 else c in
  Z.shiftr signed_char 1 >? 0.

(** The properties of a ProcessSpec in Lua; [None] is [nil]. *)
Definition daemon_proc_get_pid (proc : daemon_proc_spec.t) : option Z :=
  if negb (daemon_proc_spec.started proc) then None
  else Some (daemon_proc_spec.m_pid proc).

Definition daemon_proc_exited (proc : daemon_proc_spec.t) : option bool :=
  if negb (daemon_proc_spec.finished proc) then None
  else Some (WIFEXITED (daemon_proc_spec.m_status proc)).

Definition daemon_proc_signaled (proc : daemon_proc_spec.t) : option bool :=
  if negb (daemon_proc_spec.finished proc) then None
  else Some (WIFSIGNALED (daemon_proc_spec.m_status proc)).

Definition daemon_proc_exitstatus (proc : daemon_proc_spec.t) : option Z :=
  if negb (daemon_proc_spec.finished proc)
     || negb (WIFEXITED (daemon_proc_spec.m_status proc))
  then None
  else Some (WEXITSTATUS (daemon_proc_spec.m_status proc)).

Definition daemon_proc_termsig (proc : daemon_proc_spec.t) : option Z :=
  if negb (daemon_proc_spec.finished proc)
     || negb (WIFSIGNALED (daemon_proc_spec.m_status proc))
  then None
  else Some (WTERMSIG (daemon_proc_spec.m_status proc)).

(** ** Vocabulary for the binding *)

(** The table [{ s1, s2, ... }] as the iterator yields it. *)
Definition lua_sequence_from (i : Z) (l : list string)
  : list (lua_value * lua_value) :=
  imap (fun n s => (LNumber (i + Z.of_nat n), LString s)) l.
Definition lua_sequence (l : list string) : list (lua_value * lua_value) :=
  lua_sequence_from 1 l.

(** [exec_with_namespace_internal]: both tables are read, then the
    launcher of [exec.cpp] is called. *)
Definition exec_with_namespace_internal {A} (devname : string)
    (namespace_obj cmd_argv_obj : list (lua_value * lua_value)) : M A :=
  let* namespace_argv := copyCmdFromLua [] namespace_obj
                           "exec_with_namespace.namespace" in
  let* cmd_argv := copyCmdFromLua [] cmd_argv_obj "exec_with_namespace.cmd" in
  exec_with_namespace devname namespace_argv cmd_argv.


(** * Rules for [wp] *)

Lemma wp_run {A} (m : M A) (Q : Result A -> World -> Prop) w r w' :
  m w = (r, w') -> wp m Q w <-> Q r w'.
Proof. unfold wp. intros ->. reflexivity. Qed.

Lemma wp_mono {A} (m : M A) (Q Q' : Result A -> World -> Prop) w :
  wp m Q w -> (forall r w', Q r w' -> Q' r w') -> wp m Q' w.
Proof. unfold wp. auto. Qed.

Lemma wp_ret {A} (a : A) Q w : Q (Ok a) w -> wp (ret a) Q w.
Proof. exact id. Qed.


Lemma wp_halt {A} h (Q : Result A -> World -> Prop) w :
  Q (Halt h) w -> wp (halt h) Q w.
Proof. exact id. Qed.

Lemma wp_bind {A B} (m : M A) (k : A -> M B) Q w :
  wp m (fun r w1 =>
          match r with
          | Ok a => wp (k a) Q w1
          | _ => Q (pass r) w1
          end) w ->
  wp (bind m k) Q w.
Proof.
  unfold wp, bind. destruct (m w) as [[a|f|h|] w1]; simpl; auto.
Qed.

Lemma wp_try_catch {A} (body : M A) handler Q w :
  wp body (fun r w1 =>
             match r with
             | Throw f => wp (handler f) Q w1
             | _ => Q r w1
             end) w ->
  wp (try_catch body handler) Q w.
Proof.
  unfold wp, try_catch. destruct (body w) as [[a|f|h|] w1]; simpl; auto.
Qed.

Lemma wp_finally {A} (body : M A) dtor Q w :
  wp body (fun r w1 =>
             match r with
             | Ok a =>
                 wp (dtor false)
                    (fun r2 w2 =>
                       match r2 with
                       | Ok _ => Q (Ok a) w2
                       | _ => Q (pass r2) w2
                       end) w1
             | Throw f =>
                 wp (dtor true)
                    (fun r2 w2 =>
                       match r2 with
                       | Ok _ => Q (Throw f) w2
                       | Throw _ => Q (Halt Terminated) w2
                       | _ => Q (pass r2) w2
                       end) w1
             | _ => Q r w1
             end) w ->
  wp (finally body dtor) Q w.
Proof.
  unfold wp, finally. destruct (body w) as [[a|f|h|] w1]; simpl; auto.
  - destruct (dtor false w1) as [[[]|f|h|] w2]; simpl; auto.
  - destruct (dtor true w1) as [[[]|f2|h|] w2]; simpl; auto.
Qed.

Lemma wp_gets {A} (g : World -> A) Q w : Q (Ok (g w)) w -> wp (gets g) Q w.
Proof. exact id. Qed.

Lemma wp_modify (g : World -> World) Q w : Q (Ok tt) (g w) -> wp (modify g) Q w.
Proof. exact id. Qed.

Lemma wp_throw_fmt {A} msg (Q : Result A -> World -> Prop) w :
  Q (Throw (failure_fmt (msg (w_errno w)))) w -> wp (throw_fmt msg) Q w.
Proof. exact id. Qed.

Lemma wp_CHECK (cond : bool) msg Q w :
  (if cond then Q (Ok tt) w
   else Q (Throw (failure_fmt (msg (w_errno w)))) w) ->
  wp (CHECK cond msg) Q w.
Proof. destruct cond; exact id. Qed.

Lemma wp_syscall c Q w : Q (Ok (answer w c)) (logged w c) -> wp (syscall c) Q w.
Proof. exact id. Qed.

Lemma wp_sys_status c Q w :
  (if r_ret (answer w c) =? 0 then Q (Ok 0) (logged w c)
   else Q (Ok (-1)) (set_errno (logged w c) (r_errno (answer w c)))) ->
  wp (sys_status c) Q w.
Proof.
  unfold wp, sys_status, bind, syscall, fails, modify, ret. fold (answer w c).
  fold (logged w c). destruct (r_ret (answer w c) =? 0); exact id.
Qed.

Lemma wp_sys_value c Q w :
  (if r_ret (answer w c) <? 0
   then Q (Ok (-1)) (set_errno (logged w c) (r_errno (answer w c)))
   else Q (Ok (r_ret (answer w c))) (logged w c)) ->
  wp (sys_value c) Q w.
Proof.
  unfold wp, sys_value, bind, syscall, fails, modify, ret. fold (answer w c).
  fold (logged w c). destruct (r_ret (answer w c) <? 0); exact id.
Qed.

Lemma wp_load {A} (heap : World -> list A) p Q w :
  match heap w !! p with
  | Some v => Q (Ok v) w
  | None => Q (Halt Crashed) w
  end ->
  wp (load heap p) Q w.
Proof. unfold wp, load. destruct (heap w !! p); exact id. Qed.

Lemma wp_store {A} (heap : World -> list A) set p v Q w :
  match heap w !! p with
  | Some _ => Q (Ok tt) (set w (<[p := v]> (heap w)))
  | None => Q (Halt Crashed) w
  end ->
  wp (store heap set p v) Q w.
Proof. unfold wp, store. destruct (heap w !! p); exact id. Qed.

Lemma wp_alloc {A} (heap : World -> list A) set v Q w :
  Q (Ok (length (heap w))) (set w (heap w ++ [v])) -> wp (alloc heap set v) Q w.
Proof. exact id. Qed.

Lemma wp_deref {A} (p : option A) Q w :
  match p with Some q => Q (Ok q) w | None => Q (Halt Crashed) w end ->
  wp (deref p) Q w.
Proof. destruct p; exact id. Qed.

Lemma calls_app t1 t2 : calls (t1 ++ t2) = calls t1 ++ calls t2.
Proof. apply map_app. Qed.

(** * Properties of [failure] *)

Lemma c_str_terminated (t : list ascii) (rest : cbuf) :
  c_str ((Some <$> t) ++ Some NUL :: rest)
  = Some (until_nul (string_of_list_ascii t)).
Proof.
  induction t as [|c t IH]; [reflexivity|].
  rewrite fmap_cons. cbn [app c_str string_of_list_ascii until_nul].
  destruct (Ascii.eqb c NUL); [reflexivity|].
  rewrite IH. reflexivity.
Qed.

Lemma take_prefix_n (n : nat) (s : string) :
  string_of_list_ascii (take n (list_ascii_of_string s)) = prefix_n n s.
Proof.
  revert s; induction n as [|n IH]; intros [|c s]; simpl; try reflexivity.
  now rewrite IH.
Qed.

Lemma length_prefix_n (n : nat) (s : string) :
  (String.length (prefix_n n s) <= n)%nat.
Proof.
  revert s; induction n as [|n IH]; intros [|c s]; simpl; try lia.
  specialize (IH s). lia.
Qed.

Lemma length_until_nul (s : string) :
  (String.length (until_nul s) <= String.length s)%nat.
Proof.
  induction s as [|c s IH]; simpl; [lia|].
  destruct (Ascii.eqb c NUL); simpl; lia.
Qed.

Lemma poke_uninit (n : nat) (cs : list ascii) :
  poke (uninit n) cs = (Some <$> cs) ++ replicate (n - length cs) None.
Proof. unfold poke, uninit. now rewrite drop_replicate. Qed.

Lemma failure_fmt_buffer (s : string) :
  let t := take 254 (list_ascii_of_string s) in
  m_err (failure_fmt s)
  = (Some <$> t) ++ Some NUL
      :: <[(254 - length t)%nat := Some NUL]> (replicate (255 - length t) None).
Proof.
  intros t. unfold failure_fmt, vsnprintf. cbn [m_err]. fold t.
  assert (Hlen : (length t <= 254)%nat) by (unfold t; rewrite length_take; lia).
  rewrite poke_uninit, fmap_app, <- app_assoc, length_app.
  cbn [fmap list_fmap app length].
  rewrite insert_app_r_alt by (rewrite length_fmap; lia).
  rewrite length_fmap.
  replace (255 - length t)%nat with (S (254 - length t)) by lia.
  replace (256 - (length t + 1))%nat with (S (254 - length t)) by lia.
  reflexivity.
Qed.

Lemma length_poke (buf : cbuf) (cs : list ascii) :
  (length cs <= length buf)%nat -> length (poke buf cs) = length buf.
Proof.
  intros H. unfold poke. rewrite length_app, length_fmap, length_drop. lia.
Qed.

(** C10: every [failure] keeps its message in the 256-byte array [m_err].
    For any expansion [s] of the format and its arguments, the constructor
    leaves a null byte at index 255 and a message that is null-terminated,
    at most 255 characters long, and equal to the first 254 characters of
    [s] (up to a null byte in them): what is longer is cut off without
    notice.  The text a child relays over the error pipe was built by this
    constructor in the child, and the parent reads at most 256 bytes of it
    into the same array. *)
Theorem failure_message_bounded (s : string) :
  length (m_err (failure_fmt s)) = 256%nat
  /\ m_err (failure_fmt s) !! 255%nat = Some (Some NUL)
  /\ what (failure_fmt s) = Some (until_nul (prefix_n 254 s))
  /\ (String.length (until_nul (prefix_n 254 s)) <= 255)%nat
  /\ (forall rd : Resp,
        (length (relayed rd) <= 256)%nat
        /\ length (poke (m_err failure_default) (relayed rd)) = 256%nat).
Proof.
  pose proof (failure_fmt_buffer s) as Hb. cbv zeta in Hb.
  set (t := take 254 (list_ascii_of_string s)) in *.
  assert (Hlen : (length t <= 254)%nat) by (unfold t; rewrite length_take; lia).
  repeat split.
  - rewrite Hb, length_app, length_fmap. simpl.
    rewrite length_insert, length_replicate. lia.
  - rewrite Hb.
    rewrite lookup_app_r by (rewrite length_fmap; lia).
    rewrite length_fmap.
    replace (255 - length t)%nat with (S (254 - length t)) at 1 by lia.
    cbn [lookup list_lookup]. apply list_lookup_insert_eq.
    rewrite length_replicate. lia.
  - unfold what. rewrite Hb, c_str_terminated. unfold t.
    now rewrite take_prefix_n.
  - pose proof (length_until_nul (prefix_n 254 s)).
    pose proof (length_prefix_n 254 s). lia.
  - unfold relayed. rewrite length_take. lia.
  - assert (Hd : length (m_err failure_default) = 256%nat).
    { unfold failure_default. cbn [m_err]. rewrite length_insert.
      apply length_replicate. }
    rewrite length_poke; [exact Hd|].
    rewrite Hd. unfold relayed. rewrite length_take. lia.
Qed.

(** * File::open on a named path wanted for reading and writing *)

Lemma rw_open_flags_accmode append :
  Z.land (rw_open_flags append) O_ACCMODE = O_WRONLY.
Proof. destruct append; reflexivity. Qed.

Lemma wp_FD_new fd Q w :
  Q (Ok (length (h_fd w))) (set_h_fd w (h_fd w ++ [fd])) -> wp (FD_new fd) Q w.
Proof. exact id. Qed.

Lemma wp_FD_reset_fresh p newFD Q w :
  h_fd w !! p = Some (-1) ->
  Q (Ok tt) (set_h_fd w (<[p := newFD]> (h_fd w))) ->
  wp (FD_reset p newFD) Q w.
Proof.
  intros Hp HQ. unfold FD_reset, FD_m_fd. apply wp_bind, wp_load. rewrite Hp.
  cbn [Z.eqb negb]. apply wp_bind, wp_ret, wp_store. now rewrite Hp.
Qed.


(** [setCloseOnExec] makes [fcntl] calls only and touches no object. *)
Lemma FD_setCloseOnExec_calls p w :
  wp (FD_setCloseOnExec p)
     (fun _ w' => exists cs,
        calls (w_trace w') = calls (w_trace w) ++ cs
        /\ forallb is_fcntl cs = true
        /\ h_file w' = h_file w /\ h_fd w' = h_fd w) w.
Proof.
  unfold FD_setCloseOnExec, FD_m_fd, fcntl. apply wp_bind, wp_load.
  destruct (h_fd w !! p) as [fd|];
    [|exists []; rewrite app_nil_r; repeat split].
  apply wp_bind, wp_sys_value.
  destruct (r_ret _ <? 0).
  - apply wp_bind, wp_CHECK. cbn [Z.geb Z.compare].
    eexists [_]. unfold logged. cbn [set_errno set_kernel_view w_trace h_file h_fd].
    rewrite calls_app. repeat split.
  - apply wp_bind, wp_CHECK.
    destruct (r_ret _ >=? 0).
    + apply wp_bind, wp_sys_value.
      destruct (r_ret _ <? 0); apply wp_CHECK;
        (destruct (_ >=? 0); eexists [_; _]; unfold logged;
         cbn [set_errno set_kernel_view w_trace h_file h_fd];
         rewrite !calls_app, <- app_assoc; repeat split).
    + eexists [_]. unfold logged.
      cbn [set_errno set_kernel_view w_trace h_file h_fd].
      rewrite calls_app. repeat split.
Qed.

(** Rules for a postcondition that does not depend on the result. *)
Lemma wp_bind_inv {A B} (m : M A) (k : A -> M B) (P Q : World -> Prop) w :
  wp m (fun _ w1 => P w1) w ->
  (forall w1, P w1 -> Q w1) ->
  (forall a w1, P w1 -> wp (k a) (fun _ w2 => Q w2) w1) ->
  wp (bind m k) (fun _ w2 => Q w2) w.
Proof.
  intros Hm HPQ Hk. apply wp_bind. eapply wp_mono; [exact Hm|].
  intros [a|f|h|] w1 H; cbn; auto.
Qed.

Lemma wp_finally_inv {A} (body : M A) dtor (P Q : World -> Prop) w :
  wp body (fun _ w1 => P w1) w ->
  (forall w1, P w1 -> Q w1) ->
  (forall u w1, P w1 -> wp (dtor u) (fun _ w2 => Q w2) w1) ->
  wp (finally body dtor) (fun _ w2 => Q w2) w.
Proof.
  intros Hb HPQ Hd. apply wp_finally. eapply wp_mono; [exact Hb|].
  intros [a|f|h|] w1 H; cbn; auto.
  - eapply wp_mono; [apply (Hd false w1 H)|]. intros [[]| | |]; auto.
  - eapply wp_mono; [apply (Hd true w1 H)|]. intros [[]| | |]; auto.
Qed.

Lemma inv_setCloseOnExec base self fd w :
  opened_both_sides base self fd w ->
  wp (FD_setCloseOnExec fd) (fun _ w' => opened_both_sides base self fd w') w.
Proof.
  intros (rest & F' & T & R & L & S1 & S2).
  eapply wp_mono; [apply FD_setCloseOnExec_calls|].
  intros _ w' (cs & T' & R' & L' & _). exists (rest ++ cs), F'.
  rewrite T', T, <- app_assoc, forallb_app, R, R', L'. auto.
Qed.

Lemma inv_release_local base self fd w :
  opened_both_sides base self fd w ->
  wp (FDPtr_release_local fd self)
     (fun _ w' => opened_both_sides base self fd w') w.
Proof.
  intros H. pose proof H as (rest & F' & T & R & L & S1 & S2).
  unfold FDPtr_release_local, load_file. apply wp_bind, wp_load. rewrite L.
  rewrite S1, bool_decide_eq_true_2 by reflexivity. exact H.
Qed.

Lemma inv_FD_reset_fresh base self fd d w :
  h_fd w !! fd = Some (-1) ->
  opened_both_sides base self fd w ->
  wp (FD_reset fd d) (fun _ w' => opened_both_sides base self fd w') w.
Proof. intros Hfd H. apply wp_FD_reset_fresh; assumption. Qed.

Lemma inv_FD_isOk base self fd w :
  opened_both_sides base self fd w ->
  wp (FD_isOk fd) (fun _ w' => opened_both_sides base self fd w') w.
Proof.
  intros H. unfold FD_isOk, FD_m_fd. apply wp_bind, wp_load.
  destruct (h_fd w !! fd); exact H.
Qed.

(** C1 (not met by the code): for a named path wanted for both reading
    and writing, [File::open] does open the path exactly once (the other
    calls it makes are [fcntl]s) and does install that one FD object as
    both the read side and the write side; but the flags of the [open] are
    O_RDONLY|O_CREAT|O_WRONLY (and O_APPEND when appending), whose access
    mode is O_WRONLY, not O_RDWR. *)
Theorem File_open_rw_is_write_only (w : World) (self : ptr) (F : File.t)
    (spec : file_spec.t) :
  h_file w !! self = Some F ->
  h_file_spec w !! File.m_spec F = Some spec ->
  is_named_path (file_spec.m_filename spec) = true ->
  File.m_wantRead F = true ->
  File.m_wantWrite F = true ->
  exists rest F',
    calls (w_trace (snd (File_open self w)))
    = calls (w_trace w)
      ++ sys_open (file_spec.m_filename spec)
           (rw_open_flags (File.m_append F)) mode_0666 :: rest
    /\ forallb is_fcntl rest = true
    /\ Z.land (rw_open_flags (File.m_append F)) O_ACCMODE = O_WRONLY
    /\ Z.land (rw_open_flags (File.m_append F)) O_ACCMODE <> O_RDWR
    /\ h_file (snd (File_open self w)) !! self = Some F'
    /\ File.m_readSide F' = Some (length (h_fd w))
    /\ File.m_writeSide F' = Some (length (h_fd w)).
Proof.
  intros HF Hspec Hname Hr Hw.
  unfold is_named_path in Hname.
  apply andb_prop in Hname as [Hname H3]. apply andb_prop in Hname as [Hname H2].
  apply andb_prop in Hname as [H0 H1].
  apply negb_true_iff in H0, H1, H2, H3.
  set (fd := length (h_fd w)).
  set (flags := rw_open_flags (File.m_append F)).
  set (name := file_spec.m_filename spec) in *.
  enough (H : wp (File_open self)
    (fun _ w' => exists rest F',
       calls (w_trace w') = calls (w_trace w) ++ sys_open name flags mode_0666 :: rest
       /\ forallb is_fcntl rest = true
       /\ h_file w' !! self = Some F'
       /\ File.m_readSide F' = Some fd /\ File.m_writeSide F' = Some fd) w).
  { destruct H as (rest & F' & T & R & L & S1 & S2). exists rest, F'.
    repeat split; try assumption.
    - apply rw_open_flags_accmode.
    - unfold flags. rewrite rw_open_flags_accmode. discriminate. }
  unfold File_open.
  apply wp_bind, wp_load. rewrite HF.
  apply wp_bind, wp_load. rewrite Hspec. fold name. rewrite H0.
  apply wp_bind, wp_FD_new. fold fd.
  rewrite H1, H2, H3, Hr, Hw. cbn [andb].
  assert (Hfd : (h_fd w ++ [-1]) !! fd = Some (-1))
    by (apply list_lookup_middle; reflexivity).
  assert (Hlen : (self < length (h_file w))%nat)
    by (eapply lookup_lt_Some; eassumption).
  set (base := calls (w_trace w) ++ [sys_open name flags mode_0666]).
  eapply wp_mono with (Q := fun _ w' => opened_both_sides base self fd w').
  2:{ intros _ w' (rest & F' & T & R & L & S). exists rest, F'.
      unfold base in T. rewrite <- app_assoc in T. auto. }
  apply wp_finally_inv with (P := opened_both_sides base self fd);
    [| auto | intros; apply inv_release_local; assumption].
  apply wp_bind_inv with (P := opened_both_sides base self fd);
    [| auto | intros; apply inv_setCloseOnExec; assumption].
  apply wp_bind, wp_store. cbn [set_h_fd h_file]. rewrite HF.
  unfold open. apply wp_bind, wp_sys_value.
  set (F2 := File.set_writeSide (File.set_readSide F (Some fd)) (Some fd)).
  set (w0 := set_h_file (set_h_fd w (h_fd w ++ [-1])) (<[self:=F2]> (h_file w))).
  assert (Hinv : forall w',
            w_trace w' = w_trace (logged w0 (sys_open name flags mode_0666)) ->
            h_file w' = h_file w0 ->
            opened_both_sides base self fd w').
  { intros w' Ht Hh. exists [], F2. rewrite Ht, Hh. unfold logged, w0, base.
    cbn [set_kernel_view w_trace h_file set_h_file set_h_fd].
    rewrite calls_app, app_nil_r. repeat split.
    now apply list_lookup_insert_eq. }
  assert (Hflags : (if File.m_append F
                    then Z.lor (Z.lor (Z.lor 0 O_RDONLY) (Z.lor O_CREAT O_WRONLY))
                           O_APPEND
                    else Z.lor (Z.lor 0 O_RDONLY) (Z.lor O_CREAT O_WRONLY))
                   = flags) by reflexivity.
  rewrite Hflags.
  destruct (r_ret _ <? 0).
  - apply wp_bind_inv with (P := opened_both_sides base self fd); [|auto|].
    + apply inv_FD_reset_fresh; [exact Hfd | apply Hinv; reflexivity].
    + intros _ w1 H1'.
      apply wp_bind_inv with (P := opened_both_sides base self fd); [|auto|].
      * now apply inv_FD_isOk.
      * intros ok w2 H2'. apply wp_CHECK. now destruct ok.
  - apply wp_bind_inv with (P := opened_both_sides base self fd); [|auto|].
    + apply inv_FD_reset_fresh; [exact Hfd | apply Hinv; reflexivity].
    + intros _ w1 H1'.
      apply wp_bind_inv with (P := opened_both_sides base self fd); [|auto|].
      * now apply inv_FD_isOk.
      * intros ok w2 H2'. apply wp_CHECK. now destruct ok.
Qed.

Lemma File_open_rw_is_write_only_witness :
  exists rest F',
    calls (w_trace (snd (File_open 0%nat world_rw_file)))
    = calls (w_trace world_rw_file)
      ++ sys_open "/tmp/f" (rw_open_flags false) mode_0666 :: rest
    /\ forallb is_fcntl rest = true
    /\ Z.land (rw_open_flags false) O_ACCMODE = O_WRONLY
    /\ Z.land (rw_open_flags false) O_ACCMODE <> O_RDWR
    /\ h_file (snd (File_open 0%nat world_rw_file)) !! 0%nat = Some F'
    /\ File.m_readSide F' = Some 0%nat
    /\ File.m_writeSide F' = Some 0%nat.
Proof.
  apply (File_open_rw_is_write_only world_rw_file 0%nat
           {| File.m_spec := 0%nat; File.m_append := false;
              File.m_wantRead := true; File.m_wantWrite := true;
              File.m_readSide := None; File.m_writeSide := None |}
           {| file_spec.m_filename := "/tmp/f"; file_spec.m_append := false |});
    reflexivity.
Defined.

(** * safe_fork_exec: the parent's side of the error pipe *)


Lemma wp_read fd buf count Q w :
  (let r := answer w (sys_read fd (Z.of_nat count)) in
   if r_ret r <? 0
   then Q (Ok (-1, buf))
          (set_errno (logged w (sys_read fd (Z.of_nat count))) (r_errno r))
   else Q (Ok (Z.of_nat (length (take count (list_ascii_of_string (r_data r)))),
               poke buf (take count (list_ascii_of_string (r_data r)))))
          (logged w (sys_read fd (Z.of_nat count)))) ->
  wp (read fd buf count) Q w.
Proof.
  unfold wp, read, bind, syscall, fails, modify, ret.
  fold (answer w (sys_read fd (Z.of_nat count))).
  fold (logged w (sys_read fd (Z.of_nat count))). cbv zeta.
  destruct (r_ret _ <? 0); exact id.
Qed.

Lemma wp_waitpid pid options Q w :
  (let r := answer w (sys_waitpid pid options) in
   if r_ret r <? 0
   then Q (Ok (-1, 0))
          (set_errno (logged w (sys_waitpid pid options)) (r_errno r))
   else Q (Ok (r_ret r, nth 0 (r_aux r) 0)) (logged w (sys_waitpid pid options))) ->
  wp (waitpid pid options) Q w.
Proof.
  unfold wp, waitpid, bind, syscall, fails, modify, ret.
  fold (answer w (sys_waitpid pid options)).
  fold (logged w (sys_waitpid pid options)). cbv zeta.
  destruct (r_ret _ <? 0); exact id.
Qed.




(** The same code when the child could not exec: its message comes back
    as the failure, the child is signalled and reaped, no pid is
    recorded. *)
Example safe_fork_exec_relays_child_failure :
  let run := safe_fork_exec_guarded (Proc.make 0) ["/does/not/exist"%string]
               100 0%nat 1%nat (world_forked kernel_exec_fails) in
  (exists f, fst run = Throw f
     /\ take 56 (m_err f)
        = Some <$> list_ascii_of_string
            "execvp /does/not/exist failed: No such file or directory")
  /\ calls (w_trace (snd run))
     = [sys_close 4; sys_read 3 256; sys_kill 100 SIGTERM; sys_waitpid 100 0]
  /\ h_proc_spec (snd run) = [proc_cat].
Proof.
  split; [eexists; split; [vm_compute; reflexivity|vm_compute; reflexivity]|].
  split; vm_compute; reflexivity.
Qed.

(** The whole of [safe_fork_exec] on the two scenarios: the error pipe is
    created close-on-exec, its write side non-blocking, before the fork;
    its read side is closed when the function is left. *)
Example safe_fork_exec_success_run :
  let run := safe_fork_exec (Proc.make 0) (world_before_fork kernel_ok) in
  fst run = Ok 100
  /\ calls (w_trace (snd run))
     = [sys_pipe;
        sys_fcntl 3 F_GETFD 0; sys_fcntl 3 F_SETFD FD_CLOEXEC;
        sys_fcntl 4 F_GETFD 0; sys_fcntl 4 F_SETFD FD_CLOEXEC;
        sys_fcntl 4 F_GETFL 0; sys_fcntl 4 F_SETFL O_NONBLOCK;
        sys_fork; sys_close 4; sys_read 3 256; sys_close 3]
  /\ h_proc_spec (snd run) = [daemon_proc_spec.set_pid proc_cat 100].
Proof. vm_compute. repeat split. Qed.

Example safe_fork_exec_failure_run :
  let run := safe_fork_exec (Proc.make 0) (world_before_fork kernel_exec_fails) in
  what_failure (fst run)
  = Some (list_ascii_of_string
            "execvp /does/not/exist failed: No such file or directory")
  /\ calls (w_trace (snd run))
     = [sys_pipe;
        sys_fcntl 3 F_GETFD 0; sys_fcntl 3 F_SETFD FD_CLOEXEC;
        sys_fcntl 4 F_GETFD 0; sys_fcntl 4 F_SETFD FD_CLOEXEC;
        sys_fcntl 4 F_GETFL 0; sys_fcntl 4 F_SETFL O_NONBLOCK;
        sys_fork; sys_close 4; sys_read 3 256;
        sys_kill 100 SIGTERM; sys_waitpid 100 0; sys_close 3]
  /\ h_proc_spec (snd run) = [proc_cat].
Proof. vm_compute. repeat split. Qed.

(** * The helper: the [--init.d] form *)

Lemma bind_ok {A B} (m : M A) (k : A -> M B) w a w1 :
  m w = (Ok a, w1) -> bind m k w = k a w1.
Proof. unfold bind. now intros ->. Qed.

Lemma sys_status_ok c w :
  r_ret (answer w c) = 0 -> sys_status c w = (Ok 0, logged w c).
Proof.
  intros H. unfold sys_status, bind, syscall. fold (answer w c).
  now rewrite H.
Qed.

Lemma rfind_mount_path (t : string) :
  exists i, rfind_char "/" (WITH_MOUNTPOINT +:+ "/" +:+ t) = Some i.
Proof.
  change (WITH_MOUNTPOINT +:+ "/" +:+ t)
    with (String "/" ("with" +:+ "/" +:+ t)).
  cbn [rfind_char].
  destruct (rfind_char "/" ("with" +:+ "/" +:+ t)); eauto.
Qed.

Lemma mkdir_p_ok dir mode w :
  r_ret (answer w (sys_mkdir dir mode)) = 0 ->
  mkdir_p dir mode w = (Ok 0, logged w (sys_mkdir dir mode)).
Proof.
  intros H. unfold mkdir_p.
  destruct (String.length dir); cbn [mkdir_p_rec]; unfold mkdir;
    rewrite (bind_ok _ _ _ _ _ (sys_status_ok _ _ H)); reflexivity.
Qed.












(** * LockFile *)

Lemma sys_status_fail c w :
  r_ret (answer w c) <> 0 ->
  sys_status c w = (Ok (-1), set_errno (logged w c) (r_errno (answer w c))).
Proof.
  intros H. unfold sys_status, bind, syscall. fold (answer w c).
  apply Z.eqb_neq in H. now rewrite H.
Qed.

Lemma sys_value_ok c w :
  0 <= r_ret (answer w c) ->
  sys_value c w = (Ok (r_ret (answer w c)), logged w c).
Proof.
  intros H. unfold sys_value, bind, syscall. fold (answer w c).
  destruct (Z.ltb_spec (r_ret (answer w c)) 0); [lia|reflexivity].
Qed.

Lemma FD_reset_fresh_run p d w :
  h_fd w !! p = Some (-1) ->
  FD_reset p d w = (Ok tt, set_h_fd w (<[p := d]> (h_fd w))).
Proof.
  intros H. unfold FD_reset, FD_m_fd. unfold bind at 1. unfold load at 1.
  rewrite H, Z.eqb_refl. cbn [negb]. unfold bind, ret, store. now rewrite H.
Qed.

Lemma FD_reset_close_run p fd d w :
  h_fd w !! p = Some fd -> fd <> -1 ->
  r_ret (answer w (sys_close fd)) = 0 ->
  FD_reset p d w
  = (Ok tt, set_h_fd (logged w (sys_close fd)) (<[p := d]> (h_fd w))).
Proof.
  intros H Hfd Hc. unfold FD_reset, FD_m_fd, close.
  unfold bind at 1. unfold load at 1. rewrite H.
  apply Z.eqb_neq in Hfd. rewrite Hfd. cbn [negb].
  rewrite (bind_ok _ _ _ _ _ (bind_ok _ _ _ _ _ (sys_status_ok _ _ Hc))).
  cbn [Z.eqb CHECK ret]. unfold store. cbn [logged set_kernel_view h_fd].
  now rewrite H.
Qed.

Lemma FD_isOk_run p fd w :
  h_fd w !! p = Some fd -> FD_isOk p w = (Ok (negb (fd =? -1)), w).
Proof. intros H. unfold FD_isOk, FD_m_fd, bind, load. now rewrite H. Qed.

Lemma FD_get_run p fd w :
  h_fd w !! p = Some fd -> fd <> -1 -> FD_get p w = (Ok fd, w).
Proof.
  intros H Hfd. unfold FD_get. rewrite (bind_ok _ _ _ _ _ (FD_isOk_run _ _ _ H)).
  apply Z.eqb_neq in Hfd. rewrite Hfd. cbn [negb]. unfold FD_m_fd, load.
  now rewrite H.
Qed.

Lemma FD_setCloseOnExec_run p fd flags w :
  h_fd w !! p = Some fd ->
  r_ret (answer w (sys_fcntl fd F_GETFD 0)) = flags -> 0 <= flags ->
  0 <= r_ret (answer (logged w (sys_fcntl fd F_GETFD 0))
                (sys_fcntl fd F_SETFD (Z.lor flags FD_CLOEXEC))) ->
  FD_setCloseOnExec p w
  = (Ok tt, logged (logged w (sys_fcntl fd F_GETFD 0))
              (sys_fcntl fd F_SETFD (Z.lor flags FD_CLOEXEC))).
Proof.
  intros H Hg Hf Hs. unfold FD_setCloseOnExec, FD_m_fd, fcntl.
  unfold bind at 1. unfold load at 1. rewrite H.
  assert (Hg' : 0 <= r_ret (answer w (sys_fcntl fd F_GETFD 0)))
    by (rewrite Hg; exact Hf).
  rewrite (bind_ok _ _ _ _ _ (sys_value_ok _ _ Hg')).
  rewrite Hg. destruct (Z.geb_spec flags 0); [|lia]. cbn [CHECK].
  unfold ret at 1. unfold bind at 1.
  rewrite (bind_ok _ _ _ _ _ (sys_value_ok _ _ Hs)).
  destruct (Z.geb_spec (r_ret (answer (logged w (sys_fcntl fd F_GETFD 0))
              (sys_fcntl fd F_SETFD (Z.lor flags FD_CLOEXEC)))) 0); [|lia].
  reflexivity.
Qed.

Lemma suffix_from_all (s : string) : suffix_from (String.length s) s = EmptyString.
Proof. induction s; cbn; auto. Qed.

Lemma writeN_complete fd buf w :
  buf <> EmptyString ->
  r_ret (answer w (sys_write fd buf)) = Z.of_nat (String.length buf) ->
  writeN fd buf w = (Ok 0, logged w (sys_write fd buf)).
Proof.
  intros Hne Hw. unfold writeN.
  destruct buf as [|c buf]; [congruence|].
  cbn [String.length writeN_loop Nat.eqb]. unfold write.
  assert (Hw' : 0 <= r_ret (answer w (sys_write fd (String c buf))))
    by (rewrite Hw; lia).
  rewrite (bind_ok _ _ _ _ _ (sys_value_ok _ _ Hw')).
  rewrite Hw. destruct (Z.leb_spec (Z.of_nat (String.length (String c buf))) 0);
    [cbn [String.length] in *; lia|].
  rewrite Nat2Z.id, suffix_from_all.
  destruct (String.length buf); reflexivity.
Qed.

Lemma calls_logged w c : calls (w_trace (logged w c)) = calls (w_trace w) ++ [c].
Proof. unfold logged. cbn [w_trace set_kernel_view]. apply calls_app. Qed.

Lemma trace_set_errno w e : w_trace (set_errno w e) = w_trace w.
Proof. reflexivity. Qed.

Lemma trace_set_h_fd w l : w_trace (set_h_fd w l) = w_trace w.
Proof. reflexivity. Qed.

Lemma append_nl_nonempty (s : string) : s +:+ nl <> EmptyString.
Proof. destruct s; discriminate. Qed.

Section LockFile_protocol.

Variables (w : World) (m_fd : ptr) (file : string).
Variables (fd fdflags pid : Z) (locked : Resp).

Hypothesis fresh : h_fd w !! m_fd = Some (-1).
Hypothesis fd_valid : 0 <= fd.
Hypothesis fdflags_valid : 0 <= fdflags.

(** What the kernel answers to the calls of the LockFile. *)
Hypothesis open_answer : forall h,
  r_ret (w_kernel w h (sys_open file (Z.lor O_CREAT O_RDWR) mode_0666)) = fd.
Hypothesis getfd_answer : forall h,
  r_ret (w_kernel w h (sys_fcntl fd F_GETFD 0)) = fdflags.
Hypothesis setfd_answer : forall h,
  0 <= r_ret (w_kernel w h (sys_fcntl fd F_SETFD (Z.lor fdflags FD_CLOEXEC))).
Hypothesis flock_answer : forall h,
  w_kernel w h (sys_flock fd (Z.lor LOCK_EX LOCK_NB)) = locked.
Hypothesis close_answer : forall h, r_ret (w_kernel w h (sys_close fd)) = 0.
Hypothesis ftruncate_answer : forall h,
  r_ret (w_kernel w h (sys_ftruncate fd 0)) = 0.
Hypothesis getpid_answer : forall h, r_ret (w_kernel w h sys_getpid) = pid.
Hypothesis write_answer : forall h buf,
  r_ret (w_kernel w h (sys_write fd buf)) = Z.of_nat (String.length buf).

(** The world once the file is open, close-on-exec, and about to be
    locked. *)
Local Abbreviation w_open := (world_lock_opened w m_fd file fd fdflags).

Lemma LockFile_open_locking :
  LockFile_open m_fd file w
  = (let* r := flock fd (Z.lor LOCK_EX LOCK_NB) in
     if negb (r =? 0) then
       let* _ := FD_reset m_fd (-1) in
       let* errno := gets w_errno in
       if errno =? EWOULDBLOCK
       then throw_fmt (fun _ => already_running_msg file)
       else throw_fmt (fun _ => unable_to_lock_msg file)
     else
       let* fd := FD_get m_fd in
       let* r := ftruncate fd 0 in
       let* _ := CHECK (r =? 0)
                   (fun e => "unable to truncate lockfile " +:+ file
                             +:+ ": " +:+ strerror e) in
       let* pid := getpid in
       let buf := fmt_d pid +:+ nl in
       let* fd := FD_get m_fd in
       let* r := writeN fd buf in
       CHECK (r =? 0)
         (fun e => "unable to write to lockfile " +:+ file +:+ ": "
                   +:+ strerror e)) w_open.
Proof.
  assert (Hne : fd <> -1) by lia.
  set (c0 := sys_open file (Z.lor O_CREAT O_RDWR) mode_0666).
  set (w0 := set_h_fd (logged w c0) (<[m_fd := fd]> (h_fd w))).
  assert (Hfd : h_fd w0 !! m_fd = Some fd).
  { cbn [w0 h_fd set_h_fd]. apply list_lookup_insert_eq.
    eapply lookup_lt_Some; exact fresh. }
  unfold LockFile_open, open.
  assert (H0 : 0 <= r_ret (answer w c0))
    by (unfold answer; rewrite open_answer; exact fd_valid).
  rewrite (bind_ok _ _ _ _ _ (sys_value_ok _ _ H0)).
  unfold answer at 1. rewrite open_answer.
  rewrite (bind_ok _ _ _ _ _
             (FD_reset_fresh_run m_fd fd (logged w c0) fresh)).
  fold w0.
  rewrite (bind_ok _ _ _ _ _ (FD_isOk_run _ _ _ Hfd)).
  apply Z.eqb_neq in Hne. rewrite Hne. cbn [negb CHECK].
  unfold ret at 1. unfold bind at 1.
  rewrite (bind_ok _ _ _ _ _
             (FD_setCloseOnExec_run m_fd fd fdflags w0 Hfd
                (getfd_answer _) fdflags_valid (setfd_answer _))).
  change (logged (logged w0 (sys_fcntl fd F_GETFD 0))
            (sys_fcntl fd F_SETFD (Z.lor fdflags FD_CLOEXEC))) with w_open.
  apply Z.eqb_neq in Hne.
  assert (Hfd1 : h_fd w_open !! m_fd = Some fd) by exact Hfd.
  rewrite (bind_ok _ _ _ _ _ (FD_get_run _ _ _ Hfd1 Hne)).
  reflexivity.
Qed.

Lemma w_open_facts :
  w_kernel w_open = w_kernel w
  /\ h_fd w_open !! m_fd = Some fd
  /\ calls (w_trace w_open)
     = calls (w_trace w)
       ++ [sys_open file (Z.lor O_CREAT O_RDWR) mode_0666;
           sys_fcntl fd F_GETFD 0;
           sys_fcntl fd F_SETFD (Z.lor fdflags FD_CLOEXEC)].
Proof.
  split; [reflexivity|]. split.
  - cbn [world_lock_opened logged set_kernel_view h_fd set_h_fd].
    apply list_lookup_insert_eq. eapply lookup_lt_Some; exact fresh.
  - unfold world_lock_opened. rewrite !calls_logged. cbn [set_h_fd w_trace].
    rewrite calls_logged, <- !app_assoc. reflexivity.
Qed.

Lemma LockFile_dtor_held (w2 : World) :
  w_kernel w2 = w_kernel w ->
  h_fd w2 !! m_fd = Some fd ->
  fst (LockFile_dtor m_fd w2) = Ok tt
  /\ calls (w_trace (snd (LockFile_dtor m_fd w2)))
     = calls (w_trace w2) ++ [sys_ftruncate fd 0; sys_close fd]
  /\ h_fd (snd (LockFile_dtor m_fd w2)) !! m_fd = Some (-1).
Proof.
  intros Hk Hfd.
  assert (Hne : fd <> -1) by lia.
  assert (Hlen : (m_fd < length (h_fd w2))%nat)
    by (eapply lookup_lt_Some; exact Hfd).
  set (w3 := logged w2 (sys_ftruncate fd 0)).
  set (w4 := set_h_fd (logged w3 (sys_close fd)) (<[m_fd := -1]> (h_fd w3))).
  assert (Hbody :
    (let* ok := FD_isOk m_fd in
     if ok then
       let* fd := FD_get m_fd in
       let* _ := ftruncate fd 0 in
       FD_reset m_fd (-1)
     else ret tt) w2 = (Ok tt, w4)).
  { rewrite (bind_ok _ _ _ _ _ (FD_isOk_run _ _ _ Hfd)).
    apply Z.eqb_neq in Hne. rewrite Hne. cbn [negb]. apply Z.eqb_neq in Hne.
    rewrite (bind_ok _ _ _ _ _ (FD_get_run _ _ _ Hfd Hne)).
    unfold ftruncate.
    assert (Ht : r_ret (answer w2 (sys_ftruncate fd 0)) = 0)
      by (unfold answer; rewrite Hk; apply ftruncate_answer).
    rewrite (bind_ok _ _ _ _ _ (sys_status_ok _ _ Ht)). fold w3.
    apply FD_reset_close_run; [exact Hfd|exact Hne|].
    unfold answer. cbn [w3 logged set_kernel_view w_kernel]. rewrite Hk.
    apply close_answer. }
  assert (Hdtor : FD_dtor m_fd w4 = (Ok tt, w4)).
  { unfold FD_dtor, try_catch. rewrite FD_reset_fresh_run.
    - unfold w4. cbn [set_h_fd h_fd logged set_kernel_view].
      rewrite list_insert_insert_eq. reflexivity.
    - unfold w4. cbn [set_h_fd h_fd logged set_kernel_view].
      now apply list_lookup_insert_eq. }
  unfold LockFile_dtor, finally. rewrite Hbody, Hdtor. cbn [fst snd].
  split; [reflexivity|]. split.
  - unfold w4, w3. cbn [set_h_fd w_trace]. rewrite !calls_logged, <- app_assoc.
    reflexivity.
  - unfold w4, w3. cbn [set_h_fd h_fd logged set_kernel_view].
    now apply list_lookup_insert_eq.
Qed.

(** C4: [LockFile::open] opens the file with O_CREAT|O_RDWR and mode 0666,
    sets close-on-exec, and takes a non-blocking exclusive [flock].  When
    the lock is refused with EWOULDBLOCK it throws the already-running
    failure, whose message carries the path; when it is refused otherwise,
    the generic unable-to-lock failure; either way the descriptor is closed
    first.  When the lock is granted it truncates the file to zero and
    writes the pid and a newline.  The destructor of a LockFile that holds
    the lock truncates the file to zero and closes it, and makes no other
    call: the file is not unlinked. *)
Theorem LockFile_protocol_holds :
  let run := LockFile_open m_fd file w in
  (if r_ret locked =? 0 then
     fst run = Ok tt
     /\ calls (w_trace (snd run))
        = calls (w_trace w) ++ locking_calls file fd fdflags
          ++ [sys_ftruncate fd 0; sys_getpid; sys_write fd (fmt_d pid +:+ nl)]
     /\ h_fd (snd run) !! m_fd = Some fd
   else
     fst run
     = Throw (failure_fmt (if r_errno locked =? EWOULDBLOCK
                           then already_running_msg file
                           else unable_to_lock_msg file))
     /\ calls (w_trace (snd run))
        = calls (w_trace w) ++ locking_calls file fd fdflags ++ [sys_close fd]
     /\ h_fd (snd run) !! m_fd = Some (-1))
  /\ (forall w2,
        w_kernel w2 = w_kernel w ->
        h_fd w2 !! m_fd = Some fd ->
        fst (LockFile_dtor m_fd w2) = Ok tt
        /\ calls (w_trace (snd (LockFile_dtor m_fd w2)))
           = calls (w_trace w2) ++ [sys_ftruncate fd 0; sys_close fd]
        /\ h_fd (snd (LockFile_dtor m_fd w2)) !! m_fd = Some (-1)).
Proof.
  cbv zeta. split; [|exact LockFile_dtor_held].
  destruct w_open_facts as (Hk & Hfd & Ht).
  assert (Hne : fd <> -1) by lia.
  set (cl := sys_flock fd (Z.lor LOCK_EX LOCK_NB)).
  assert (Hl : answer w_open cl = locked)
    by (unfold answer; rewrite Hk; apply flock_answer).
  destruct (r_ret locked =? 0) eqn:Hr.
  - apply Z.eqb_eq in Hr.
    set (w1 := logged w_open cl).
    set (w2 := logged w1 (sys_ftruncate fd 0)).
    set (w3 := logged w2 sys_getpid).
    set (w4 := logged w3 (sys_write fd (fmt_d pid +:+ nl))).
    assert (Hrun : LockFile_open m_fd file w = (Ok tt, w4)).
    { rewrite LockFile_open_locking. unfold flock. fold cl.
      assert (Hl0 : r_ret (answer w_open cl) = 0) by (now rewrite Hl).
      rewrite (bind_ok _ _ _ _ _ (sys_status_ok _ _ Hl0)).
      cbn [Z.eqb negb]. fold w1.
      assert (Hfd1 : h_fd w1 !! m_fd = Some fd) by exact Hfd.
      rewrite (bind_ok _ _ _ _ _ (FD_get_run _ _ _ Hfd1 Hne)).
      unfold ftruncate.
      assert (Ht0 : r_ret (answer w1 (sys_ftruncate fd 0)) = 0)
        by (unfold answer; cbn [w1 logged set_kernel_view w_kernel];
            rewrite Hk; apply ftruncate_answer).
      rewrite (bind_ok _ _ _ _ _ (sys_status_ok _ _ Ht0)).
      cbn [Z.eqb CHECK]. unfold ret at 1. unfold bind at 1. fold w2.
      unfold getpid. unfold bind at 1. unfold bind at 1. cbn [syscall ret].
      fold (answer w2 sys_getpid). fold (logged w2 sys_getpid).
      assert (Hp : r_ret (answer w2 sys_getpid) = pid)
        by (unfold answer; cbn [w2 w1 logged set_kernel_view w_kernel];
            rewrite Hk; apply getpid_answer).
      rewrite Hp. fold w3.
      assert (Hfd3 : h_fd w3 !! m_fd = Some fd) by exact Hfd.
      rewrite (bind_ok _ _ _ _ _ (FD_get_run _ _ _ Hfd3 Hne)).
      assert (Hw : r_ret (answer w3 (sys_write fd (fmt_d pid +:+ nl)))
                   = Z.of_nat (String.length (fmt_d pid +:+ nl)))
        by (unfold answer; cbn [w3 w2 w1 logged set_kernel_view w_kernel];
            rewrite Hk; apply write_answer).
      rewrite (bind_ok _ _ _ _ _
                 (writeN_complete _ _ _ (append_nl_nonempty _) Hw)).
      reflexivity. }
    rewrite Hrun. cbn [fst snd]. split; [reflexivity|]. split; [|exact Hfd].
    unfold w4, w3, w2, w1. rewrite !calls_logged, Ht. unfold locking_calls.
    rewrite <- !app_assoc. reflexivity.
  - apply Z.eqb_neq in Hr.
    set (w1 := set_errno (logged w_open cl) (r_errno locked)).
    set (w2 := set_h_fd (logged w1 (sys_close fd)) (<[m_fd := -1]> (h_fd w1))).
    assert (Hrun : LockFile_open m_fd file w
                   = (Throw (failure_fmt (if r_errno locked =? EWOULDBLOCK
                                          then already_running_msg file
                                          else unable_to_lock_msg file)), w2)).
    { rewrite LockFile_open_locking. unfold flock. fold cl.
      assert (Hl0 : r_ret (answer w_open cl) <> 0) by (now rewrite Hl).
      rewrite (bind_ok _ _ _ _ _ (sys_status_fail _ _ Hl0)). rewrite Hl.
      cbn [Z.eqb negb]. fold w1.
      assert (Hfd1 : h_fd w1 !! m_fd = Some fd) by exact Hfd.
      assert (Hc : r_ret (answer w1 (sys_close fd)) = 0)
        by (unfold answer; cbn [w1 logged set_errno set_kernel_view w_kernel];
            rewrite Hk; apply close_answer).
      rewrite (bind_ok _ _ _ _ _ (FD_reset_close_run _ _ _ _ Hfd1 Hne Hc)).
      fold w2. unfold gets at 1. unfold bind at 1.
      change (w_errno w2) with (r_errno locked).
      destruct (r_errno locked =? EWOULDBLOCK); reflexivity. }
    rewrite Hrun. cbn [fst snd]. split; [reflexivity|]. split.
    + unfold w2. rewrite trace_set_h_fd, calls_logged. unfold w1.
      rewrite trace_set_errno, calls_logged, Ht. unfold locking_calls.
      rewrite <- !app_assoc. reflexivity.
    + unfold w2. cbn [set_h_fd h_fd]. apply list_lookup_insert_eq.
      eapply lookup_lt_Some. exact Hfd.
Qed.

End LockFile_protocol.

Lemma LockFile_protocol_holds_witness :
  let run := LockFile_open 0%nat "/var/run/d.pid"
               (world_lock (kernel_flock (resp_err EWOULDBLOCK))) in
  (fst run = Throw (failure_fmt (already_running_msg "/var/run/d.pid"))
   /\ calls (w_trace (snd run))
      = [] ++ locking_calls "/var/run/d.pid" 5 0 ++ [sys_close 5]
   /\ h_fd (snd run) !! 0%nat = Some (-1))
  /\ (forall w2,
        w_kernel w2 = kernel_flock (resp_err EWOULDBLOCK) ->
        h_fd w2 !! 0%nat = Some 5 ->
        fst (LockFile_dtor 0%nat w2) = Ok tt
        /\ calls (w_trace (snd (LockFile_dtor 0%nat w2)))
           = calls (w_trace w2) ++ [sys_ftruncate 5 0; sys_close 5]
        /\ h_fd (snd (LockFile_dtor 0%nat w2)) !! 0%nat = Some (-1)).
Proof.
  exact (LockFile_protocol_holds
           (world_lock (kernel_flock (resp_err EWOULDBLOCK))) 0%nat
           "/var/run/d.pid" 5 0 42 (resp_err EWOULDBLOCK)
           eq_refl ltac:(lia) ltac:(lia)
           (fun _ => eq_refl) (fun _ => eq_refl) (fun _ => Z.le_refl 0)
           (fun _ => eq_refl) (fun _ => eq_refl) (fun _ => eq_refl)
           (fun _ => eq_refl) (fun _ _ => eq_refl)).
Defined.

(** The lock granted: the pid file is truncated and holds ["42\n"]. *)
Example LockFile_open_writes_pid :
  let run := LockFile_open 0%nat "/var/run/d.pid" (world_lock kernel_ok) in
  fst run = Ok tt
  /\ calls (w_trace (snd run))
     = locking_calls "/var/run/d.pid" 5 0
       ++ [sys_ftruncate 5 0; sys_getpid; sys_write 5 ("42" +:+ nl)]
  /\ h_fd (snd run) = [5].
Proof. vm_compute. repeat split. Qed.

(** * The harvest loop: forwarding signals *)






(** * The signal state is touched by the SignalBlocker only *)

Lemma sig_pure_ret {A} (a : A) : sig_pure (ret a).
Proof. intros w. reflexivity. Qed.

Lemma sig_pure_throw {A} f : sig_pure (@throw A f).
Proof. intros w. reflexivity. Qed.

Lemma sig_pure_halt {A} h : sig_pure (@halt A h).
Proof. intros w. reflexivity. Qed.

Lemma sig_pure_diverge {A} : sig_pure (@diverge A).
Proof. intros w. reflexivity. Qed.

Lemma sig_pure_gets {A} (g : World -> A) : sig_pure (gets g).
Proof. intros w. reflexivity. Qed.

Lemma sig_pure_throw_fmt {A} msg : sig_pure (@throw_fmt A msg).
Proof. intros w. reflexivity. Qed.

Lemma sig_pure_CHECK cond msg : sig_pure (CHECK cond msg).
Proof. intros w. destruct cond; reflexivity. Qed.

Lemma sig_pure_syscall c : sig_pure (syscall c).
Proof. intros w. reflexivity. Qed.

Lemma sig_pure_modify g :
  (forall w, sig_state (g w) = sig_state w) -> sig_pure (modify g).
Proof. intros H w. apply H. Qed.

Lemma sig_pure_bind {A B} (m : M A) (k : A -> M B) :
  sig_pure m -> (forall a, sig_pure (k a)) -> sig_pure (bind m k).
Proof.
  intros Hm Hk w. apply wp_bind. eapply wp_mono; [apply Hm|].
  intros [a|f|h|] w1 H; cbn; try exact H.
  eapply wp_mono; [apply Hk|]. cbn. intros; congruence.
Qed.

Lemma sig_pure_try_catch {A} (body : M A) handler :
  sig_pure body -> (forall f, sig_pure (handler f)) ->
  sig_pure (try_catch body handler).
Proof.
  intros Hb Hh w. apply wp_try_catch. eapply wp_mono; [apply Hb|].
  intros [a|f|h|] w1 H; cbn; try exact H.
  eapply wp_mono; [apply Hh|]. cbn. intros; congruence.
Qed.

Lemma sig_pure_finally {A} (body : M A) dtor :
  sig_pure body -> (forall u, sig_pure (dtor u)) ->
  sig_pure (finally body dtor).
Proof.
  intros Hb Hd w. apply wp_finally. eapply wp_mono; [apply Hb|].
  intros [a|f|h|] w1 H; cbn; try exact H.
  - eapply wp_mono; [apply Hd|]. cbn. intros [[]| | |] ? ?; congruence.
  - eapply wp_mono; [apply Hd|]. cbn. intros [[]| | |] ? ?; congruence.
Qed.

Lemma sig_pure_load {A} (heap : World -> list A) p : sig_pure (load heap p).
Proof. intros w. apply wp_load. destruct (heap w !! p); reflexivity. Qed.

Lemma sig_pure_store {A} (heap : World -> list A) set p v :
  (forall w l, sig_state (set w l) = sig_state w) ->
  sig_pure (store heap set p v).
Proof.
  intros H w. apply wp_store. destruct (heap w !! p); [apply H|reflexivity].
Qed.

Lemma sig_pure_alloc {A} (heap : World -> list A) set v :
  (forall w l, sig_state (set w l) = sig_state w) ->
  sig_pure (alloc heap set v).
Proof. intros H w. apply wp_alloc. apply H. Qed.

Lemma sig_pure_deref {A} (p : option A) : sig_pure (deref p).
Proof. intros w. destruct p; reflexivity. Qed.

Create HintDb sig_pure.

#[local] Hint Resolve sig_pure_ret sig_pure_throw sig_pure_halt sig_pure_diverge
  sig_pure_gets sig_pure_throw_fmt sig_pure_CHECK sig_pure_syscall
  sig_pure_load sig_pure_deref : sig_pure.

(** One step of a proof that a computation is [sig_pure]. *)
Ltac sig_pure_step :=
  first
    [ solve [auto with sig_pure nocore]
    | apply sig_pure_bind; [|intros]
    | apply sig_pure_try_catch; [|intros]
    | apply sig_pure_finally; [|intros]
    | apply sig_pure_modify; intros; reflexivity
    | apply sig_pure_store; intros; reflexivity
    | apply sig_pure_alloc; intros; reflexivity
    | match goal with
      | |- sig_pure (if ?b then _ else _) => destruct b
      | |- sig_pure (match ?x with _ => _ end) => destruct x
      | |- sig_pure (let '(_, _) := ?x in _) => destruct x
      end ].

Ltac sig_pure_tac := repeat sig_pure_step.

Lemma sig_pure_fails r : sig_pure (fails r).
Proof. unfold fails. sig_pure_tac. Qed.
#[local] Hint Resolve sig_pure_fails : sig_pure.

Lemma sig_pure_sys_status c : sig_pure (sys_status c).
Proof. unfold sys_status. sig_pure_tac. Qed.

Lemma sig_pure_sys_value c : sig_pure (sys_value c).
Proof. unfold sys_value. sig_pure_tac. Qed.
#[local] Hint Resolve sig_pure_sys_status sig_pure_sys_value : sig_pure.

Lemma sig_pure_pipe : sig_pure pipe.
Proof. unfold pipe. sig_pure_tac. Qed.

Lemma sig_pure_read fd buf count : sig_pure (read fd buf count).
Proof. unfold read. sig_pure_tac. Qed.

Lemma sig_pure_waitpid pid options : sig_pure (waitpid pid options).
Proof. unfold waitpid. sig_pure_tac. Qed.

Lemma sig_pure_sigwait set : sig_pure (sigwait set).
Proof. unfold sigwait. sig_pure_tac. Qed.

Lemma sig_pure_getpid : sig_pure getpid.
Proof. unfold getpid. sig_pure_tac. Qed.
#[local] Hint Resolve sig_pure_pipe sig_pure_read sig_pure_waitpid
  sig_pure_sigwait sig_pure_getpid : sig_pure.
#[local] Hint Unfold close fcntl dup dup2 open write fork setpgid kill flock
  ftruncate : sig_pure.

Lemma sig_pure_writeN_loop rounds : forall fd buf,
  sig_pure (writeN_loop rounds fd buf).
Proof.
  induction rounds as [|n IH]; intros fd buf; cbn [writeN_loop]; unfold write;
    sig_pure_tac; try apply IH.
Qed.

Lemma sig_pure_writeN fd buf : sig_pure (writeN fd buf).
Proof. apply sig_pure_writeN_loop. Qed.
#[local] Hint Resolve sig_pure_writeN : sig_pure.

(** ** class FD *)

Lemma sig_pure_FD_new fd : sig_pure (FD_new fd).
Proof. unfold FD_new. sig_pure_tac. Qed.

Lemma sig_pure_FD_m_fd p : sig_pure (FD_m_fd p).
Proof. unfold FD_m_fd. sig_pure_tac. Qed.
#[local] Hint Resolve sig_pure_FD_new sig_pure_FD_m_fd : sig_pure.

Lemma sig_pure_FD_isOk p : sig_pure (FD_isOk p).
Proof. unfold FD_isOk. sig_pure_tac. Qed.
#[local] Hint Resolve sig_pure_FD_isOk : sig_pure.

Lemma sig_pure_FD_get p : sig_pure (FD_get p).
Proof. unfold FD_get. sig_pure_tac. Qed.

Lemma sig_pure_FD_reset p fd : sig_pure (FD_reset p fd).
Proof. unfold FD_reset, close. sig_pure_tac. Qed.
#[local] Hint Resolve sig_pure_FD_get sig_pure_FD_reset : sig_pure.

Lemma sig_pure_FD_dtor p : sig_pure (FD_dtor p).
Proof. unfold FD_dtor. sig_pure_tac. Qed.

Lemma sig_pure_FD_setCloseOnExec p : sig_pure (FD_setCloseOnExec p).
Proof. unfold FD_setCloseOnExec, fcntl. sig_pure_tac. Qed.

Lemma sig_pure_FD_setNonBlock p : sig_pure (FD_setNonBlock p).
Proof. unfold FD_setNonBlock, fcntl. sig_pure_tac. Qed.
#[local] Hint Resolve sig_pure_FD_dtor sig_pure_FD_setCloseOnExec
  sig_pure_FD_setNonBlock : sig_pure.

Lemma sig_pure_FD_pipe r w flags : sig_pure (FD_pipe r w flags).
Proof. unfold FD_pipe. sig_pure_tac. Qed.
#[local] Hint Resolve sig_pure_FD_pipe : sig_pure.

(** ** File and FileMap *)

Lemma sig_pure_load_file f : sig_pure (load_file f).
Proof. unfold load_file. sig_pure_tac. Qed.

Lemma sig_pure_store_file f v : sig_pure (store_file f v).
Proof. unfold store_file. sig_pure_tac. Qed.
#[local] Hint Resolve sig_pure_load_file sig_pure_store_file : sig_pure.

Lemma sig_pure_File_new spec : sig_pure (File_new spec).
Proof. unfold File_new. sig_pure_tac. Qed.

Lemma sig_pure_FDPtr_release_local fd self :
  sig_pure (FDPtr_release_local fd self).
Proof. unfold FDPtr_release_local. sig_pure_tac. Qed.
#[local] Hint Resolve sig_pure_File_new sig_pure_FDPtr_release_local : sig_pure.

Lemma sig_pure_File_open self : sig_pure (File_open self).
Proof. unfold File_open, dup, open. sig_pure_tac. Qed.

Lemma sig_pure_File_dtor self : sig_pure (File_dtor self).
Proof. unfold File_dtor. sig_pure_tac. Qed.
#[local] Hint Resolve sig_pure_File_open sig_pure_File_dtor : sig_pure.

Lemma sig_pure_FileMap_find files spec : sig_pure (FileMap_find files spec).
Proof.
  induction files as [|f files IH]; cbn [FileMap_find]; sig_pure_tac; try apply IH.
Qed.
#[local] Hint Resolve sig_pure_FileMap_find : sig_pure.

Lemma sig_pure_FileMap_get self spec r w : sig_pure (FileMap_get self spec r w).
Proof. unfold FileMap_get. sig_pure_tac. Qed.

Lemma sig_pure_delete_files files : sig_pure (delete_files files).
Proof.
  induction files as [|f files IH]; cbn [delete_files]; sig_pure_tac; try apply IH.
Qed.
#[local] Hint Resolve sig_pure_FileMap_get sig_pure_delete_files : sig_pure.

Lemma sig_pure_FileMap_dtor self : sig_pure (FileMap_dtor self).
Proof. unfold FileMap_dtor. sig_pure_tac. Qed.

Lemma sig_pure_FileMap_new : sig_pure FileMap_new.
Proof. unfold FileMap_new. sig_pure_tac. Qed.
#[local] Hint Resolve sig_pure_FileMap_dtor sig_pure_FileMap_new : sig_pure.

(** ** ProcHarvester and LockFile *)

Lemma sig_pure_load_proc_spec p : sig_pure (load_proc_spec p).
Proof. unfold load_proc_spec. sig_pure_tac. Qed.

Lemma sig_pure_store_proc_spec p v : sig_pure (store_proc_spec p v).
Proof. unfold store_proc_spec. sig_pure_tac. Qed.

Lemma sig_pure_load_harvester h : sig_pure (load_harvester h).
Proof. unfold load_harvester. sig_pure_tac. Qed.
#[local] Hint Resolve sig_pure_load_proc_spec sig_pure_store_proc_spec
  sig_pure_load_harvester : sig_pure.

Lemma sig_pure_ProcHarvester_new set : sig_pure (ProcHarvester_new set).
Proof. unfold ProcHarvester_new. sig_pure_tac. Qed.

Lemma sig_pure_addProc h spec : sig_pure (ProcHarvester_addProc h spec).
Proof. unfold ProcHarvester_addProc. sig_pure_tac. Qed.

Lemma sig_pure_load_proc h i : sig_pure (load_proc h i).
Proof. unfold load_proc. sig_pure_tac. Qed.

Lemma sig_pure_store_proc h i P : sig_pure (store_proc h i P).
Proof. unfold store_proc. sig_pure_tac. Qed.
#[local] Hint Resolve sig_pure_ProcHarvester_new sig_pure_addProc
  sig_pure_load_proc sig_pure_store_proc : sig_pure.

Lemma sig_pure_harvest_scan procs : forall left,
  sig_pure (harvest_scan procs left).
Proof.
  induction procs as [|P procs IH]; intros left; cbn [harvest_scan];
    sig_pure_tac; try apply IH.
Qed.

Lemma sig_pure_harvest_forward procs sig : sig_pure (harvest_forward procs sig).
Proof.
  induction procs as [|P procs IH]; cbn [harvest_forward]; unfold kill;
    sig_pure_tac; try apply IH.
Qed.
#[local] Hint Resolve sig_pure_harvest_scan sig_pure_harvest_forward : sig_pure.

Lemma sig_pure_harvest_dispatch procs sig :
  sig_pure (harvest_dispatch procs sig).
Proof. unfold harvest_dispatch. sig_pure_tac. Qed.
#[local] Hint Resolve sig_pure_harvest_dispatch : sig_pure.

Lemma sig_pure_harvest fuel self : sig_pure (harvest fuel self).
Proof.
  induction fuel as [|fuel IH]; cbn [harvest]; sig_pure_tac; try apply IH.
Qed.
#[local] Hint Resolve sig_pure_harvest : sig_pure.

Lemma sig_pure_ProcHarvester_dtor fuel self :
  sig_pure (ProcHarvester_dtor fuel self).
Proof. unfold ProcHarvester_dtor. sig_pure_tac. Qed.

Lemma sig_pure_LockFile_new : sig_pure LockFile_new.
Proof. unfold LockFile_new. sig_pure_tac. Qed.

Lemma sig_pure_LockFile_open m_fd file : sig_pure (LockFile_open m_fd file).
Proof. unfold LockFile_open, open, flock, ftruncate. sig_pure_tac. Qed.

Lemma sig_pure_LockFile_dtor m_fd : sig_pure (LockFile_dtor m_fd).
Proof. unfold LockFile_dtor, ftruncate. sig_pure_tac. Qed.
#[local] Hint Resolve sig_pure_ProcHarvester_dtor sig_pure_LockFile_new
  sig_pure_LockFile_open sig_pure_LockFile_dtor : sig_pure.

Lemma sig_pure_exec_wire harvester files specs :
  sig_pure (exec_wire harvester files specs).
Proof.
  induction specs as [|i specs IH]; cbn [exec_wire]; sig_pure_tac;
    try apply IH.
Qed.

Lemma sig_pure_exec_open files : sig_pure (exec_open files).
Proof.
  induction files as [|f files IH]; cbn [exec_open]; sig_pure_tac;
    try apply IH.
Qed.
#[local] Hint Resolve sig_pure_exec_wire sig_pure_exec_open : sig_pure.

(** ** Forking: the child changes its mask, and never returns *)

Lemma never_ok_bind_r {A B} (m : M A) (k : A -> M B) :
  (forall a, never_ok (k a)) -> never_ok (bind m k).
Proof.
  intros Hk w. apply wp_bind. unfold wp at 1.
  destruct (fst (m w)); cbn; try reflexivity. apply Hk.
Qed.













(** ** The SignalBlocker saves and restores *)


Lemma wp_sigaction sig act Q w :
  (if r_ret (answer w (sys_sigaction sig act)) =? 0
   then Q (Ok (0, Some (w_sighup w)))
          (if sig =? SIGHUP
           then set_sighup (logged w (sys_sigaction sig act)) act
           else logged w (sys_sigaction sig act))
   else Q (Ok (-1, None))
          (set_errno (logged w (sys_sigaction sig act))
             (r_errno (answer w (sys_sigaction sig act))))) ->
  wp (sigaction sig act) Q w.
Proof.
  unfold wp, sigaction, syscall, fails, gets, modify, ret, bind.
  fold (answer w (sys_sigaction sig act)). fold (logged w (sys_sigaction sig act)).
  destruct (r_ret (answer w (sys_sigaction sig act)) =? 0); [|exact id].
  destruct (sig =? SIGHUP); exact id.
Qed.

Lemma wp_sigprocmask how set Q w :
  (if r_ret (answer w (sys_sigprocmask how set)) =? 0
   then Q (Ok (0, Some (w_sigmask w)))
          (set_sigmask (logged w (sys_sigprocmask how set))
             (if how =? SIG_BLOCK then Z.lor (w_sigmask w) set
              else if how =? SIG_UNBLOCK then Z.land (w_sigmask w) (Z.lnot set)
              else if how =? SIG_SETMASK then set
              else w_sigmask w))
   else Q (Ok (-1, None))
          (set_errno (logged w (sys_sigprocmask how set))
             (r_errno (answer w (sys_sigprocmask how set))))) ->
  wp (sigprocmask how set) Q w.
Proof.
  unfold wp, sigprocmask, syscall, fails, gets, modify, ret, bind.
  fold (answer w (sys_sigprocmask how set)).
  fold (logged w (sys_sigprocmask how set)).
  destruct (r_ret (answer w (sys_sigprocmask how set)) =? 0); exact id.
Qed.







(** While [exec] runs the six signals are blocked on top of the caller's
    mask and SIGHUP is ignored: the mask that [sigwait] is called with, and
    the state the child starts from before [unblock]. *)
Example exec_gate_while_running :
  wp SignalBlocker_ctor
     (fun r w' =>
        exists sb, r = Ok sb
          /\ SignalBlocker.m_sigset sb = gate_mask
          /\ w_sigmask w' = Z.lor 512 (SignalBlocker.m_sigset sb)
          /\ w_sighup w' = ignore_action)
     (world_cat kernel_ok).
Proof. vm_compute. eexists. repeat split. Qed.

(** * try_error_write *)









(** The failure paths the claim names, each ending in the fallback and a
    normal return: the child cannot exec, the write to the child fails,
    the child exits with status 3. *)
Example try_error_write_exec_failure :
  let run := try_error_write 5 pipeline_cat "oops"
               (world_cat kernel_exec_fails) in
  fst run = Ok tt
  /\ existsb (is_stderr_write "oops") (calls (w_trace (snd run))) = true.
Proof. vm_compute. split; reflexivity. Qed.

Example try_error_write_write_failure :
  let run := try_error_write 5 pipeline_cat "oops"
               (world_cat kernel_write_fails) in
  fst run = Ok tt
  /\ existsb (is_stderr_write "oops") (calls (w_trace (snd run))) = true.
Proof. vm_compute. split; reflexivity. Qed.

Example try_error_write_child_exit_3 :
  let run := try_error_write 5 pipeline_cat "oops"
               (world_cat kernel_child_exits_3) in
  fst run = Ok tt
  /\ existsb (is_stderr_write "oops") (calls (w_trace (snd run))) = true.
Proof. vm_compute. split; reflexivity. Qed.

(** And when nothing fails there is no fallback. *)
Example try_error_write_success :
  let run := try_error_write 5 pipeline_cat "oops" (world_cat kernel_ok) in
  fst run = Ok tt
  /\ existsb (is_stderr_write "oops") (calls (w_trace (snd run))) = false.
Proof. vm_compute. split; reflexivity. Qed.

(** * The helper: parsing the command line *)

Lemma scan_back_stop (stop : string -> bool) (a : string) (pre suf : list string) :
  stop a = true -> pre <> [] ->
  forall seg acc rounds,
    Forall (fun x => stop x = false) seg ->
    (length seg < rounds)%nat ->
    scan_back (pre ++ a :: seg ++ suf) stop rounds
      (Z.of_nat (length pre + length seg)) acc
    = (Z.of_nat (length pre), seg ++ acc).
Proof.
  intros Ha Hpre seg. revert suf.
  induction seg as [|x seg IH] using rev_ind; intros suf acc rounds Hseg Hr.
  - destruct rounds as [|n]; [cbn in Hr; lia|]. cbn [scan_back length].
    rewrite Nat.add_0_r.
    destruct pre as [|p pre]; [congruence|].
    destruct (Z.gtb_spec (Z.of_nat (length (p :: pre))) 0);
      [|cbn [length] in *; lia].
    rewrite Nat2Z.id, list_lookup_middle by reflexivity.
    now rewrite Ha.
  - apply Forall_app in Hseg as [Hseg Hx]. inversion Hx as [|? ? Hx' _]; subst.
    rewrite length_app in *. cbn [length] in *.
    destruct rounds as [|n]; [lia|]. cbn [scan_back].
    destruct (Z.gtb_spec (Z.of_nat (length pre + (length seg + 1))) 0); [|lia].
    rewrite Nat2Z.id.
    replace (pre ++ a :: (seg ++ [x]) ++ suf)
      with ((pre ++ a :: seg) ++ x :: suf)
      by (rewrite <- !app_assoc; reflexivity).
    rewrite list_lookup_middle
      by (rewrite length_app; cbn [length]; lia).
    rewrite Hx'.
    replace (Z.of_nat (length pre + (length seg + 1)) - 1)
      with (Z.of_nat (length pre + length seg)) by lia.
    rewrite <- app_assoc. cbn [app].
    rewrite (IH (x :: suf) (x :: acc) n Hseg) by lia.
    now rewrite <- app_assoc.
Qed.

Lemma scan_back_all (p0 : string) (suf : list string) :
  forall seg acc rounds,
    (length seg <= rounds)%nat ->
    scan_back (p0 :: seg ++ suf) (fun _ => false) rounds
      (Z.of_nat (length seg)) acc
    = (0, seg ++ acc).
Proof.
  intros seg. revert suf.
  induction seg as [|x seg IH] using rev_ind; intros suf acc rounds Hr.
  - destruct rounds; reflexivity.
  - rewrite length_app in *. cbn [length] in *.
    destruct rounds as [|n]; [lia|]. cbn [scan_back].
    destruct (Z.gtb_spec (Z.of_nat (length seg + 1)) 0); [|lia].
    rewrite Nat2Z.id.
    replace (p0 :: (seg ++ [x]) ++ suf) with ((p0 :: seg) ++ x :: suf)
      by (rewrite <- !app_assoc; reflexivity).
    rewrite list_lookup_middle by (cbn [length]; lia).
    replace (Z.of_nat (length seg + 1) - 1) with (Z.of_nat (length seg)) by lia.
    cbn [app]. rewrite (IH (x :: suf) (x :: acc) n) by lia.
    now rewrite <- app_assoc.
Qed.

Lemma parse_args_sections progname cmd ns env :
  Forall (fun x => is_dashdash x = false) ns ->
  Forall (fun x => is_dashdash x = false) env ->
  parse_args (helper_argv progname cmd ns env) = (env, ns, cmd).
Proof.
  intros Hns Henv. unfold parse_args, helper_argv.
  set (argv := progname :: cmd ++ "--"%string :: ns ++ "--"%string :: env).
  assert (E1 : argv = (progname :: cmd ++ "--"%string :: ns)
                        ++ "--"%string :: env ++ []).
  { unfold argv. rewrite app_nil_r. cbn [app]. rewrite <- app_assoc.
    reflexivity. }
  assert (L : Z.of_nat (length argv) - 1
              = Z.of_nat (length (progname :: cmd ++ "--"%string :: ns)
                          + length env)).
  { rewrite E1, app_nil_r, length_app. cbn [length]. lia. }
  rewrite L, Nat2Z.id.
  rewrite E1 at 1.
  rewrite (scan_back_stop is_dashdash "--") by
    (try reflexivity; try discriminate; try assumption; cbn [length]; lia).
  rewrite app_nil_r.
  assert (E2 : argv = (progname :: cmd) ++ "--"%string :: ns
                        ++ ("--"%string :: env)) by reflexivity.
  replace (Z.of_nat (length (progname :: cmd ++ "--"%string :: ns)) - 1)
    with (Z.of_nat (length (progname :: cmd) + length ns))
    by (cbn [length]; rewrite length_app; cbn [length]; lia).
  rewrite Nat2Z.id. rewrite E2 at 1.
  rewrite (scan_back_stop is_dashdash "--") by
    (try reflexivity; try discriminate; try assumption; cbn [length]; lia).
  rewrite app_nil_r.
  replace (Z.of_nat (length (progname :: cmd)) - 1)
    with (Z.of_nat (length cmd)) by (cbn [length]; lia).
  rewrite Nat2Z.id. unfold argv.
  rewrite (scan_back_all progname) by lia.
  now rewrite app_nil_r.
Qed.

(** * The helper: installing the environment *)

Lemma env_replace_fresh name entry env :
  Forall (fun e => env_name e <> name) env ->
  env_replace name entry env = None.
Proof.
  induction 1 as [|e env He _ IH]; [reflexivity|]. cbn [env_replace].
  destruct (String.eqb_spec (env_name e) name); [contradiction|].
  now rewrite IH.
Qed.

Lemma install_env_from (env_args : list string) : forall acc,
  forallb has_equals env_args = true ->
  NoDup (map env_name env_args) ->
  Forall (fun e => ~ In (env_name e) (map env_name env_args)) acc ->
  fold_left (fun env entry => putenv_env entry env) env_args acc
  = acc ++ env_args.
Proof.
  induction env_args as [|x env_args IH]; intros acc Heq Hnd Hacc.
  - now rewrite app_nil_r.
  - cbn [forallb] in Heq. apply andb_prop in Heq as [Hx Heq].
    cbn [map] in Hnd. apply NoDup_cons in Hnd as [Hfresh Hnd].
    cbn [fold_left]. unfold putenv_env at 2. unfold has_equals in Hx.
    destruct (find_char "=" x); [|discriminate].
    rewrite env_replace_fresh.
    + rewrite IH; [now rewrite <- app_assoc | assumption | assumption |].
      apply Forall_app. split.
      * eapply Forall_impl; [exact Hacc|]. cbn. intros e He Hin.
        apply He. now right.
      * constructor; [|constructor].
        intros Hin. apply Hfresh. now apply list_elem_of_In.
    + eapply Forall_impl; [exact Hacc|]. cbn. intros e He Heq'.
      apply He. left. now symmetry.
Qed.

Lemma install_env_distinct (env_args : list string) :
  forallb has_equals env_args = true ->
  NoDup (map env_name env_args) ->
  install_env env_args = env_args.
Proof.
  intros Heq Hnd. unfold install_env.
  now rewrite install_env_from by (try assumption; constructor).
Qed.

Lemma putenv_all_run (env_args : list string) : forall w,
  putenv_all env_args w
  = (Ok tt, set_environ w
              (fold_left (fun env entry => putenv_env entry env) env_args
                 (w_environ w))).
Proof.
  induction env_args as [|x env_args IH]; intros w.
  - destruct w; reflexivity.
  - cbn [putenv_all fold_left]. unfold putenv, modify, bind. rewrite IH.
    reflexivity.
Qed.

(** * The helper: nothing before the final [execvp] can exec *)

Lemma no_exec_ret {A} (a : A) : no_exec (ret a).
Proof. intros w f a' e. discriminate. Qed.

Lemma no_exec_bind {A B} (m : M A) (k : A -> M B) :
  no_exec m -> (forall a, no_exec (k a)) -> no_exec (bind m k).
Proof.
  intros Hm Hk w. apply wp_bind. eapply wp_mono; [apply Hm|].
  intros [a|f|h|] w1 H; cbn; [apply Hk | discriminate | | discriminate].
  intros f a e [= ->]. now apply (H f a e).
Qed.

Lemma no_exec_syscall c : no_exec (syscall c).
Proof. intros w f a e. discriminate. Qed.

Lemma no_exec_gets {A} (g : World -> A) : no_exec (gets g).
Proof. intros w f a e. discriminate. Qed.

Lemma no_exec_modify g : no_exec (modify g).
Proof. intros w f a e. discriminate. Qed.

Lemma no_exec_crash {A} : no_exec (@halt A Crashed).
Proof. intros w f a e. discriminate. Qed.

Ltac no_exec_step :=
  first
    [ apply no_exec_ret | apply no_exec_syscall | apply no_exec_gets
    | apply no_exec_modify | apply no_exec_crash
    | apply no_exec_bind; [|intros]
    | match goal with
      | |- no_exec (if ?b then _ else _) => destruct b
      | |- no_exec (match ?x with _ => _ end) => destruct x
      end
    | assumption ].

Lemma no_exec_fails r : no_exec (fails r).
Proof. unfold fails. repeat no_exec_step. Qed.

Lemma no_exec_sys_status c : no_exec (sys_status c).
Proof. unfold sys_status. repeat (no_exec_step || apply no_exec_fails). Qed.

Lemma no_exec_mkdir_p_rec depth : forall dir mode,
  no_exec (mkdir_p_rec depth dir mode).
Proof.
  induction depth as [|depth IH]; intros dir mode; cbn [mkdir_p_rec];
    unfold mkdir; repeat (no_exec_step || apply no_exec_sys_status || apply IH).
Qed.

Lemma no_exec_eprint text : no_exec (eprint text).
Proof. unfold eprint. repeat no_exec_step. Qed.

Lemma no_exec_create_symlink progname p : no_exec (create_symlink progname p).
Proof.
  unfold create_symlink, mkdir_p, symlink.
  repeat (no_exec_step || apply no_exec_sys_status || apply no_exec_eprint
          || apply no_exec_mkdir_p_rec).
Qed.

Lemma no_exec_create_symlinks progname args :
  no_exec (create_symlinks progname args).
Proof.
  induction args as [|a args IH]; cbn [create_symlinks];
    repeat (no_exec_step || apply no_exec_create_symlink).
Qed.

Lemma no_exec_fputs stream text : no_exec (fputs stream text).
Proof. unfold fputs. repeat no_exec_step. Qed.

Lemma no_exec_fclose stream : no_exec (fclose stream).
Proof. unfold fclose. repeat no_exec_step. Qed.

Lemma no_exec_fopen path mode : no_exec (fopen path mode).
Proof. unfold fopen. repeat (no_exec_step || apply no_exec_fails). Qed.

Lemma no_exec_write_tokens stream sep args :
  no_exec (write_tokens stream sep args).
Proof.
  induction args as [|a args IH]; cbn [write_tokens];
    repeat (no_exec_step || apply no_exec_fputs).
Qed.

Lemma no_exec_metadata progname ns_args :
  no_exec (create_symlinks_and_metadata progname ns_args).
Proof.
  unfold create_symlinks_and_metadata.
  repeat (no_exec_step || apply no_exec_create_symlinks || apply no_exec_fopen
          || apply no_exec_write_tokens || apply no_exec_fclose
          || apply no_exec_eprint).
Qed.

Lemma no_exec_getid c : no_exec (let* r := syscall c in ret (r_ret r)).
Proof. repeat no_exec_step. Qed.

Lemma exec_post_bind {A} (m : M A) (k : A -> M Z) cmd env w :
  no_exec m ->
  (forall a w1, wp (k a) (exec_post cmd env) w1) ->
  wp (bind m k) (exec_post cmd env) w.
Proof.
  intros Hm Hk. apply wp_bind. eapply wp_mono; [apply Hm|].
  intros [a|f|h|] w1 H; cbn; [apply Hk| | |]; intros f' a' e' E;
    try discriminate.
  injection E as ->. now destruct (H f' a' e').
Qed.

Lemma exec_post_ret cmd env (n : Z) w : wp (ret n) (exec_post cmd env) w.
Proof. intros f a e. discriminate. Qed.

(** The end of [main]: the environment is cleared and installed, then the
    command is executed. *)
Lemma install_then_exec progname cmd env w :
  wp (let* _ := clearenv in
      let* _ := putenv_all env in
      let* r := execvp (exec_name cmd) cmd in
      if negb (negb (r =? -1)) then
        let* errno := gets w_errno in
        let* _ := eprint (progname +:+ ": cannot exec " +:+ exec_name cmd
                          +:+ ": " +:+ strerror errno +:+ nl) in
        ret 1
      else ret 1)
     (exec_post cmd env) w.
Proof.
  unfold wp, exec_post, clearenv, modify.
  unfold bind at 1. unfold bind at 1. rewrite putenv_all_run.
  unfold bind at 1. unfold execvp. unfold bind at 1.
  cbn [syscall]. cbv zeta.
  match goal with |- context [r_ret ?x <? 0] => destruct (r_ret x <? 0) end.
  - intros f a e E. exfalso. revert E.
    unfold fails, modify, bind, gets, eprint, syscall, ret.
    match goal with |- context [if ?b then _ else _] => destruct b end;
      discriminate.
  - unfold bind, gets, halt. cbn [fst set_kernel_view set_environ w_environ].
    intros f a e [= <- <- <-]. repeat split.
Qed.

Lemma main_namespace_exec progname env ns cmd w :
  wp (main_namespace progname env ns cmd) (exec_post cmd env) w.
Proof.
  unfold main_namespace, unshare, umount2, mount, getuid, getgid, setresuid,
    setresgid.
  repeat first
    [ apply install_then_exec
    | apply exec_post_ret
    | apply exec_post_bind;
      [ first [ apply no_exec_sys_status | apply no_exec_gets
              | apply no_exec_eprint | apply no_exec_metadata
              | apply no_exec_fopen | apply no_exec_write_tokens
              | apply no_exec_fclose | apply no_exec_getid
              | unfold deref; repeat no_exec_step
              | repeat (no_exec_step || apply no_exec_sys_status) ]
      | intros ]
    | match goal with
      | |- wp (if ?b then _ else _) _ _ => destruct b
      end ].
Qed.

Lemma not_dashdash_of_equals (env : list string) :
  forallb has_equals env = true ->
  Forall (fun x => is_dashdash x = false) env.
Proof.
  induction env as [|x env IH]; intros H; constructor.
  - cbn [forallb] in H. apply andb_prop in H as [H _].
    unfold is_dashdash. destruct (String.eqb_spec x "--") as [->|]; [|reflexivity].
    discriminate.
  - cbn [forallb] in H. apply andb_prop in H as [_ H]. now apply IH.
Qed.

Lemma main_helper_argv progname cmd ns env (w : World) :
  head cmd <> Some "--init.d"%string ->
  ns <> [] ->
  Forall (fun x => is_dashdash x = false) ns ->
  Forall (fun x => is_dashdash x = false) env ->
  main (helper_argv progname cmd ns env) w
  = main_namespace (basename progname) env ns cmd w.
Proof.
  intros Hcmd Hns Dns Denv. unfold main.
  rewrite parse_args_sections by assumption.
  unfold helper_argv at 1 2 3. cbn [head deref]. unfold ret at 1.
  unfold bind at 1.
  replace (length (progname :: cmd ++ "--"%string :: ns ++ "--"%string :: env)
           <=? 1)%nat with false
    by (symmetry; apply Nat.leb_gt; cbn [length]; rewrite length_app;
        cbn [length]; lia).
  replace (String.eqb (nth 1 (progname :: cmd ++ "--"%string :: ns
                               ++ "--"%string :: env) ""%string) "--init.d")
    with false.
  - destruct ns; [congruence|]. reflexivity.
  - symmetry. cbn [nth]. destruct cmd as [|c cmd]; [reflexivity|].
    cbn [app nth]. apply String.eqb_neq. intros ->. now apply Hcmd.
Qed.


(** C8, as amended: for every list of KEY=VALUE entries with pairwise
    distinct keys passed after the second [--], whenever the helper reaches
    the exec of the command, the environment it has installed (after
    clearing the inherited one) is exactly that list; so the entries of the
    executed command's environ are the entries handed on the command
    line. *)
Theorem helper_env_roundtrip (progname : string) (cmd ns env : list string)
    (w : World) (f : string) (a e : list string) :
  head cmd <> Some "--init.d"%string ->
  ns <> [] ->
  Forall (fun x => is_dashdash x = false) ns ->
  forallb has_equals env = true ->
  NoDup (map env_name env) ->
  fst (main (helper_argv progname cmd ns env) w) = Halt (Execed f a e) ->
  a = cmd /\ e = env /\ (forall x, In x e <-> In x env).
Proof.
  intros Hcmd Hns Dns Heq Hnd Hrun.
  rewrite main_helper_argv in Hrun
    by (try assumption; now apply not_dashdash_of_equals).
  destruct (main_namespace_exec (basename progname) env ns cmd w f a e Hrun)
    as (_ & -> & ->).
  rewrite install_env_distinct by assumption. repeat split; auto.
Qed.

Lemma helper_env_roundtrip_witness :
  fst (main (helper_argv "/usr/bin/exec_with_namespace" ["/bin/true"%string]
               ["nsA"; "bin=/usr/local/bin"]%string
               ["PATH=/bin"; "X=1"]%string) (world0 kernel_ok))
  = Halt (Execed "/bin/true" ["/bin/true"%string] ["PATH=/bin"; "X=1"]%string)
  /\ (["/bin/true"%string] = ["/bin/true"%string]
      /\ ["PATH=/bin"; "X=1"]%string = ["PATH=/bin"; "X=1"]%string
      /\ (forall x, In x ["PATH=/bin"; "X=1"]%string
                    <-> In x ["PATH=/bin"; "X=1"]%string)).
Proof.
  split; [vm_compute; reflexivity|].
  apply (helper_env_roundtrip "/usr/bin/exec_with_namespace"
           ["/bin/true"%string] ["nsA"; "bin=/usr/local/bin"]%string
           ["PATH=/bin"; "X=1"]%string (world0 kernel_ok) "/bin/true").
  - discriminate.
  - discriminate.
  - repeat constructor.
  - reflexivity.
  - apply NoDup_ListNoDup. repeat constructor; cbn; intuition discriminate.
  - vm_compute. reflexivity.
Defined.

(** C8 as stated fails for a list with a repeated key: [putenv] replaces
    the earlier entry, and the command runs without it. *)
Lemma helper_env_repeated_key :
  fst (main (helper_argv "/usr/bin/exec_with_namespace" ["/bin/true"%string]
               ["nsA"%string] ["A=1"; "A=2"]%string) (world0 kernel_ok))
  = Halt (Execed "/bin/true" ["/bin/true"%string] ["A=2"%string])
  /\ ~ In "A=1"%string ["A=2"%string].
Proof.
  split; [vm_compute; reflexivity|]. cbn. intuition discriminate.
Qed.

(** * exec on an empty pipeline *)

(** C9: [exec] on a pipeline with no ProcessSpec throws the failure
    "no procs to execute", whatever the lock file and the fuel, and leaves
    the world as it was: no system call has been made, so the SignalBlocker
    is not installed, no lock is taken and no endpoint is opened.  It never
    returns normally. *)
Theorem exec_no_procs (fuel : nat) (lockFile : string) (w : World) :
  exec fuel {| daemon_pipe.m_lockFile := lockFile; daemon_pipe.m_specs := [] |} w
  = (Throw (failure_fmt "no procs to execute"), w)
  /\ what (failure_fmt "no procs to execute") = Some "no procs to execute"%string.
Proof. split; [reflexivity|vm_compute; reflexivity]. Qed.

(** * More on [failure]: what a message survives *)

Lemma until_nul_nul_free (s : string) : nul_free s = true -> until_nul s = s.
Proof.
  unfold nul_free. induction s as [|c s IH]; cbn; [reflexivity|].
  destruct (Ascii.eqb c NUL); cbn; [discriminate|].
  intros H. now rewrite IH.
Qed.

Lemma prefix_n_all (n : nat) (s : string) :
  (String.length s <= n)%nat -> prefix_n n s = s.
Proof.
  revert n; induction s as [|c s IH]; intros [|n]; cbn; try reflexivity; try lia.
  intros H. rewrite IH by lia. reflexivity.
Qed.





(** A message of at most 254 characters and without a null byte comes back
    from [what()] as it went into the constructor. *)
Theorem failure_what_roundtrip (s : string) :
  (String.length s <= 254)%nat ->
  nul_free s = true ->
  what (failure_fmt s) = Some s.
Proof.
  intros Hlen Hnul. unfold what.
  rewrite failure_fmt_buffer, c_str_terminated, take_prefix_n.
  rewrite prefix_n_all by exact Hlen. now rewrite until_nul_nul_free.
Qed.

Lemma failure_what_roundtrip_witness :
  what (failure_fmt "cmd_argv is empty") = Some "cmd_argv is empty"%string.
Proof.
  apply (failure_what_roundtrip "cmd_argv is empty"); [cbn; lia|reflexivity].
Defined.



(** * writeN: short writes, and writes that take nothing *)

Lemma prefix_suffix (n : nat) (s : string) :
  prefix_n n s +:+ suffix_from n s = s.
Proof.
  revert s; induction n as [|n IH]; intros [|c s]; try reflexivity.
  cbn [prefix_n suffix_from]. change (String c (prefix_n n s) +:+ suffix_from n s)
    with (String c (prefix_n n s +:+ suffix_from n s)).
  now rewrite IH.
Qed.

Lemma length_suffix_from (n : nat) (s : string) :
  String.length (suffix_from n s) = (String.length s - n)%nat.
Proof.
  revert s; induction n as [|n IH]; intros [|c s]; cbn; try lia.
  apply IH.
Qed.

Lemma new_events_app (w : World) (evs : list Event) (e : Z) :
  new_events w (set_kernel_view w (w_trace w ++ evs) e) = evs.
Proof. unfold new_events. cbn [w_trace set_kernel_view]. apply drop_app_length. Qed.

(** The loop under a kernel whose [write] to [fd] always takes at least
    one byte. *)
Lemma writeN_loop_short (k : Kernel) (fd : Z) (rounds : nat) :
  (forall h b, 0 < r_ret (k h (sys_write fd b))) ->
  forall buf w,
    w_kernel w = k ->
    (String.length buf <= rounds)%nat ->
    exists evs,
      writeN_loop rounds fd buf w
      = (Ok 0, set_kernel_view w (w_trace w ++ evs) (w_errno w))
      /\ concat_strings (map accepted evs) = buf
      /\ forallb (is_write_to fd) (map fst evs) = true.
Proof.
  intros Hk. induction rounds as [|n IH]; intros buf w Hw Hlen.
  - destruct buf; [|cbn in Hlen; lia].
    exists []. cbn. rewrite app_nil_r. destruct w; repeat split.
  - cbn [writeN_loop].
    destruct (Nat.eqb_spec (String.length buf) 0) as [E|E].
    + destruct buf; [|discriminate]. exists []. cbn. rewrite app_nil_r.
      destruct w; repeat split.
    + unfold write.
      assert (Hpos : 0 < r_ret (answer w (sys_write fd buf)))
        by (unfold answer; rewrite Hw; apply Hk).
      assert (Hnn : 0 <= r_ret (answer w (sys_write fd buf))) by lia.
      rewrite (bind_ok _ _ _ _ _ (sys_value_ok _ _ Hnn)).
      destruct (Z.leb_spec (r_ret (answer w (sys_write fd buf))) 0); [lia|].
      set (s := Z.to_nat (r_ret (answer w (sys_write fd buf)))) in *.
      assert (Hs : (1 <= s)%nat) by (unfold s; lia).
      destruct (IH (suffix_from s buf) (logged w (sys_write fd buf)) Hw)
        as (evs & Hrun & Hcat & Hall).
      { rewrite length_suffix_from. lia. }
      exists ((sys_write fd buf, answer w (sys_write fd buf)) :: evs).
      split; [|split].
      * rewrite Hrun. unfold logged, answer.
        cbn [set_kernel_view w_trace w_errno w_kernel].
        rewrite <- app_assoc. reflexivity.
      * cbn [map accepted concat_strings fold_right].
        fold (concat_strings (map accepted evs)). rewrite Hcat.
        apply prefix_suffix.
      * cbn [map fst forallb is_write_to]. now rewrite Z.eqb_refl, Hall.
Qed.

(** [writeN] copes with short writes: under a kernel whose [write] to [fd]
    takes at least one byte each time, however few, it returns 0, calls
    nothing but [write] on [fd], and the bytes the calls took, put end to
    end, are the buffer. *)
Theorem writeN_short_writes (fd : Z) (buf : string) (w : World) :
  (forall h b, 0 < r_ret (w_kernel w h (sys_write fd b))) ->
  let run := writeN fd buf w in
  fst run = Ok 0
  /\ concat_strings (map accepted (new_events w (snd run))) = buf
  /\ forallb (is_write_to fd) (calls (new_events w (snd run))) = true.
Proof.
  intros Hk. cbv zeta. unfold writeN.
  destruct (writeN_loop_short (w_kernel w) fd (String.length buf) Hk buf w
              eq_refl (le_n _)) as (evs & Hrun & Hcat & Hall).
  rewrite Hrun. cbn [fst snd]. rewrite new_events_app. auto.
Qed.

(** [kernel_dribble]: every [write] takes one byte. *)
Lemma writeN_short_writes_witness :
  let k : Kernel := fun _ c =>
    match c with sys_write _ _ => resp 1 | _ => resp 0 end in
  let run := writeN 2 "oops" (world0 k) in
  fst run = Ok 0
  /\ concat_strings (map accepted (new_events (world0 k) (snd run)))
     = "oops"%string
  /\ forallb (is_write_to 2) (calls (new_events (world0 k) (snd run))) = true.
Proof.
  intros k.
  apply (writeN_short_writes 2 "oops" (world0 k)).
  intros h b. cbn. lia.
Defined.

(** [writeN] gives up at a [write] that takes nothing.  When the first
    [write] fails, [writeN] returns -1 with the errno of the call; when it
    returns 0, [writeN] returns 0, the value it has for success, with the
    whole buffer unwritten.  Either way no second call is made. *)
Theorem writeN_stops_at_empty_write (fd : Z) (buf : string) (w : World) :
  buf <> EmptyString ->
  r_ret (answer w (sys_write fd buf)) <= 0 ->
  let r := answer w (sys_write fd buf) in
  writeN fd buf w
  = if r_ret r <? 0
    then (Ok (-1), set_errno (logged w (sys_write fd buf)) (r_errno r))
    else (Ok 0, logged w (sys_write fd buf)).
Proof.
  intros Hne Hr. cbv zeta. unfold writeN.
  destruct buf as [|c buf]; [congruence|].
  cbn [String.length writeN_loop Nat.eqb].
  unfold write, sys_value, bind, syscall, fails, modify, ret.
  fold (answer w (sys_write fd (String c buf))).
  fold (logged w (sys_write fd (String c buf))).
  destruct (Z.ltb_spec (r_ret (answer w (sys_write fd (String c buf)))) 0).
  - reflexivity.
  - destruct (Z.leb_spec (r_ret (answer w (sys_write fd (String c buf)))) 0);
      [|lia].
    replace (r_ret (answer w (sys_write fd (String c buf)))) with 0 by lia.
    reflexivity.
Qed.

Lemma writeN_stops_at_empty_write_witness :
  let k : Kernel := fun _ c =>
    match c with sys_write _ _ => resp 0 | _ => resp 0 end in
  writeN 2 "oops" (world0 k)
  = (Ok 0, logged (world0 k) (sys_write 2 "oops")).
Proof.
  intros k.
  apply (writeN_stops_at_empty_write 2 "oops" (world0 k)).
  - discriminate.
  - cbn. lia.
Defined.

(** * class FD: failing closes, the destructor, flags *)

Lemma sys_value_fail c w :
  r_ret (answer w c) < 0 ->
  sys_value c w = (Ok (-1), set_errno (logged w c) (r_errno (answer w c))).
Proof.
  intros H. unfold sys_value, bind, syscall. fold (answer w c).
  destruct (Z.ltb_spec (r_ret (answer w c)) 0); [reflexivity|lia].
Qed.

Lemma FD_reset_close_fail_run (p : ptr) (fd newFD : Z) (w : World) :
  h_fd w !! p = Some fd -> fd <> -1 ->
  r_ret (answer w (sys_close fd)) <> 0 ->
  FD_reset p newFD w
  = (Throw (failure_fmt ("close failed: "
                         +:+ strerror (r_errno (answer w (sys_close fd))))),
     set_errno (logged w (sys_close fd)) (r_errno (answer w (sys_close fd)))).
Proof.
  intros Hp Hfd Hc. unfold FD_reset, FD_m_fd, close.
  unfold bind at 1. unfold load at 1. rewrite Hp.
  apply Z.eqb_neq in Hfd. rewrite Hfd. cbn [negb].
  unfold bind at 1. unfold bind at 1.
  rewrite (sys_status_fail _ _ Hc). reflexivity.
Qed.

(** [FD::reset] when the [close] of the descriptor it holds fails: the
    failure is thrown and the object keeps the old descriptor; the new one
    is not stored. *)
Theorem FD_reset_failed_close_keeps_descriptor (p : ptr) (fd newFD : Z)
    (w : World) :
  h_fd w !! p = Some fd -> fd <> -1 ->
  r_ret (answer w (sys_close fd)) <> 0 ->
  let run := FD_reset p newFD w in
  fst run
  = Throw (failure_fmt ("close failed: "
                        +:+ strerror (r_errno (answer w (sys_close fd)))))
  /\ h_fd (snd run) = h_fd w
  /\ calls (w_trace (snd run)) = calls (w_trace w) ++ [sys_close fd].
Proof.
  intros Hp Hfd Hc. cbv zeta.
  rewrite (FD_reset_close_fail_run _ _ _ _ Hp Hfd Hc). cbn [fst snd].
  split; [reflexivity|]. split; [reflexivity|].
  rewrite trace_set_errno. apply calls_logged.
Qed.

Lemma FD_reset_failed_close_keeps_descriptor_witness :
  let k : Kernel := fun _ c =>
    match c with sys_close _ => resp_err 5 | _ => resp 0 end in
  let w := set_h_fd (world0 k) [7] in
  let run := FD_reset 0%nat 9 w in
  fst run = Throw (failure_fmt "close failed: Input/output error")
  /\ h_fd (snd run) = [7]
  /\ calls (w_trace (snd run)) = [sys_close 7].
Proof.
  intros k w.
  apply (FD_reset_failed_close_keeps_descriptor 0%nat 7 9 w);
    [reflexivity|discriminate|discriminate].
Defined.

(** [~FD] never throws.  It makes one [close] when the object holds a
    descriptor and no call when it holds none; the object is left invalid
    unless that [close] failed, in which case it still records the
    descriptor. *)
Theorem FD_dtor_closes_once (p : ptr) (fd : Z) (w : World) :
  h_fd w !! p = Some fd ->
  let run := FD_dtor p w in
  fst run = Ok tt
  /\ calls (w_trace (snd run))
     = calls (w_trace w) ++ (if fd =? -1 then [] else [sys_close fd])
  /\ h_fd (snd run)
     = if (fd =? -1) || (r_ret (answer w (sys_close fd)) =? 0)
       then <[p := -1]> (h_fd w) else h_fd w.
Proof.
  intros Hp. cbv zeta. unfold FD_dtor, try_catch.
  destruct (Z.eqb_spec fd (-1)) as [->|Hfd].
  - rewrite (FD_reset_fresh_run _ _ _ Hp). cbn [fst snd orb].
    rewrite app_nil_r. auto.
  - cbn [orb].
    destruct (Z.eqb_spec (r_ret (answer w (sys_close fd))) 0) as [Hc|Hc].
    + rewrite (FD_reset_close_run _ _ _ _ Hp Hfd Hc). cbn [fst snd].
      rewrite trace_set_h_fd, calls_logged. auto.
    + rewrite (FD_reset_close_fail_run _ _ _ _ Hp Hfd Hc). cbn [ret fst snd].
      rewrite trace_set_errno, calls_logged. auto.
Qed.

Lemma FD_dtor_closes_once_witness :
  let w := set_h_fd (world0 kernel_ok) [7] in
  let run := FD_dtor 0%nat w in
  fst run = Ok tt
  /\ calls (w_trace (snd run)) = [sys_close 7]
  /\ h_fd (snd run) = [-1].
Proof.
  intros w. apply (FD_dtor_closes_once 0%nat 7 w). reflexivity.
Defined.

(** [FD::pipe] looks at [fdflags] only after the pipe is made: with a value
    other than 0 and FD_CLOEXEC it makes the pipe, stores both ends in the
    two FD objects, and then throws, without a call to [fcntl]. *)
Theorem FD_pipe_unrecognized_flags (readFD writeFD : ptr) (fdflags : Z)
    (w : World) :
  h_fd w !! readFD = Some (-1) -> h_fd w !! writeFD = Some (-1) ->
  readFD <> writeFD ->
  fdflags <> 0 -> fdflags <> FD_CLOEXEC ->
  r_ret (answer w sys_pipe) = 0 ->
  let raw := r_aux (answer w sys_pipe) in
  FD_pipe readFD writeFD fdflags w
  = (Throw (failure_fmt ("FD::pipe: unrecognized fdflags " +:+ fmt_d fdflags)),
     set_h_fd (logged w sys_pipe)
       (<[writeFD := nth 1 raw 0]> (<[readFD := nth 0 raw 0]> (h_fd w)))).
Proof.
  intros Hr Hw Hne H0 H1 Hp. cbv zeta. unfold FD_pipe, pipe.
  unfold bind at 1. unfold bind at 1. unfold syscall at 1.
  fold (answer w sys_pipe). fold (logged w sys_pipe).
  rewrite Hp. cbn [Z.eqb ret CHECK]. unfold bind at 1.
  unfold ret at 1. cbv beta iota.
  change (set_kernel_view w (w_trace w ++ [(sys_pipe, answer w sys_pipe)])
            (w_errno w)) with (logged w sys_pipe).
  assert (Hr1 : h_fd (logged w sys_pipe) !! readFD = Some (-1)) by exact Hr.
  rewrite (bind_ok _ _ _ _ _ (FD_reset_fresh_run _ (nth 0 (r_aux (answer w sys_pipe)) 0) _ Hr1)).
  match goal with
  | |- (let* _ := FD_reset writeFD ?d in _) ?w1 = _ =>
      assert (Hw1 : h_fd w1 !! writeFD = Some (-1))
        by (cbn [h_fd set_h_fd logged set_kernel_view];
            rewrite list_lookup_insert_ne by exact Hne; exact Hw);
      rewrite (bind_ok _ _ _ _ _ (FD_reset_fresh_run _ d _ Hw1))
  end.
  apply Z.eqb_neq in H0, H1. rewrite H0, H1. cbn [negb].
  reflexivity.
Qed.

Lemma FD_pipe_unrecognized_flags_witness :
  let w := set_h_fd (world0 kernel_ok) [-1; -1] in
  FD_pipe 0%nat 1%nat 2048 w
  = (Throw (failure_fmt "FD::pipe: unrecognized fdflags 2048"),
     set_h_fd (logged w sys_pipe) [3; 4]).
Proof.
  intros w.
  apply (FD_pipe_unrecognized_flags 0%nat 1%nat 2048 w);
    try reflexivity; discriminate.
Defined.

Lemma lor_O_NONBLOCK_bits (flags : Z) :
  Z.testbit (Z.lor flags O_NONBLOCK) 11 = true
  /\ (forall i, 0 <= i -> i <> 11 ->
        Z.testbit (Z.lor flags O_NONBLOCK) i = Z.testbit flags i).
Proof.
  split.
  - rewrite Z.lor_spec. change O_NONBLOCK with (2 ^ 11).
    rewrite (Z.pow2_bits_true 11) by lia. apply orb_true_r.
  - intros i Hi Hne. rewrite Z.lor_spec. change O_NONBLOCK with (2 ^ 11).
    rewrite (Z.pow2_bits_false 11 i) by lia. apply orb_false_r.
Qed.

(** [FD::setNonBlock] reads the status flags with F_GETFL and, when that
    works, writes them back with F_SETFL with O_NONBLOCK added and every
    other flag as it was; it returns if the second call works and throws
    if it does not.  When F_GETFL fails it throws after that one call and
    changes nothing. *)
Theorem FD_setNonBlock_adds_flag (p : ptr) (fd : Z) (w : World) :
  h_fd w !! p = Some fd ->
  let got := answer w (sys_fcntl fd F_GETFL 0) in
  let w1 := logged w (sys_fcntl fd F_GETFL 0) in
  let arg := Z.lor (r_ret got) O_NONBLOCK in
  let run := FD_setNonBlock p w in
  if r_ret got <? 0 then
    fst run = Throw (failure_fmt ("fcntl(F_GETFL) failed: "
                                  +:+ strerror (r_errno got)))
    /\ calls (w_trace (snd run))
       = calls (w_trace w) ++ [sys_fcntl fd F_GETFL 0]
  else
    calls (w_trace (snd run))
    = calls (w_trace w) ++ [sys_fcntl fd F_GETFL 0; sys_fcntl fd F_SETFL arg]
    /\ Z.testbit arg 11 = true
    /\ (forall i, 0 <= i -> i <> 11 -> Z.testbit arg i = Z.testbit (r_ret got) i)
    /\ fst run
       = (let set := answer w1 (sys_fcntl fd F_SETFL arg) in
          if r_ret set <? 0
          then Throw (failure_fmt ("fcntl(F_SETFL) failed: "
                                   +:+ strerror (r_errno set)))
          else Ok tt).
Proof.
  intros Hp. cbv zeta.
  assert (Hrun : forall k : Z -> M unit,
            (let* fd := FD_m_fd p in k fd) w = k fd w).
  { intros k. unfold bind, FD_m_fd, load. now rewrite Hp. }
  destruct (FD_setNonBlock p w) as [r w'] eqn:E. cbn [fst snd].
  unfold FD_setNonBlock in E. rewrite Hrun in E. unfold fcntl in E.
  destruct (Z.ltb_spec (r_ret (answer w (sys_fcntl fd F_GETFL 0))) 0) as [Hg|Hg].
  - rewrite (bind_ok _ _ _ _ _ (sys_value_fail _ _ Hg)) in E.
    cbn [Z.geb Z.compare CHECK] in E. unfold throw_fmt, bind in E.
    injection E as <- <-.
    split; [reflexivity|]. rewrite trace_set_errno. apply calls_logged.
  - rewrite (bind_ok _ _ _ _ _ (sys_value_ok _ _ Hg)) in E.
    destruct (Z.geb_spec (r_ret (answer w (sys_fcntl fd F_GETFL 0))) 0); [|lia].
    cbn [CHECK] in E. unfold ret at 1 in E. unfold bind at 1 in E.
    destruct (lor_O_NONBLOCK_bits (r_ret (answer w (sys_fcntl fd F_GETFL 0))))
      as [Hb1 Hb2].
    set (arg := Z.lor (r_ret (answer w (sys_fcntl fd F_GETFL 0))) O_NONBLOCK) in *.
    set (w1 := logged w (sys_fcntl fd F_GETFL 0)) in *.
    assert (Hw1 : calls (w_trace w1)
                  = calls (w_trace w) ++ [sys_fcntl fd F_GETFL 0])
      by apply calls_logged.
    destruct (Z.ltb_spec (r_ret (answer w1 (sys_fcntl fd F_SETFL arg))) 0)
      as [Hs|Hs].
    + rewrite (bind_ok _ _ _ _ _ (sys_value_fail _ _ Hs)) in E.
      cbn [Z.geb Z.compare CHECK] in E. unfold throw_fmt in E.
      injection E as <- <-.
      rewrite trace_set_errno, calls_logged, Hw1, <- app_assoc. auto.
    + rewrite (bind_ok _ _ _ _ _ (sys_value_ok _ _ Hs)) in E.
      destruct (Z.geb_spec (r_ret (answer w1 (sys_fcntl fd F_SETFL arg))) 0);
        [|lia].
      cbn [CHECK ret] in E. injection E as <- <-.
      rewrite calls_logged, Hw1, <- app_assoc. auto.
Qed.

(** Descriptor 4 has O_WRONLY|O_APPEND set. *)
Lemma FD_setNonBlock_adds_flag_witness :
  let k : Kernel := fun _ c =>
    match c with sys_fcntl _ 3 _ => resp 1025 | _ => resp 0 end in
  let w := set_h_fd (world0 k) [4] in
  let run := FD_setNonBlock 0%nat w in
  calls (w_trace (snd run)) = [sys_fcntl 4 F_GETFL 0; sys_fcntl 4 F_SETFL 3073]
  /\ Z.testbit 3073 11 = true
  /\ (forall i, 0 <= i -> i <> 11 -> Z.testbit 3073 i = Z.testbit 1025 i)
  /\ fst run = Ok tt.
Proof.
  intros k w.
  apply (FD_setNonBlock_adds_flag 0%nat 4 w). reflexivity.
Defined.

(** * File::open on a pipe and on the caller's streams; FileMap::get *)

Lemma load_run {A} (heap : World -> list A) (p : ptr) (v : A) (w : World) :
  heap w !! p = Some v -> load heap p w = (Ok v, w).
Proof. intros H. unfold load. now rewrite H. Qed.

Lemma store_run {A} (heap : World -> list A) set (p : ptr) (v0 v : A) (w : World) :
  heap w !! p = Some v0 ->
  store heap set p v w = (Ok tt, set w (<[p := v]> (heap w))).
Proof. intros H. unfold store. now rewrite H. Qed.

Lemma lookup_snoc_new {A} (l : list A) (x : A) : (l ++ [x]) !! length l = Some x.
Proof. rewrite lookup_app_r by lia. now rewrite Nat.sub_diag. Qed.

Lemma lookup_snoc_old {A} (l : list A) (x v : A) (i : nat) :
  l !! i = Some v -> (l ++ [x]) !! i = Some v.
Proof. intros H. rewrite lookup_app_l; [exact H|]. eapply lookup_lt_Some, H. Qed.

Ltac step H := rewrite (bind_ok _ _ _ _ _ H).

(** [setCloseOnExec] under a kernel whose [fcntl] never fails. *)
Lemma FD_setCloseOnExec_fcntl_ok (p : ptr) (fd : Z) (w : World) :
  fcntl_ok (w_kernel w) ->
  h_fd w !! p = Some fd ->
  FD_setCloseOnExec p w
  = (Ok tt,
     logged (logged w (sys_fcntl fd F_GETFD 0))
       (sys_fcntl fd F_SETFD
          (Z.lor (r_ret (answer w (sys_fcntl fd F_GETFD 0))) FD_CLOEXEC))).
Proof.
  intros Hk Hp. apply (FD_setCloseOnExec_run p fd _ w Hp eq_refl).
  - apply Hk.
  - apply Hk.
Qed.

Lemma wp_FD_setCloseOnExec_ok (p : ptr) (fd : Z) Q (w : World) :
  fcntl_ok (w_kernel w) ->
  h_fd w !! p = Some fd ->
  Q (Ok tt)
    (logged (logged w (sys_fcntl fd F_GETFD 0))
       (sys_fcntl fd F_SETFD
          (Z.lor (r_ret (answer w (sys_fcntl fd F_GETFD 0))) FD_CLOEXEC))) ->
  wp (FD_setCloseOnExec p) Q w.
Proof.
  intros Hk Hp HQ.
  apply (wp_run _ _ _ _ _ (FD_setCloseOnExec_fcntl_ok p fd w Hk Hp)), HQ.
Qed.

(** [File::open] on an anonymous file_spec makes a pipe: the read side and
    the write side become two new, distinct FD objects that hold the two
    ends, and both ends are made close-on-exec. *)
Theorem File_open_anonymous_is_pipe (self : ptr) (F : File.t)
    (spec : file_spec.t) (w : World) :
  h_file w !! self = Some F ->
  h_file_spec w !! File.m_spec F = Some spec ->
  file_spec.m_filename spec = EmptyString ->
  fcntl_ok (w_kernel w) ->
  r_ret (answer w sys_pipe) = 0 ->
  let rs := length (h_fd w) in
  let ws := S rs in
  let raw0 := nth 0 (r_aux (answer w sys_pipe)) 0 in
  let raw1 := nth 1 (r_aux (answer w sys_pipe)) 0 in
  let run := File_open self w in
  fst run = Ok tt
  /\ h_file (snd run) !! self
     = Some (File.set_writeSide (File.set_readSide F (Some rs)) (Some ws))
  /\ h_fd (snd run) = h_fd w ++ [raw0; raw1]
  /\ exists fl0 fl1,
       calls (w_trace (snd run))
       = calls (w_trace w) ++ [sys_pipe]
         ++ cloexec_calls raw0 fl0 ++ cloexec_calls raw1 fl1.
Proof.
  intros HF Hspec Hname Hk Hpipe. cbv zeta.
  set (raw0 := nth 0 (r_aux (answer w sys_pipe)) 0).
  set (raw1 := nth 1 (r_aux (answer w sys_pipe)) 0).
  change (wp (File_open self)
            (fun r w' =>
               r = Ok tt
               /\ h_file w' !! self
                  = Some (File.set_writeSide
                            (File.set_readSide F (Some (length (h_fd w))))
                            (Some (S (length (h_fd w)))))
               /\ h_fd w' = h_fd w ++ [raw0; raw1]
               /\ exists fl0 fl1,
                    calls (w_trace w')
                    = calls (w_trace w) ++ [sys_pipe]
                      ++ cloexec_calls raw0 fl0 ++ cloexec_calls raw1 fl1) w).
  unfold File_open, load_file, store_file.
  apply wp_bind, wp_load. rewrite HF.
  apply wp_bind, wp_load. rewrite Hspec, Hname. cbn [String.length Nat.eqb].
  apply wp_bind, wp_FD_new.
  apply wp_bind, wp_store. cbn [h_file set_h_fd]. rewrite HF.
  apply wp_bind, wp_load. cbn [h_file set_h_file].
  rewrite list_lookup_insert_eq by (eapply lookup_lt_Some, HF).
  apply wp_bind, wp_FD_new.
  apply wp_bind, wp_store. cbn [h_file set_h_fd set_h_file].
  rewrite list_lookup_insert_eq by (eapply lookup_lt_Some, HF).
  rewrite list_insert_insert_eq.
  cbn [h_fd set_h_file set_h_fd].
  unfold FD_pipe, pipe.
  apply wp_bind, wp_bind, wp_syscall.
  change (answer _ sys_pipe) with (answer w sys_pipe). rewrite Hpipe.
  cbn [Z.eqb]. apply wp_ret. apply wp_bind, wp_CHECK. cbn [Z.eqb].
  fold raw0 raw1.
  apply wp_bind, wp_FD_reset_fresh.
  { cbn [h_fd logged set_kernel_view set_h_file set_h_fd].
    apply lookup_snoc_old, lookup_snoc_new. }
  cbn [h_fd logged set_kernel_view set_h_file set_h_fd].
  apply wp_bind, wp_FD_reset_fresh.
  { cbn [h_fd set_h_fd].
    rewrite list_lookup_insert_ne by (rewrite length_app; cbn [length]; clear; lia).
    rewrite <- app_assoc. cbn [app]. rewrite length_app. cbn [length].
    rewrite lookup_app_r by lia.
    replace (length (h_fd w) + 1 - length (h_fd w))%nat with 1%nat by lia.
    reflexivity. }
  cbn [h_fd set_h_fd].
  assert (Hheap : <[length (h_fd w ++ [-1]) := raw1]>
                    (<[length (h_fd w) := raw0]> ((h_fd w ++ [-1]) ++ [-1]))
                  = h_fd w ++ [raw0; raw1]).
  { rewrite <- app_assoc. cbn [app].
    rewrite insert_app_r_alt by lia. rewrite Nat.sub_diag. cbn [insert list_insert].
    rewrite length_app. cbn [length]. rewrite insert_app_r_alt by lia.
    replace (length (h_fd w) + 1 - length (h_fd w))%nat with 1%nat by lia.
    reflexivity. }
  rewrite Hheap.
  assert (H0 : (h_fd w ++ [raw0; raw1]) !! length (h_fd w) = Some raw0).
  { rewrite lookup_app_r by lia. now rewrite Nat.sub_diag. }
  assert (H1 : (h_fd w ++ [raw0; raw1]) !! S (length (h_fd w)) = Some raw1).
  { rewrite lookup_app_r by lia.
    replace (S (length (h_fd w)) - length (h_fd w))%nat with 1%nat by lia.
    reflexivity. }
  apply wp_bind. eapply (wp_FD_setCloseOnExec_ok _ raw0); [exact Hk|exact H0|].
  apply (wp_FD_setCloseOnExec_ok _ raw1); [exact Hk| |].
  { cbn [h_fd set_h_fd logged set_kernel_view]. rewrite length_app.
    cbn [length]. rewrite Nat.add_1_r. exact H1. }
  split; [reflexivity|]. split; [|split; [reflexivity|]].
  - cbn [h_file logged set_kernel_view set_h_fd set_h_file].
    rewrite list_lookup_insert_eq by (eapply lookup_lt_Some, HF).
    rewrite length_app. cbn [length]. now rewrite Nat.add_1_r.
  - eexists _, _. unfold cloexec_calls. rewrite !calls_logged.
    cbn [w_trace set_h_fd]. rewrite calls_logged.
    cbn [w_trace set_h_fd set_h_file]. rewrite <- !app_assoc. reflexivity.
Qed.

Lemma fcntl_ok_kernel_ok : fcntl_ok kernel_ok.
Proof. intros h fd cmd arg. cbn. lia. Qed.

Lemma File_open_anonymous_is_pipe_witness :
  let w := world_endpoint kernel_ok spec_pipe true true in
  let run := File_open 0%nat w in
  fst run = Ok tt
  /\ h_file (snd run) !! 0%nat
     = Some {| File.m_spec := 0%nat; File.m_append := false;
               File.m_wantRead := true; File.m_wantWrite := true;
               File.m_readSide := Some 0%nat; File.m_writeSide := Some 1%nat |}
  /\ h_fd (snd run) = [3; 4]
  /\ exists fl0 fl1,
       calls (w_trace (snd run))
       = [sys_pipe] ++ cloexec_calls 3 fl0 ++ cloexec_calls 4 fl1.
Proof.
  intros w.
  apply (File_open_anonymous_is_pipe 0%nat (endpoint spec_pipe true true)
           spec_pipe w);
    try reflexivity.
  apply fcntl_ok_kernel_ok.
Defined.

(** [File::open] refuses a caller stream wanted for the wrong direction
    ([/dev/stdin] for writing, [/dev/stdout] or [/dev/stderr] for reading)
    before it makes any system call, and leaves the File as it was. *)
Theorem File_open_wrong_direction (self : ptr) (F : File.t)
    (spec : file_spec.t) (msg : string) (w : World) :
  h_file w !! self = Some F ->
  h_file_spec w !! File.m_spec F = Some spec ->
  wrong_direction (file_spec.m_filename spec) F = Some msg ->
  let run := File_open self w in
  fst run = Throw (failure_fmt msg)
  /\ w_trace (snd run) = w_trace w
  /\ h_file (snd run) = h_file w.
Proof.
  intros HF Hspec Hwrong. cbv zeta.
  change (wp (File_open self)
            (fun r w' => r = Throw (failure_fmt msg)
                         /\ w_trace w' = w_trace w /\ h_file w' = h_file w) w).
  unfold File_open, load_file.
  apply wp_bind, wp_load. rewrite HF.
  apply wp_bind, wp_load. rewrite Hspec.
  assert (Hrel : forall w1 : World,
            w_trace w1 = w_trace w -> h_file w1 = h_file w ->
            h_fd w1 !! length (h_fd w) = Some (-1) ->
            wp (FDPtr_release_local (length (h_fd w)) self)
               (fun r2 w2 =>
                  r2 = Ok tt
                  /\ w_trace w2 = w_trace w /\ h_file w2 = h_file w) w1).
  { intros w1 Ht Hf Hfd. unfold FDPtr_release_local, load_file.
    apply wp_bind, wp_load. rewrite Hf, HF.
    destruct (_ || _); [apply wp_ret; auto|].
    unfold FD_dtor. apply wp_try_catch, wp_FD_reset_fresh; [exact Hfd|].
    cbn [w_trace h_file set_h_fd]. auto. }
  unfold wrong_direction in Hwrong.
  destruct (String.eqb_spec (file_spec.m_filename spec) "/dev/stdin") as [E|_];
    [|destruct (String.eqb_spec (file_spec.m_filename spec) "/dev/stdout")
        as [E|_];
      [|destruct (String.eqb_spec (file_spec.m_filename spec) "/dev/stderr")
          as [E|_]; [|discriminate]]];
    rewrite E; cbn [String.length Nat.eqb String.eqb Ascii.eqb Bool.eqb];
    apply wp_bind, wp_FD_new, wp_finally, wp_bind, wp_bind.
  all: match type of Hwrong with
       | (if ?b then _ else _) = _ => destruct b; [|discriminate]
       end.
  all: injection Hwrong as <-.
  all: apply wp_CHECK; cbn [negb pass].
  all: eapply wp_mono;
    [apply Hrel; [reflexivity|reflexivity|apply lookup_snoc_new]|].
  all: intros r2 w2 (-> & Ht & Hf); auto.
Qed.

Lemma File_open_wrong_direction_witness :
  let w := world_endpoint kernel_ok spec_caller_stdout true false in
  let run := File_open 0%nat w in
  fst run = Throw (failure_fmt "caller_stdout cannot be used for reading")
  /\ w_trace (snd run) = []
  /\ h_file (snd run) = h_file w.
Proof.
  intros w.
  apply (File_open_wrong_direction 0%nat
           (endpoint spec_caller_stdout true false) spec_caller_stdout _ w);
    reflexivity.
Defined.

(** ** FileMap::get *)

(** A search that found nothing finds nothing after Files were added to
    the heap. *)
Lemma FileMap_find_none_frame (spec : ptr) (files : list ptr) :
  forall w w' more,
    FileMap_find files spec w = (Ok None, w) ->
    h_file w' = h_file w ++ more ->
    FileMap_find files spec w' = (Ok None, w').
Proof.
  induction files as [|i rest IH]; intros w w' more Hfind Hheap;
    [reflexivity|].
  cbn [FileMap_find] in *. unfold load_file, bind, load in *.
  destruct (h_file w !! i) as [Fi|] eqn:Hi; [|discriminate].
  rewrite Hheap, (lookup_app_l_Some _ _ _ _ Hi).
  destruct (File.m_spec Fi =? spec)%nat; [discriminate|].
  eapply IH; eauto.
Qed.

(** A search over [files ++ [f]], where none of [files] is for [spec] and
    [f] is, finds [f]. *)
Lemma FileMap_find_last (spec : ptr) (files : list ptr) (f : ptr) (F : File.t) :
  forall w,
    FileMap_find files spec w = (Ok None, w) ->
    h_file w !! f = Some F -> File.m_spec F = spec ->
    FileMap_find (files ++ [f]) spec w = (Ok (Some f), w).
Proof.
  induction files as [|i rest IH]; intros w Hfind Hf Hs.
  - cbn [app FileMap_find]. unfold load_file, bind, load. rewrite Hf, Hs.
    now rewrite Nat.eqb_refl.
  - cbn [app FileMap_find] in *. unfold load_file, bind, load in *.
    destruct (h_file w !! i) as [Fi|] eqn:Hi; [|discriminate].
    destruct (File.m_spec Fi =? spec)%nat; [discriminate|].
    now apply IH.
Qed.

(** [FileMap::get] is a map from file_spec to File: the first [get] for a
    file_spec makes its File and adds it to the map, a second [get] for
    the same file_spec returns the same File and adds none, and the File
    is wanted for reading, and for writing, if either call wanted it. *)
Theorem FileMap_get_same_spec (self spec : ptr) (s : file_spec.t)
    (files : list ptr) (r1 w1 r2 w2 : bool) (w : World) :
  h_filemap w !! self = Some files ->
  h_file_spec w !! spec = Some s ->
  FileMap_find files spec w = (Ok None, w) ->
  let f := length (h_file w) in
  let run := (let* a := FileMap_get self spec r1 w1 in
              let* b := FileMap_get self spec r2 w2 in
              ret (a, b)) w in
  fst run = Ok (f, f)
  /\ h_filemap (snd run) !! self = Some (files ++ [f])
  /\ h_file (snd run)
     = h_file w
       ++ [{| File.m_spec := spec; File.m_append := file_spec.m_append s;
              File.m_wantRead := r1 || r2; File.m_wantWrite := w1 || w2;
              File.m_readSide := None; File.m_writeSide := None |}].
Proof.
  intros Hmap Hspec Hfind. cbv zeta.
  assert (Hlt : (self < length (h_filemap w))%nat)
    by (eapply lookup_lt_Some, Hmap).
  set (F0 := {| File.m_spec := spec; File.m_append := file_spec.m_append s;
                File.m_wantRead := false; File.m_wantWrite := false;
                File.m_readSide := None; File.m_writeSide := None |}).
  change (wp (let* a := FileMap_get self spec r1 w1 in
              let* b := FileMap_get self spec r2 w2 in
              ret (a, b))
            (fun r' w' =>
               r' = Ok (length (h_file w), length (h_file w))
               /\ h_filemap w' !! self = Some (files ++ [length (h_file w)])
               /\ h_file w'
                  = h_file w
                    ++ [{| File.m_spec := spec;
                           File.m_append := file_spec.m_append s;
                           File.m_wantRead := r1 || r2;
                           File.m_wantWrite := w1 || w2;
                           File.m_readSide := None;
                           File.m_writeSide := None |}]) w).
  apply wp_bind. unfold FileMap_get at 1.
  apply wp_bind, wp_load. rewrite Hmap.
  apply wp_bind. apply (wp_run _ _ _ _ _ Hfind).
  apply wp_bind, wp_bind. unfold File_new.
  apply wp_bind, wp_load. rewrite Hspec. apply wp_alloc. fold F0.
  apply wp_bind, wp_store. cbn [h_filemap set_h_file]. rewrite Hmap.
  apply wp_ret. unfold load_file, store_file.
  apply wp_bind, wp_load. cbn [h_file set_h_filemap set_h_file].
  rewrite lookup_snoc_new.
  apply wp_bind, wp_store. cbn [h_file set_h_filemap set_h_file].
  rewrite lookup_snoc_new. apply wp_ret.
  cbn [h_filemap h_file set_h_file set_h_filemap].
  rewrite insert_app_r_alt by lia. rewrite Nat.sub_diag.
  cbn [insert list_insert File.set_want F0 File.m_wantRead File.m_wantWrite
       File.m_spec File.m_append File.m_readSide File.m_writeSide orb].
  (* the second call *)
  apply wp_bind. unfold FileMap_get.
  apply wp_bind, wp_load. cbn [h_filemap set_h_file set_h_filemap].
  rewrite list_lookup_insert_eq by exact Hlt.
  apply wp_bind.
  match goal with
  | |- wp _ _ ?wcur =>
      assert (Hfind2 : FileMap_find (files ++ [length (h_file w)]) spec wcur
                       = (Ok (Some (length (h_file w))), wcur))
  end.
  { eapply FileMap_find_last.
    - eapply FileMap_find_none_frame; [exact Hfind|].
      cbn [h_file set_h_file set_h_filemap]. reflexivity.
    - cbn [h_file set_h_file set_h_filemap]. apply lookup_snoc_new.
    - reflexivity. }
  apply (wp_run _ _ _ _ _ Hfind2).
  apply wp_bind, wp_ret. unfold load_file, store_file.
  apply wp_bind, wp_load. cbn [h_file set_h_filemap set_h_file].
  rewrite lookup_snoc_new.
  apply wp_bind, wp_store. cbn [h_file set_h_filemap set_h_file].
  rewrite lookup_snoc_new. apply wp_ret, wp_ret.
  cbn [h_filemap h_file set_h_file set_h_filemap].
  rewrite insert_app_r_alt by lia. rewrite Nat.sub_diag.
  split; [reflexivity|]. split; [|reflexivity].
  apply list_lookup_insert_eq. exact Hlt.
Qed.

Lemma FileMap_get_same_spec_witness :
  let w := set_h_filemap (set_h_file_spec (world0 kernel_ok) [spec_pipe]) [[]] in
  let run := (let* a := FileMap_get 0%nat 0%nat false true in
              let* b := FileMap_get 0%nat 0%nat true false in
              ret (a, b)) w in
  fst run = Ok (0%nat, 0%nat)
  /\ h_filemap (snd run) !! 0%nat = Some [0%nat]
  /\ h_file (snd run)
     = [{| File.m_spec := 0%nat; File.m_append := false;
           File.m_wantRead := true; File.m_wantWrite := true;
           File.m_readSide := None; File.m_writeSide := None |}].
Proof.
  intros w.
  apply (FileMap_get_same_spec 0%nat 0%nat spec_pipe [] false true true false w);
    reflexivity.
Defined.

(** * The child of safe_fork_exec *)

Lemma no_exec_throw_fmt {A} msg : no_exec (@throw_fmt A msg).
Proof. intros w f a e. discriminate. Qed.

Lemma no_exec_CHECK cond msg : no_exec (CHECK cond msg).
Proof. destruct cond; [apply no_exec_ret|apply no_exec_throw_fmt]. Qed.

Lemma no_exec_load {A} (heap : World -> list A) p : no_exec (load heap p).
Proof. intros w. apply wp_load. destruct (heap w !! p); discriminate. Qed.

Lemma no_exec_deref {A} (p : option A) : no_exec (deref p).
Proof. destruct p; [apply no_exec_ret|apply no_exec_crash]. Qed.

Lemma no_exec_sys_value c : no_exec (sys_value c).
Proof. unfold sys_value. repeat (no_exec_step || apply no_exec_fails). Qed.

Lemma no_exec_FD_get p : no_exec (FD_get p).
Proof.
  unfold FD_get, FD_isOk, FD_m_fd.
  repeat (no_exec_step || apply no_exec_load || apply no_exec_throw_fmt).
Qed.

Lemma no_exec_child_dup2 file side target :
  no_exec (child_dup2 file side target).
Proof.
  unfold child_dup2, load_file, dup2.
  repeat (apply no_exec_FD_get || apply no_exec_sys_value
          || apply no_exec_CHECK || apply no_exec_load || apply no_exec_deref
          || no_exec_step).
Qed.

Lemma no_exec_exit {A} status : no_exec (@_exit A status).
Proof. intros w f a e. discriminate. Qed.

(** A computation that cannot exec meets every postcondition that speaks
    of successful execs only. *)
Lemma wp_no_exec {A} (m : M A) (Q : Result A -> World -> Prop) w :
  no_exec m -> exec_only Q -> wp m Q w.
Proof. intros Hm HQ. apply HQ. apply Hm. Qed.

(** A first part that cannot exec and leaves the signal state alone. *)
Lemma wp_bind_quiet {A B} (m : M A) (k : A -> M B)
    (Q : Result B -> World -> Prop) (hup : sigaction_t) w :
  sig_pure m -> no_exec m -> exec_only Q ->
  (forall a w1, w_sighup w1 = hup -> wp (k a) Q w1) ->
  w_sighup w = hup ->
  wp (bind m k) Q w.
Proof.
  intros Hs Hn HQ Hk Hw. apply wp_bind.
  pose proof (Hs w) as Hs'. pose proof (Hn w) as Hn'. unfold wp in *.
  destruct (fst (m w)) as [a|f|h|] eqn:E; cbn [pass].
  - apply Hk. unfold sig_state in Hs'. congruence.
  - apply HQ. discriminate.
  - apply HQ. intros f a e [= ->]. now apply (Hn' f a e).
  - apply HQ. discriminate.
Qed.

Lemma child_execed_exec_only argv mask hup : exec_only (child_execed argv mask hup).
Proof. intros r w H f a e E. now destruct (H f a e). Qed.

Lemma sig_pure_child_dup2 file side target :
  sig_pure (child_dup2 file side target).
Proof.
  unfold child_dup2. destruct file as [f|]; [|apply sig_pure_ret].
  apply sig_pure_bind; [apply sig_pure_load_file|]. intros F.
  apply sig_pure_bind; [apply sig_pure_deref|]. intros s.
  apply sig_pure_bind; [apply sig_pure_FD_get|]. intros fd.
  apply sig_pure_bind; [apply sig_pure_sys_value|]. intros r.
  apply sig_pure_CHECK.
Qed.

(** The shape of the child: a guarded body, then [_exit].  Only the body
    can exec. *)
Lemma wp_guarded_then_exit {A} (body : M unit) (handler : failure -> M unit)
    (Q : Result A -> World -> Prop) w :
  exec_only Q -> (forall f, no_exec (handler f)) ->
  wp body (fun r w1 => forall f a e,
             r = Halt (Execed f a e) -> Q (Halt (Execed f a e)) w1) w ->
  wp (let* _ := try_catch body handler in _exit 1) Q w.
Proof.
  intros HQ Hh Hb. unfold wp, bind, try_catch in *.
  destruct (body w) as [[[]|f|h|] w1]; cbn [fst snd] in *.
  - apply HQ. discriminate.
  - pose proof (Hh f w1) as Hf. unfold wp in Hf.
    destruct (handler f w1) as [[[]|f2|h2|] w2]; cbn [fst snd] in *.
    + apply HQ. discriminate.
    + apply HQ. discriminate.
    + apply HQ. intros f' a e [= ->]. now apply (Hf f' a e).
    + apply HQ. discriminate.
  - destruct h as [s|f' a e| |]; try (apply HQ; discriminate).
    now apply Hb.
  - apply HQ. discriminate.
Qed.

(** A child that execs does so as the command of its ProcessSpec, with
    the signal mask that the SignalBlocker saved (the mask the supervisor
    was called with, none of the six gated signals added) and with the
    SIGHUP disposition it was forked with (ignored, as the SignalBlocker
    set it): [unblock] restores the mask and nothing else. *)
Theorem child_exec_signal_state (self : Proc.t) (sb : SignalBlocker.t)
    (argv : exec_args) (errorPipeWrite : ptr) (w : World) :
  Proc.m_blockedSignals self = Some sb ->
  let run := safe_fork_exec_child self argv errorPipeWrite w in
  child_execed argv (SignalBlocker.m_oldset sb) (w_sighup w) (fst run) (snd run).
Proof.
  intros Hsb. cbv zeta.
  set (Q := child_execed argv (SignalBlocker.m_oldset sb) (w_sighup w)).
  assert (HQ : exec_only Q) by apply child_execed_exec_only.
  change (wp (safe_fork_exec_child self argv errorPipeWrite) Q w).
  unfold safe_fork_exec_child. apply wp_guarded_then_exit; [exact HQ| |].
  { intros f. apply no_exec_bind; [apply no_exec_FD_get|]. intros fd.
    destruct (what f); [|apply no_exec_crash].
    apply no_exec_bind; [apply no_exec_sys_value|]. intros _.
    apply no_exec_ret. }
  set (P := fun (r : Result unit) (w1 : World) =>
              forall f a e, r = Halt (Execed f a e) ->
                            Q (Halt (Execed f a e)) w1).
  assert (HP : exec_only P).
  { intros r w1 Hr f a e E. now destruct (Hr f a e). }
  apply (wp_bind_quiet _ _ _ (w_sighup w)); try exact HP; try reflexivity.
  { destruct (Proc.m_newPGID self >=? 0); [|apply sig_pure_ret].
    apply sig_pure_bind; [apply sig_pure_sys_status|].
    intros r. apply sig_pure_CHECK. }
  { destruct (Proc.m_newPGID self >=? 0); [|apply no_exec_ret].
    apply no_exec_bind; [apply no_exec_sys_status|].
    intros r. apply no_exec_CHECK. }
  intros _ w1 H1.
  apply (wp_bind_quiet _ _ _ (w_sighup w)); try exact HP; try exact H1;
    [apply sig_pure_child_dup2|apply no_exec_child_dup2|].
  intros _ w2 H2.
  apply (wp_bind_quiet _ _ _ (w_sighup w)); try exact HP; try exact H2;
    [apply sig_pure_child_dup2|apply no_exec_child_dup2|].
  intros _ w3 H3.
  apply (wp_bind_quiet _ _ _ (w_sighup w)); try exact HP; try exact H3;
    [apply sig_pure_child_dup2|apply no_exec_child_dup2|].
  intros _ w4 H4.
  rewrite Hsb. unfold SignalBlocker_unblock.
  apply wp_bind, wp_bind, wp_sigprocmask.
  destruct (r_ret (answer w4 _) =? 0).
  - cbn [Z.eqb negb andb]. apply wp_ret.
    unfold do_execvp, execvp. apply wp_bind, wp_bind, wp_syscall.
    destruct (r_ret _ <? 0).
    + unfold fails. apply wp_bind, wp_modify, wp_ret, wp_throw_fmt.
      apply HP. discriminate.
    + apply wp_bind, wp_gets, wp_halt. cbn [pass].
      intros f a e [= <- <- <-] f' a' e' [= <- <- <-]. cbn. auto.
  - cbn [Z.eqb negb andb]. apply wp_throw_fmt. apply HP. discriminate.
Qed.

Lemma child_exec_signal_state_witness :
  let self := Proc.set_fork_args (Proc.make 0%nat) blocker_usr1 0 in
  let run := safe_fork_exec_child (A:=Z) self ["cat"%string] 1%nat
               (world_child kernel_ok) in
  fst run = Halt (Execed "cat" ["cat"%string] ["HOME=/root"%string])
  /\ w_sigmask (snd run) = 512
  /\ w_sighup (snd run) = ignore_action.
Proof.
  intros self run.
  assert (E : fst run
              = Halt (Execed "cat" ["cat"%string] ["HOME=/root"%string]))
    by reflexivity.
  split; [exact E|].
  destruct (child_exec_signal_state self blocker_usr1 ["cat"%string] 1%nat
              (world_child kernel_ok) eq_refl _ _ _ E) as (_ & _ & Hm & Hh).
  split; [exact Hm|exact Hh].
Defined.

(** * The setuid helper: privileges, and the run in which nothing fails *)

Lemma wp_bind_no_exec {A B} (m : M A) (k : A -> M B)
    (Q : Result B -> World -> Prop) w :
  no_exec m -> exec_only Q ->
  (forall a w1, wp (k a) Q w1) ->
  wp (bind m k) Q w.
Proof.
  intros Hn HQ Hk. apply wp_bind. pose proof (Hn w) as Hn'. unfold wp in *.
  destruct (fst (m w)) as [a|f|h|]; cbn [pass].
  - apply Hk.
  - apply HQ. discriminate.
  - apply HQ. intros f a e [= ->]. now apply (Hn' f a e).
  - apply HQ. discriminate.
Qed.

Lemma no_exec_usage progname : no_exec (usage progname).
Proof. unfold usage. repeat (apply no_exec_eprint || no_exec_step). Qed.

Lemma no_exec_putenv_all env : no_exec (putenv_all env).
Proof. intros w. unfold wp. rewrite putenv_all_run. discriminate. Qed.

(** The part of [main_namespace] from [getuid] on. *)
Lemma drop_then_exec progname env_args exec_args w :
  wp (let* uid := getuid in
      let* gid := getgid in
      let* ru := setresuid uid uid uid in
      let* ok := (if ru >=? 0 then
                    let* rg := setresgid gid gid gid in ret (rg >=? 0)
                  else ret false) in
      if negb ok then
        let* errno := gets w_errno in
        let* _ := eprint (progname +:+ ": setresuid/setresgid failed: "
                          +:+ strerror errno +:+ nl) in
        ret 1
      else
      let* _ := clearenv in
      let* _ := putenv_all env_args in
      let* r := execvp (exec_name exec_args) exec_args in
      if negb (negb (r =? -1)) then
        let* errno := gets w_errno in
        let* _ := eprint (progname +:+ ": cannot exec " +:+ exec_name exec_args
                          +:+ ": " +:+ strerror errno +:+ nl) in
        ret 1
      else ret 1)
     (fun r w' => forall f a e,
        r = Halt (Execed f a e) -> dropped_then_execed (w_trace w') f a) w.
Proof.
  set (Q := fun (r : Result Z) (w' : World) => forall f a e,
              r = Halt (Execed f a e) -> dropped_then_execed (w_trace w') f a).
  assert (HQ : exec_only Q).
  { intros r w' Hr f a e E. now destruct (Hr f a e). }
  assert (Hfail : forall msg w1,
            wp (let* errno := gets w_errno in
                let* _ := eprint (msg errno) in ret 1) Q w1).
  { intros msg w1. apply wp_no_exec; [|exact HQ].
    repeat (apply no_exec_eprint || no_exec_step). }
  unfold getuid, getgid, setresuid, setresgid.
  apply wp_bind, wp_bind, wp_syscall, wp_ret.
  apply wp_bind, wp_bind, wp_syscall, wp_ret.
  set (ru := answer w sys_getuid).
  set (w1 := logged w sys_getuid).
  set (rg := answer w1 sys_getgid).
  set (w2 := logged w1 sys_getgid).
  apply wp_bind, wp_sys_status.
  set (c1 := sys_setresuid (r_ret ru) (r_ret ru) (r_ret ru)).
  destruct (r_ret (answer w2 c1) =? 0) eqn:E1.
  2: { cbn [Z.geb Z.compare]. apply wp_bind, wp_ret. cbn [negb].
       apply (Hfail (fun errno => progname +:+ ": setresuid/setresgid failed: "
                                  +:+ strerror errno +:+ nl)). }
  cbn [Z.geb Z.compare]. apply wp_bind, wp_bind, wp_sys_status.
  set (w3 := logged w2 c1).
  set (c2 := sys_setresgid (r_ret rg) (r_ret rg) (r_ret rg)).
  destruct (r_ret (answer w3 c2) =? 0) eqn:E2.
  2: { apply wp_ret. cbn [Z.geb Z.compare negb].
       apply (Hfail (fun errno => progname +:+ ": setresuid/setresgid failed: "
                                  +:+ strerror errno +:+ nl)). }
  apply wp_ret. cbn [Z.geb Z.compare negb].
  set (w4 := logged w3 c2).
  unfold clearenv. apply wp_bind, wp_modify.
  apply wp_bind. unfold wp at 1. rewrite putenv_all_run. cbn [fst snd].
  unfold execvp. apply wp_bind, wp_bind, wp_syscall.
  destruct (r_ret _ <? 0).
  - unfold fails. apply wp_bind, wp_modify, wp_ret. cbn [Z.eqb negb].
    apply (Hfail (fun errno => progname +:+ ": cannot exec "
                               +:+ exec_name exec_args +:+ ": "
                               +:+ strerror errno +:+ nl)).
  - apply wp_bind, wp_gets, wp_halt. cbn [pass].
    intros f a e [= <- <- <-].
    exists (w_trace w), ru, rg, (answer w2 c1), (answer w3 c2).
    eexists. split; [|split; [now apply Z.eqb_eq|now apply Z.eqb_eq]].
    unfold logged. cbn [w_trace set_kernel_view set_environ].
    unfold w4, w3, w2, w1, logged. cbn [w_trace set_kernel_view].
    rewrite <- !app_assoc. reflexivity.
Qed.

(** The helper execs nothing before it has dropped its privileges:
    whatever its command line and whatever the kernel answers, if a run of
    [main] ends in a successful exec, the last calls before the [execvp]
    were [getuid], [getgid], [setresuid] and [setresgid] to the real ids,
    and both of these succeeded. *)
Theorem helper_execs_only_unprivileged (argv : list string) (w : World) :
  let run := main argv w in
  forall f a e,
    fst run = Halt (Execed f a e) ->
    dropped_then_execed (w_trace (snd run)) f a.
Proof.
  cbv zeta.
  set (Q := fun (r : Result Z) (w' : World) => forall f a e,
              r = Halt (Execed f a e) -> dropped_then_execed (w_trace w') f a).
  assert (HQ : exec_only Q).
  { intros r w' Hr f a e E. now destruct (Hr f a e). }
  change (wp (main argv) Q w).
  unfold main. apply wp_bind_no_exec; [apply no_exec_deref|exact HQ|].
  intros argv0 w0.
  destruct (length argv <=? 1)%nat;
    [apply wp_no_exec; [apply no_exec_usage|exact HQ]|].
  destruct (String.eqb _ _);
    [apply wp_no_exec; [apply no_exec_metadata|exact HQ]|].
  destruct (parse_args argv) as [[env_args ns_args] exec_args].
  destruct (length ns_args =? 0)%nat;
    [apply wp_no_exec; [apply no_exec_usage|exact HQ]|].
  unfold main_namespace, unshare, umount2, mount.
  assert (Hfail : forall msg w1,
            wp (let* errno := gets w_errno in
                let* _ := eprint (msg errno) in ret 1) Q w1).
  { intros msg w1. apply wp_no_exec; [|exact HQ].
    repeat (apply no_exec_eprint || no_exec_step). }
  apply wp_bind_no_exec; [apply no_exec_sys_status|exact HQ|]. intros r1 w1.
  destruct (negb _);
    [apply (Hfail (fun errno => basename argv0 +:+ ": unshare failed: "
                                +:+ strerror errno +:+ nl))|].
  apply wp_bind_no_exec; [apply no_exec_sys_status|exact HQ|]. intros r2 w2.
  destruct (negb _);
    [apply (Hfail (fun errno => basename argv0 +:+ ": umount2 tmpfs "
                                +:+ WITH_MOUNTPOINT +:+ " failed: "
                                +:+ strerror errno +:+ nl))|].
  apply wp_bind_no_exec; [apply no_exec_deref|exact HQ|]. intros name w3.
  apply wp_bind_no_exec; [apply no_exec_sys_status|exact HQ|]. intros r3 w4.
  destruct (negb _);
    [apply (Hfail (fun errno => basename argv0 +:+ ": mount tmpfs "
                                +:+ WITH_MOUNTPOINT +:+ " failed: "
                                +:+ strerror errno +:+ nl))|].
  apply wp_bind_no_exec; [apply no_exec_metadata|exact HQ|]. intros r4 w5.
  destruct (negb _); [apply wp_no_exec; [apply no_exec_ret|exact HQ]|].
  apply wp_bind_no_exec; [apply no_exec_fopen|exact HQ|]. intros fd w6.
  destruct (negb _);
    [apply (Hfail (fun errno => basename argv0
                                +:+ ": unable to write env metadata: "
                                +:+ strerror errno +:+ nl +:+ WITH_MOUNTPOINT
                                +:+ "/.env" +:+ nl))|].
  apply wp_bind_no_exec; [apply no_exec_write_tokens|exact HQ|]. intros _ w7.
  apply wp_bind_no_exec; [apply no_exec_fclose|exact HQ|]. intros _ w8.
  apply drop_then_exec.
Qed.

Lemma helper_execs_only_unprivileged_witness :
  let run := main (helper_argv "/usr/bin/exec_with_namespace"
                     ["/bin/true"%string] ["nsA"; "bin=/usr/local/bin"]%string
                     ["PATH=/bin"%string]) (world0 kernel_ok) in
  fst run = Halt (Execed "/bin/true" ["/bin/true"%string] ["PATH=/bin"%string])
  /\ dropped_then_execed (w_trace (snd run)) "/bin/true" ["/bin/true"%string].
Proof.
  intros run.
  assert (E : fst run = Halt (Execed "/bin/true" ["/bin/true"%string]
                                ["PATH=/bin"%string]))
    by (vm_compute; reflexivity).
  split; [exact E|].
  exact (helper_execs_only_unprivileged _ _ _ _ _ E).
Defined.





(** * The helper: command lines it refuses, and calls that fail *)

Lemma scan_back_run (stop : string -> bool) (p0 : string) (suf : list string) :
  forall seg acc rounds,
    Forall (fun x => stop x = false) seg ->
    (length seg <= rounds)%nat ->
    scan_back (p0 :: seg ++ suf) stop rounds (Z.of_nat (length seg)) acc
    = (0, seg ++ acc).
Proof.
  intros seg. revert suf.
  induction seg as [|x seg IH] using rev_ind; intros suf acc rounds Hseg Hr.
  - destruct rounds; reflexivity.
  - apply Forall_app in Hseg as [Hseg Hx]. inversion Hx as [|? ? Hx' _]; subst.
    rewrite length_app in *. cbn [length] in *.
    destruct rounds as [|n]; [lia|]. cbn [scan_back].
    destruct (Z.gtb_spec (Z.of_nat (length seg + 1)) 0); [|lia].
    rewrite Nat2Z.id.
    replace (p0 :: (seg ++ [x]) ++ suf) with ((p0 :: seg) ++ x :: suf)
      by (rewrite <- !app_assoc; reflexivity).
    rewrite list_lookup_middle by (cbn [length]; lia).
    rewrite Hx'.
    replace (Z.of_nat (length seg + 1) - 1) with (Z.of_nat (length seg)) by lia.
    cbn [app]. rewrite (IH (x :: suf) (x :: acc) n Hseg) by lia.
    now rewrite <- app_assoc.
Qed.

(** A command line without any [--] (and not of the [--init.d] form) has
    no namespace section: the helper prints its usage text, returns 1,
    and does nothing else.  So does a command line with no argument at
    all. *)
Theorem main_without_sections_is_usage (progname : string)
    (args : list string) (w : World) :
  Forall (fun x => is_dashdash x = false) args ->
  head args <> Some "--init.d"%string ->
  main (progname :: args) w
  = (Ok 1, logged w (sys_eprint (usage_text (basename progname)))).
Proof.
  intros Hargs Hinit. unfold main. cbn [head deref]. unfold ret at 1.
  unfold bind at 1.
  destruct args as [|a args]; [reflexivity|].
  cbn [length Nat.leb nth].
  replace (String.eqb a "--init.d") with false
    by (symmetry; apply String.eqb_neq; intros ->; now apply Hinit).
  unfold parse_args.
  replace (Z.of_nat (length (progname :: a :: args)) - 1)
    with (Z.of_nat (length (a :: args))) by (cbn [length]; lia).
  rewrite Nat2Z.id.
  pose proof (scan_back_run is_dashdash progname [] (a :: args) []
                (length (a :: args)) Hargs (le_n _)) as Hscan.
  rewrite !app_nil_r in Hscan. rewrite Hscan.
  cbn [Z.sub Z.add Z.opp Z.to_nat scan_back Z.pos_sub length Nat.eqb].
  reflexivity.
Qed.

Lemma main_without_sections_is_usage_witness :
  main ["/usr/bin/exec_with_namespace"; "ls"; "-l"]%string (world0 kernel_ok)
  = (Ok 1, logged (world0 kernel_ok)
             (sys_eprint (usage_text "exec_with_namespace"))).
Proof.
  apply (main_without_sections_is_usage "/usr/bin/exec_with_namespace"
           ["ls"; "-l"]%string (world0 kernel_ok)).
  - repeat constructor.
  - discriminate.
Defined.

Lemma prefix_n_prefix_n (n m : nat) (s : string) :
  prefix_n n (prefix_n m s) = prefix_n (Nat.min n m) s.
Proof.
  revert m s; induction n as [|n IH]; intros [|m] [|c s]; cbn; try reflexivity.
  now rewrite IH.
Qed.

Lemma mkdir_p_rec_last (mode : Z) (depth : nat) : forall dir w,
  exists r w' pre resp,
    mkdir_p_rec depth dir mode w = (Ok r, w')
    /\ w_trace w' = w_trace w ++ pre ++ [(sys_mkdir dir mode, resp)]
    /\ r = (if r_ret resp =? 0 then 0 else -1)
    /\ Forall (fun e => is_mkdir_of_prefix dir mode (fst e)) pre.
Proof.
  induction depth as [|depth IH]; intros dir w.
  all: cbn [mkdir_p_rec]; unfold mkdir.
  all: destruct (Z.eqb_spec (r_ret (answer w (sys_mkdir dir mode))) 0) as [E|E].
  all: try (rewrite (bind_ok _ _ _ _ _ (sys_status_ok _ _ E));
            unfold gets at 1; unfold bind at 1; cbn [Z.ltb Z.compare andb ret];
            exists 0, (logged w (sys_mkdir dir mode)), [],
              (answer w (sys_mkdir dir mode));
            rewrite E; cbn [Z.eqb]; repeat split; constructor).
  all: rewrite (bind_ok _ _ _ _ _ (sys_status_fail _ _ E)).
  all: unfold gets at 1; unfold bind at 1; cbn [Z.ltb Z.compare andb w_errno
                                                 set_errno set_kernel_view].
  all: set (w1 := set_errno (logged w (sys_mkdir dir mode))
                    (r_errno (answer w (sys_mkdir dir mode)))).
  all: assert (Hstop : exists r w' pre resp,
                 ret (A:=Z) (-1) w1 = (Ok r, w')
                 /\ w_trace w' = w_trace w ++ pre ++ [(sys_mkdir dir mode, resp)]
                 /\ r = (if r_ret resp =? 0 then 0 else -1)
                 /\ Forall (fun e => is_mkdir_of_prefix dir mode (fst e)) pre)
         by (exists (-1), w1, [], (answer w (sys_mkdir dir mode));
             apply Z.eqb_neq in E; rewrite E; repeat split; constructor).
  all: destruct (r_errno (answer w (sys_mkdir dir mode)) =? ENOENT);
    [|exact Hstop].
  all: destruct (rfind_char "/" dir) as [slash|]; [|exact Hstop].
  - exact Hstop.
  - clear Hstop.
    destruct (IH (prefix_n slash dir) w1) as (r0 & w2 & pre0 & resp0 & E0 & T0 & _ & P0).
    rewrite (bind_ok _ _ _ _ _ E0).
    exists (if r_ret (answer w2 (sys_mkdir dir mode)) =? 0 then 0 else -1).
    exists (if r_ret (answer w2 (sys_mkdir dir mode)) =? 0
            then logged w2 (sys_mkdir dir mode)
            else set_errno (logged w2 (sys_mkdir dir mode))
                   (r_errno (answer w2 (sys_mkdir dir mode)))).
    exists ((sys_mkdir dir mode, answer w (sys_mkdir dir mode))
            :: pre0 ++ [(sys_mkdir (prefix_n slash dir) mode, resp0)]).
    exists (answer w2 (sys_mkdir dir mode)).
    split; [|split; [|split; [reflexivity|]]].
    + unfold sys_status, bind, syscall.
      fold (answer w2 (sys_mkdir dir mode)).
      destruct (r_ret (answer w2 (sys_mkdir dir mode)) =? 0); reflexivity.
    + assert (T2 : w_trace (logged w2 (sys_mkdir dir mode))
                   = w_trace w2 ++ [(sys_mkdir dir mode,
                                     answer w2 (sys_mkdir dir mode))])
        by reflexivity.
      destruct (r_ret (answer w2 (sys_mkdir dir mode)) =? 0);
        rewrite ?trace_set_errno, T2, T0; unfold w1;
        rewrite trace_set_errno; unfold logged; cbn [w_trace set_kernel_view];
        rewrite <- ?app_assoc; cbn [app]; rewrite <- ?app_assoc; reflexivity.
    + constructor.
      * exists (String.length dir). cbn [fst].
        now rewrite prefix_n_all.
      * apply Forall_app. split.
        -- eapply Forall_impl; [exact P0|]. intros e [n Hn].
           exists (Nat.min n slash). rewrite Hn. now rewrite prefix_n_prefix_n.
        -- constructor; [|constructor]. now exists slash.
Qed.

Lemma rfind_char_lt (c : ascii) (s : string) (i : nat) :
  rfind_char c s = Some i -> (i < String.length s)%nat.
Proof.
  revert i; induction s as [|d s IH]; intros i; cbn; [discriminate|].
  destruct (rfind_char c s) as [j|].
  - intros [= <-]. specialize (IH j eq_refl). lia.
  - destruct (Ascii.eqb d c); [intros [= <-]; lia|discriminate].
Qed.

Lemma bind_ext {A B} (m : M A) (k1 k2 : A -> M B) w :
  (forall a w1, k1 a w1 = k2 a w1) -> bind m k1 w = bind m k2 w.
Proof. intros H. unfold bind. destruct (m w) as [[a|f|h|] w1]; auto. Qed.

(** The recursion of [mkdir_p] is on a shorter path each time, so the
    bound on its depth is never what stops it. *)
Lemma mkdir_p_rec_depth (mode : Z) (d1 : nat) : forall d2 dir w,
  (String.length dir <= d1)%nat -> (String.length dir <= d2)%nat ->
  mkdir_p_rec d1 dir mode w = mkdir_p_rec d2 dir mode w.
Proof.
  induction d1 as [|d1 IH]; intros d2 dir w H1 H2.
  - destruct dir; [|cbn in H1; lia].
    destruct d2; cbn [mkdir_p_rec rfind_char]; reflexivity.
  - destruct d2 as [|d2].
    + destruct dir; [|cbn in H2; lia]. cbn [mkdir_p_rec rfind_char].
      reflexivity.
    + cbn [mkdir_p_rec]. apply bind_ext. intros r w1.
      apply bind_ext. intros errno w2.
      destruct ((r <? 0) && (errno =? ENOENT)); [|reflexivity].
      destruct (rfind_char "/" dir) as [slash|] eqn:E; [|reflexivity].
      apply rfind_char_lt in E.
      pose proof (length_prefix_n slash dir).
      unfold bind. rewrite (IH d2) by lia. reflexivity.
Qed.

(** [mkdir_p] always returns, and what it returns is the outcome of its
    last call, a [mkdir] of the full path: 0 if that call worked and -1
    if not.  The calls before it are [mkdir]s of the path, or of the path
    cut short, whose outcome is not looked at again.  A deeper bound on
    the recursion gives the same run. *)
Theorem mkdir_p_returns_last_mkdir (dir : string) (mode : Z) (w : World) :
  exists r w' pre resp,
    mkdir_p dir mode w = (Ok r, w')
    /\ w_trace w' = w_trace w ++ pre ++ [(sys_mkdir dir mode, resp)]
    /\ r = (if r_ret resp =? 0 then 0 else -1)
    /\ Forall (fun e => is_mkdir_of_prefix dir mode (fst e)) pre
    /\ (forall depth, (String.length dir <= depth)%nat ->
                      mkdir_p_rec depth dir mode w = (Ok r, w')).
Proof.
  destruct (mkdir_p_rec_last mode (String.length dir) dir w)
    as (r & w' & pre & resp & E & T & R & P).
  exists r, w', pre, resp. repeat split; try assumption.
  intros depth Hd. rewrite <- E. apply mkdir_p_rec_depth; lia.
Qed.

(** ** A pair that is malformed, a metadata file that cannot be opened *)

Lemma create_symlink_links_ok progname p w :
  links_ok (w_kernel w) -> wf_pair p = true ->
  exists w', create_symlink progname p w = (Ok None, w')
    /\ w_kernel w' = w_kernel w
    /\ calls (w_trace w') = calls (w_trace w) ++ pair_calls p.
Proof.
  intros Hk Hwf. unfold create_symlink, pair_calls, mount_path, parent_dir,
    pair_source, pair_target. unfold wf_pair in Hwf.
  destruct (find_char "=" p) as [i|]; [|discriminate]. rewrite Hwf.
  destruct (rfind_mount_path (prefix_n i p)) as [j ->].
  set (path := WITH_MOUNTPOINT +:+ "/" +:+ prefix_n i p).
  set (dir := prefix_n j path).
  assert (H1 : r_ret (answer w (sys_mkdir dir mode_0755)) = 0)
    by apply (Hk (w_trace w) (sys_mkdir dir mode_0755)).
  rewrite (bind_ok _ _ _ _ _
             (bind_ok _ _ _ _ _ (mkdir_p_ok _ _ _ H1))).
  unfold gets at 1. cbn [bind]. cbn [Z.geb Z.compare orb ret].
  set (w1 := logged w (sys_mkdir dir mode_0755)).
  assert (H2 : r_ret (answer w1 (sys_symlink (suffix_from (S i) p) path)) = 0)
    by apply (Hk (w_trace w1) (sys_symlink (suffix_from (S i) p) path)).
  unfold symlink. rewrite (bind_ok _ _ _ _ _ (sys_status_ok _ _ H2)).
  cbn [Z.geb Z.compare ret].
  eexists; split; [reflexivity|]. split; [reflexivity|].
  unfold w1, logged. cbn [w_trace set_kernel_view].
  rewrite !calls_app, <- app_assoc. reflexivity.
Qed.

Lemma create_symlink_malformed progname p w :
  wf_pair p = false ->
  create_symlink progname p w
  = (Ok (Some 1), logged w (sys_eprint (malformed_pair_text progname p))).
Proof.
  intros Hwf. unfold create_symlink. unfold wf_pair in Hwf.
  destruct (find_char "=" p) as [i|]; [rewrite Hwf|]; reflexivity.
Qed.

(** The symlink loop over well-formed pairs followed by anything:
    [Some stop] is a first malformed pair. *)
Lemma create_symlinks_prefix progname good (stop : option string) rest :
  forall w,
    links_ok (w_kernel w) -> forallb wf_pair good = true ->
    match stop with
    | Some bad => wf_pair bad = false
    | None => rest = []
    end ->
    exists w',
      create_symlinks progname
        (good ++ match stop with Some bad => bad :: rest | None => [] end) w
      = (Ok (match stop with Some _ => Some 1 | None => None end), w')
      /\ w_kernel w' = w_kernel w
      /\ calls (w_trace w')
         = calls (w_trace w) ++ flat_map pair_calls good
           ++ match stop with
              | Some bad => [sys_eprint (malformed_pair_text progname bad)]
              | None => []
              end.
Proof.
  induction good as [|p good IH]; intros w Hk Hwf Hstop.
  - cbn [app flat_map]. destruct stop as [bad|].
    + cbn [create_symlinks]. rewrite (bind_ok _ _ _ _ _
                                        (create_symlink_malformed _ _ _ Hstop)).
      eexists. split; [reflexivity|]. split; [reflexivity|]. apply calls_logged.
    + exists w. rewrite app_nil_r. auto.
  - cbn [forallb] in Hwf. apply andb_prop in Hwf as [Hp Hps].
    destruct (create_symlink_links_ok progname p w Hk Hp) as (w1 & E1 & K1 & T1).
    destruct (IH w1) as (w2 & E2 & K2 & T2);
      [now rewrite K1 | assumption | assumption |].
    exists w2. cbn [app create_symlinks]. rewrite (bind_ok _ _ _ _ _ E1).
    split; [exact E2|]. split; [congruence|].
    rewrite T2, T1. cbn [flat_map]. rewrite <- !app_assoc. reflexivity.
Qed.




(** The check after [fopen] compares the stream with 0 by [>=], which a
    null pointer passes.  When the metadata file cannot be opened, the
    helper therefore prints no diagnostic: it goes on to [fprintf] on the
    null stream, having made the symlinks. *)
Theorem metadata_fopen_failure_is_not_reported (progname : string)
    (ns_args : list string) (w : World) :
  links_ok (w_kernel w) -> fopen_fails (w_kernel w) ->
  ns_args <> [] ->
  forallb wf_pair (tl ns_args) = true ->
  exists w',
    create_symlinks_and_metadata progname ns_args w = (Halt Crashed, w')
    /\ calls (w_trace w')
       = calls (w_trace w) ++ flat_map pair_calls (tl ns_args)
         ++ [sys_fopen (WITH_MOUNTPOINT +:+ "/.ns") "w"].
Proof.
  intros Hk Hf Hne Hwf.
  destruct (create_symlinks_prefix progname (tl ns_args) None [] w Hk Hwf eq_refl)
    as (w1 & E & K & T).
  rewrite !app_nil_r in *.
  unfold create_symlinks_and_metadata. rewrite (bind_ok _ _ _ _ _ E).
  set (path := WITH_MOUNTPOINT +:+ "/.ns").
  assert (Hr : r_ret (answer w1 (sys_fopen path "w")) <= 0)
    by (unfold answer; rewrite K; apply Hf).
  assert (Hopen : fopen path "w" w1
                  = (Ok 0, set_errno (logged w1 (sys_fopen path "w"))
                             (r_errno (answer w1 (sys_fopen path "w"))))).
  { unfold fopen, bind, syscall. fold (answer w1 (sys_fopen path "w")).
    destruct (Z.leb_spec (r_ret (answer w1 (sys_fopen path "w"))) 0); [|lia].
    reflexivity. }
  rewrite (bind_ok _ _ _ _ _ Hopen). cbn [Z.geb Z.compare].
  destruct ns_args as [|a ns]; [congruence|].
  cbn [write_tokens]. unfold fputs. cbn [Z.eqb]. unfold bind, halt.
  eexists. split; [reflexivity|].
  rewrite trace_set_errno, calls_logged, T, <- app_assoc. reflexivity.
Qed.

Lemma metadata_fopen_failure_is_not_reported_witness :
  exists w',
    create_symlinks_and_metadata "exec_with_namespace"
      ["nsA"; "bin=/usr/local/bin"]%string (world0 kernel_readonly)
    = (Halt Crashed, w')
    /\ calls (w_trace w')
       = calls (w_trace (world0 kernel_readonly))
         ++ flat_map pair_calls (tl ["nsA"; "bin=/usr/local/bin"]%string)
         ++ [sys_fopen (WITH_MOUNTPOINT +:+ "/.ns") "w"].
Proof.
  apply (metadata_fopen_failure_is_not_reported "exec_with_namespace"
           ["nsA"; "bin=/usr/local/bin"]%string (world0 kernel_readonly)).
  - intros h c. destruct c; cbn; try exact I; reflexivity.
  - intros h path mode. cbn. lia.
  - discriminate.
  - reflexivity.
Defined.

(** * The destructors of SignalBlocker and LockFile *)

(** [~SignalBlocker] while an exception is in flight makes both of its
    calls and throws nothing, whatever they answer, so leaving a scope by
    exception cannot end in [std::terminate] on its account.  Outside of
    unwinding, a [sigprocmask] that fails makes it throw at once: the
    [sigaction] is not made and SIGHUP stays as it is. *)
Theorem SignalBlocker_dtor_unwinding (sb : SignalBlocker.t) (w : World) :
  let c1 := sys_sigprocmask SIG_SETMASK (SignalBlocker.m_oldset sb) in
  let c2 := sys_sigaction SIGHUP (SignalBlocker.m_oldHUPAction sb) in
  (fst (SignalBlocker_dtor sb true w) = Ok tt
   /\ calls (w_trace (snd (SignalBlocker_dtor sb true w)))
      = calls (w_trace w) ++ [c1; c2])
  /\ (r_ret (answer w c1) <> 0 ->
      fst (SignalBlocker_dtor sb false w)
      = Throw (failure_fmt ("sigprocmask failed: "
                            +:+ strerror (r_errno (answer w c1))))
      /\ calls (w_trace (snd (SignalBlocker_dtor sb false w)))
         = calls (w_trace w) ++ [c1]
      /\ sig_state (snd (SignalBlocker_dtor sb false w)) = sig_state w).
Proof.
  cbv zeta. split.
  - change (wp (SignalBlocker_dtor sb true)
              (fun r w' =>
                 r = Ok tt
                 /\ calls (w_trace w')
                    = calls (w_trace w)
                      ++ [sys_sigprocmask SIG_SETMASK (SignalBlocker.m_oldset sb);
                          sys_sigaction SIGHUP
                            (SignalBlocker.m_oldHUPAction sb)]) w).
    unfold SignalBlocker_dtor, SignalBlocker_unblock.
    apply wp_bind, wp_bind, wp_sigprocmask.
    destruct (r_ret _ =? 0); cbn [negb andb Z.eqb]; rewrite ?andb_false_r;
      apply wp_ret; apply wp_bind, wp_sigaction;
      destruct (r_ret _ =? 0); cbn [negb andb Z.eqb]; rewrite ?andb_false_r;
      apply wp_ret; (split; [reflexivity|]).
    all: rewrite ?Z.eqb_refl.
    all: cbn [w_trace set_sighup set_sigmask set_errno set_kernel_view logged].
    all: rewrite !calls_app, <- app_assoc; reflexivity.
  - intros Hfail.
    change (wp (SignalBlocker_dtor sb false)
              (fun r w' =>
                 r = Throw (failure_fmt
                              ("sigprocmask failed: "
                               +:+ strerror
                                     (r_errno
                                        (answer w
                                           (sys_sigprocmask SIG_SETMASK
                                              (SignalBlocker.m_oldset sb))))))
                 /\ calls (w_trace w')
                    = calls (w_trace w)
                      ++ [sys_sigprocmask SIG_SETMASK (SignalBlocker.m_oldset sb)]
                 /\ sig_state w' = sig_state w) w).
    unfold SignalBlocker_dtor, SignalBlocker_unblock.
    apply wp_bind, wp_bind, wp_sigprocmask.
    apply Z.eqb_neq in Hfail. rewrite Hfail. cbn [negb andb Z.eqb].
    apply wp_throw_fmt. cbn [pass]. split; [reflexivity|].
    split; [|reflexivity]. rewrite trace_set_errno. apply calls_logged.
Qed.

Lemma SignalBlocker_dtor_unwinding_witness :
  (fst (SignalBlocker_dtor blocker_usr1 true (world_child kernel_gate_fails))
   = Ok tt
   /\ calls (w_trace (snd (SignalBlocker_dtor blocker_usr1 true
                             (world_child kernel_gate_fails))))
      = [sys_sigprocmask SIG_SETMASK 512; sys_sigaction SIGHUP default_action])
  /\ (let k : Kernel := fun _ c =>
        match c with sys_sigprocmask _ _ => resp_err 22 | _ => resp 0 end in
      fst (SignalBlocker_dtor blocker_usr1 false (world_child k))
      = Throw (failure_fmt "sigprocmask failed: Invalid argument")
      /\ calls (w_trace (snd (SignalBlocker_dtor blocker_usr1 false
                                (world_child k))))
         = [sys_sigprocmask SIG_SETMASK 512]
      /\ sig_state (snd (SignalBlocker_dtor blocker_usr1 false (world_child k)))
         = (Z.lor 512 86023, ignore_action)).
Proof.
  split.
  - apply (proj1 (SignalBlocker_dtor_unwinding blocker_usr1
                    (world_child kernel_gate_fails))).
  - intros k.
    apply (proj2 (SignalBlocker_dtor_unwinding blocker_usr1 (world_child k))).
    discriminate.
Defined.

(** ** A lock that is held by someone else *)

Section LockFile_busy.

Variables (w : World) (m_fd : ptr) (file : string).
Variables (fd fdflags : Z).

Hypothesis fresh : h_fd w !! m_fd = Some (-1).
Hypothesis fd_valid : 0 <= fd.
Hypothesis fdflags_valid : 0 <= fdflags.
Hypothesis open_answer : forall h,
  r_ret (w_kernel w h (sys_open file (Z.lor O_CREAT O_RDWR) mode_0666)) = fd.
Hypothesis getfd_answer : forall h,
  r_ret (w_kernel w h (sys_fcntl fd F_GETFD 0)) = fdflags.
Hypothesis setfd_answer : forall h,
  0 <= r_ret (w_kernel w h (sys_fcntl fd F_SETFD (Z.lor fdflags FD_CLOEXEC))).
Hypothesis flock_refused : forall h,
  r_ret (w_kernel w h (sys_flock fd (Z.lor LOCK_EX LOCK_NB))) <> 0.
Hypothesis close_answer : forall h, r_ret (w_kernel w h (sys_close fd)) = 0.

(** When the lock is refused, [LockFile::open] has closed the file and
    left the LockFile without a descriptor when it throws; the destructor
    of such a LockFile makes no call at all.  From [open] to destruction
    the file is neither truncated nor written: the pid of the process
    that holds the lock stays in it. *)
Theorem LockFile_busy_is_left_alone :
  let opened := LockFile_open m_fd file w in
  let destroyed := LockFile_dtor m_fd (snd opened) in
  (exists f, fst opened = Throw f)
  /\ calls (w_trace (snd opened))
     = calls (w_trace w) ++ locking_calls file fd fdflags ++ [sys_close fd]
  /\ h_fd (snd opened) !! m_fd = Some (-1)
  /\ fst destroyed = Ok tt
  /\ w_trace (snd destroyed) = w_trace (snd opened).
Proof.
  cbv zeta.
  rewrite (LockFile_open_locking w m_fd file fd fdflags fresh fd_valid
             fdflags_valid open_answer getfd_answer setfd_answer).
  destruct (w_open_facts w m_fd file fd fdflags fresh) as (K & Hfd & T).
  set (w1 := world_lock_opened w m_fd file fd fdflags) in *.
  set (c := sys_flock fd (Z.lor LOCK_EX LOCK_NB)).
  assert (Hl : r_ret (answer w1 c) <> 0)
    by (unfold answer; rewrite K; apply flock_refused).
  unfold flock. rewrite (bind_ok _ _ _ _ _ (sys_status_fail _ _ Hl)).
  cbn [Z.eqb negb].
  set (w2 := set_errno (logged w1 c) (r_errno (answer w1 c))).
  assert (Hfd2 : h_fd w2 !! m_fd = Some fd) by exact Hfd.
  assert (Hc : r_ret (answer w2 (sys_close fd)) = 0)
    by (unfold answer; change (w_kernel w2) with (w_kernel w1); rewrite K;
        apply close_answer).
  assert (Hne : fd <> -1) by lia.
  rewrite (bind_ok _ _ _ _ _ (FD_reset_close_run _ _ _ _ Hfd2 Hne Hc)).
  set (w3 := set_h_fd (logged w2 (sys_close fd)) (<[m_fd := -1]> (h_fd w2))).
  assert (Hfd3 : h_fd w3 !! m_fd = Some (-1)).
  { unfold w3. cbn [h_fd set_h_fd]. apply list_lookup_insert_eq.
    eapply lookup_lt_Some, Hfd2. }
  assert (Hrun : exists f,
            (let* errno := gets w_errno in
             if errno =? EWOULDBLOCK
             then @throw_fmt unit (fun _ => already_running_msg file)
             else throw_fmt (fun _ => unable_to_lock_msg file)) w3
            = (Throw f, w3)).
  { unfold bind, gets. destruct (w_errno w3 =? EWOULDBLOCK); eexists; reflexivity. }
  destruct Hrun as [f Hrun]. rewrite Hrun. cbn [fst snd].
  split; [now exists f|]. split; [|split; [exact Hfd3|]].
  - unfold w3. rewrite trace_set_h_fd, calls_logged. unfold w2.
    rewrite trace_set_errno, calls_logged, T. unfold locking_calls, c.
    rewrite <- !app_assoc. reflexivity.
  - assert (Hbody :
      (let* ok := FD_isOk m_fd in
       if ok then
         let* fd := FD_get m_fd in
         let* _ := ftruncate fd 0 in
         FD_reset m_fd (-1)
       else ret tt) w3 = (Ok tt, w3)).
    { rewrite (bind_ok _ _ _ _ _ (FD_isOk_run _ _ _ Hfd3)). reflexivity. }
    assert (Hd : FD_dtor m_fd w3 = (Ok tt, set_h_fd w3 (<[m_fd := -1]> (h_fd w3)))).
    { unfold FD_dtor, try_catch. now rewrite (FD_reset_fresh_run _ _ _ Hfd3). }
    unfold LockFile_dtor, finally. rewrite Hbody, Hd. cbn [fst snd].
    split; reflexivity.
Qed.

End LockFile_busy.

Lemma LockFile_busy_is_left_alone_witness :
  let w := world_lock (kernel_flock (resp_err EWOULDBLOCK)) in
  let opened := LockFile_open 0%nat "/var/run/app.pid" w in
  let destroyed := LockFile_dtor 0%nat (snd opened) in
  (exists f, fst opened = Throw f)
  /\ calls (w_trace (snd opened))
     = calls (w_trace w) ++ locking_calls "/var/run/app.pid" 5 0 ++ [sys_close 5]
  /\ h_fd (snd opened) !! 0%nat = Some (-1)
  /\ fst destroyed = Ok tt
  /\ w_trace (snd destroyed) = w_trace (snd opened).
Proof.
  intros w.
  apply (LockFile_busy_is_left_alone w 0%nat "/var/run/app.pid" 5 0);
    try reflexivity; try lia; intros h; cbn; try lia; discriminate.
Defined.

(** * The harvester: nothing to wait for, everything already exited *)

Lemma harvest_scan_none_running (procs : list Proc.t) (left : bool) (w : World) :
  none_running w procs -> harvest_scan procs left w = (Ok left, w).
Proof.
  induction 1 as [|P procs (spec & Hs & Hr) _ IH]; [reflexivity|].
  cbn [harvest_scan]. unfold load_proc_spec.
  rewrite (bind_ok _ _ _ _ _ (load_run _ _ _ _ Hs)). rewrite Hr. exact IH.
Qed.

(** A harvester none of whose processes runs (none was started, or all
    were reaped) has nothing to wait for: [harvest] returns without a
    system call, so without waiting for a signal, and the destructor only
    empties the list of processes. *)
Theorem harvest_without_children (fuel : nat) (self : ptr)
    (H : ProcHarvester.t) (w : World) :
  h_harvester w !! self = Some H ->
  none_running w (ProcHarvester.m_procs H) ->
  harvest (S fuel) self w = (Ok tt, w)
  /\ ProcHarvester_dtor (S fuel) self w
     = (Ok tt,
        set_h_harvester w
          (<[self := {| ProcHarvester.m_procs := [];
                        ProcHarvester.m_sigset := ProcHarvester.m_sigset H |}]>
             (h_harvester w))).
Proof.
  intros HH Hnone.
  assert (Hrun : harvest (S fuel) self w = (Ok tt, w)).
  { cbn [harvest]. unfold load_harvester.
    rewrite (bind_ok _ _ _ _ _ (load_run _ _ _ _ HH)).
    rewrite (bind_ok _ _ _ _ _ (harvest_scan_none_running _ _ _ Hnone)).
    reflexivity. }
  split; [exact Hrun|].
  unfold ProcHarvester_dtor.
  assert (Htry : try_catch (harvest (S fuel) self) (fun _ => ret tt) w = (Ok tt, w))
    by (unfold try_catch; now rewrite Hrun).
  rewrite (bind_ok _ _ _ _ _ Htry). unfold load_harvester.
  rewrite (bind_ok _ _ _ _ _ (load_run _ _ _ _ HH)).
  apply (store_run _ _ _ H). exact HH.
Qed.

Lemma harvest_without_children_witness :
  let H := {| ProcHarvester.m_procs := [Proc.make 0%nat];
              ProcHarvester.m_sigset := 86023 |} in
  let w := set_h_harvester (world_before_fork kernel_ok) [H] in
  harvest 1 0%nat w = (Ok tt, w)
  /\ ProcHarvester_dtor 1 0%nat w
     = (Ok tt,
        set_h_harvester w
          [{| ProcHarvester.m_procs := []; ProcHarvester.m_sigset := 86023 |}]).
Proof.
  intros H w.
  apply (harvest_without_children 0 0%nat H w); [reflexivity|].
  constructor; [|constructor]. exists proc_cat. split; reflexivity.
Defined.

Lemma running_set_exited (s : daemon_proc_spec.t) (status : Z) :
  daemon_proc_spec.running (daemon_proc_spec.set_exited s status) = false.
Proof. unfold daemon_proc_spec.running. cbn. apply andb_false_r. Qed.

Lemma reaped_nil st (l : list daemon_proc_spec.t) : imap (reaped st []) l = l.
Proof.
  apply list_eq. intros i. rewrite list_lookup_imap.
  destruct (l !! i) as [s|]; [|reflexivity]. cbn. unfold reaped.
  rewrite bool_decide_eq_false_2 by (cbn; apply not_elem_of_nil).
  now rewrite andb_false_r.
Qed.

Lemma mem_specs_cons_ne (P : Proc.t) (rest : list Proc.t) (i : ptr) :
  i <> Proc.m_spec P ->
  bool_decide (i ∈ map Proc.m_spec (P :: rest))
  = bool_decide (i ∈ map Proc.m_spec rest).
Proof.
  intros Hne. apply bool_decide_ext. cbn [map]. rewrite elem_of_cons. tauto.
Qed.

Lemma reaped_skip st P rest (l : list daemon_proc_spec.t) s :
  l !! Proc.m_spec P = Some s ->
  daemon_proc_spec.running s = false ->
  imap (reaped st (P :: rest)) l = imap (reaped st rest) l.
Proof.
  intros Hs Hr. apply list_eq. intros i. rewrite !list_lookup_imap.
  destruct (l !! i) as [si|] eqn:Hi; [|reflexivity]. cbn. f_equal.
  unfold reaped. destruct (decide (i = Proc.m_spec P)) as [->|Hne].
  - rewrite Hs in Hi. injection Hi as <-. now rewrite Hr.
  - now rewrite mem_specs_cons_ne.
Qed.

Lemma reaped_step st P rest (l : list daemon_proc_spec.t) s :
  l !! Proc.m_spec P = Some s ->
  daemon_proc_spec.running s = true ->
  imap (reaped st rest)
    (<[Proc.m_spec P :=
         daemon_proc_spec.set_exited s (st (daemon_proc_spec.m_pid s))]> l)
  = imap (reaped st (P :: rest)) l.
Proof.
  intros Hs Hr. apply list_eq. intros i. rewrite !list_lookup_imap.
  destruct (decide (i = Proc.m_spec P)) as [->|Hne].
  - rewrite list_lookup_insert_eq by (eapply lookup_lt_Some, Hs).
    rewrite Hs. cbn. f_equal. unfold reaped.
    rewrite running_set_exited, Hr. cbn [andb].
    rewrite bool_decide_eq_true_2 by (cbn [map]; rewrite elem_of_cons; now left).
    reflexivity.
  - rewrite list_lookup_insert_ne by congruence.
    destruct (l !! i) as [si|]; [|reflexivity]. cbn. f_equal.
    unfold reaped. now rewrite mem_specs_cons_ne.
Qed.

Lemma harvest_scan_reaps (st : Z -> Z) (procs : list Proc.t) :
  forall (left : bool) (w : World),
    specs_valid w procs ->
    all_exited (w_kernel w) st ->
    exists w' t,
      harvest_scan procs left w = (Ok left, w')
      /\ w_kernel w' = w_kernel w
      /\ h_harvester w' = h_harvester w
      /\ h_proc_spec w' = imap (reaped st procs) (h_proc_spec w)
      /\ w_trace w' = w_trace w ++ t
      /\ forallb is_waitpid_nohang (map fst t) = true.
Proof.
  induction procs as [|P rest IH]; intros left w Hv Hk.
  - exists w, []. rewrite reaped_nil, app_nil_r. repeat split.
  - inversion Hv as [|? ? [s Hs] Hv']; subst.
    cbn [harvest_scan]. unfold load_proc_spec.
    rewrite (bind_ok _ _ _ _ _ (load_run _ _ _ _ Hs)).
    destruct (daemon_proc_spec.running s) eqn:Hr; cbn [negb].
    + set (c := sys_waitpid (daemon_proc_spec.m_pid s) WNOHANG).
      destruct (Hk (w_trace w) (daemon_proc_spec.m_pid s)) as [Hpos Hst].
      fold c in Hpos, Hst. fold (answer w c) in Hpos, Hst.
      assert (Hwait : waitpid (daemon_proc_spec.m_pid s) WNOHANG w
                      = (Ok (r_ret (answer w c),
                             st (daemon_proc_spec.m_pid s)), logged w c)).
      { unfold waitpid, bind, syscall. fold c. fold (answer w c).
        destruct (Z.ltb_spec (r_ret (answer w c)) 0); [lia|].
        now rewrite Hst. }
      rewrite (bind_ok _ _ _ _ _ Hwait).
      destruct (Z.geb_spec (r_ret (answer w c)) 0); [|lia]. cbn [CHECK].
      unfold ret at 1. unfold bind at 1.
      destruct (Z.gtb_spec (r_ret (answer w c)) 0); [|lia].
      unfold store_proc_spec.
      assert (Hs1 : h_proc_spec (logged w c) !! Proc.m_spec P = Some s)
        by exact Hs.
      rewrite (bind_ok _ _ _ _ _ (store_run _ _ _ _ _ _ Hs1)).
      set (w1 := set_h_proc_spec (logged w c) _).
      destruct (IH left w1) as (w' & t & E & K & HH & HS & T & F).
      { unfold specs_valid in *. eapply Forall_impl; [exact Hv'|].
        intros Q [sq Hq]. unfold w1. cbn [h_proc_spec set_h_proc_spec logged
                                          set_kernel_view].
        apply lookup_lt_is_Some. rewrite length_insert.
        eapply lookup_lt_Some, Hq. }
      { exact Hk. }
      exists w', ((c, answer w c) :: t). rewrite E.
      split; [reflexivity|]. split; [rewrite K; reflexivity|].
      split; [rewrite HH; reflexivity|]. split; [|split].
      * rewrite HS. unfold w1.
        cbn [h_proc_spec set_h_proc_spec logged set_kernel_view].
        now apply reaped_step.
      * rewrite T. unfold w1, logged. cbn [w_trace set_h_proc_spec set_kernel_view].
        rewrite <- app_assoc. reflexivity.
      * cbn [map fst forallb is_waitpid_nohang c]. now rewrite Z.eqb_refl, F.
    + destruct (IH left w Hv' Hk) as (w' & t & E & K & HH & HS & T & F).
      exists w', t. rewrite E. repeat split; try assumption.
      rewrite HS. symmetry. now apply (reaped_skip st P rest _ s).
Qed.

(** When every child has exited by the time [harvest] looks, one scan is
    all it makes: it calls [waitpid] with WNOHANG and nothing else (it
    waits for no signal and forwards none), marks every ProcessSpec that
    was running as exited, with the status [waitpid] gave for its pid, and
    returns. *)
Theorem harvest_reaps_exited_children (fuel : nat) (self : ptr)
    (H : ProcHarvester.t) (st : Z -> Z) (w : World) :
  h_harvester w !! self = Some H ->
  specs_valid w (ProcHarvester.m_procs H) ->
  all_exited (w_kernel w) st ->
  exists w',
    harvest (S fuel) self w = (Ok tt, w')
    /\ h_proc_spec w'
       = imap (reaped st (ProcHarvester.m_procs H)) (h_proc_spec w)
    /\ forallb is_waitpid_nohang (calls (new_events w w')) = true.
Proof.
  intros HH Hv Hk.
  destruct (harvest_scan_reaps st (ProcHarvester.m_procs H) false w Hv Hk)
    as (w' & t & E & _ & _ & HS & T & F).
  exists w'. cbn [harvest]. unfold load_harvester.
  rewrite (bind_ok _ _ _ _ _ (load_run _ _ _ _ HH)).
  rewrite (bind_ok _ _ _ _ _ E). cbn [negb].
  split; [reflexivity|]. split; [exact HS|].
  unfold new_events. rewrite T, drop_app_length. exact F.
Qed.

Lemma harvest_reaps_exited_children_witness :
  let H := {| ProcHarvester.m_procs := [Proc.make 0%nat];
              ProcHarvester.m_sigset := 86023 |} in
  let k : Kernel := fun _ c =>
    match c with sys_waitpid _ _ => resp_aux 100 [768] | _ => resp 0 end in
  let w := set_h_harvester
             (set_h_proc_spec (world0 k)
                [daemon_proc_spec.set_pid proc_cat 100]) [H] in
  exists w',
    harvest 1 0%nat w = (Ok tt, w')
    /\ h_proc_spec w'
       = [daemon_proc_spec.set_exited (daemon_proc_spec.set_pid proc_cat 100) 768]
    /\ forallb is_waitpid_nohang (calls (new_events w w')) = true.
Proof.
  intros H k w.
  apply (harvest_reaps_exited_children 0 0%nat H (fun _ => 768) w).
  - reflexivity.
  - constructor; [|constructor]. eexists. reflexivity.
  - intros h pid. cbn. split; [lia|reflexivity].
Defined.

(** * Both sides of the fork in safe_fork_exec *)

Lemma moved_on_refl w : moved_on w w.
Proof. repeat split. exists []. now rewrite app_nil_r. Qed.

Lemma moved_on_trans a b c : moved_on a b -> moved_on b c -> moved_on a c.
Proof.
  intros (F1 & K1 & t1 & T1) (F2 & K2 & t2 & T2). repeat split; try congruence.
  exists (t1 ++ t2). rewrite T2, T1. now rewrite app_assoc.
Qed.

Lemma moved_on_logged w c : moved_on w (logged w c).
Proof. repeat split. now eexists. Qed.

Lemma moved_on_errno w c e : moved_on w (set_errno (logged w c) e).
Proof. repeat split. now eexists. Qed.

Lemma tame_ret {A} (a : A) : tame (ret a).
Proof. intros w. split; [apply moved_on_refl|exact I]. Qed.

Lemma tame_throw_fmt {A} msg : tame (@throw_fmt A msg).
Proof. intros w. split; [apply moved_on_refl|exact I]. Qed.

Lemma tame_throw {A} f : tame (@throw A f).
Proof. intros w. split; [apply moved_on_refl|exact I]. Qed.

Lemma tame_CHECK cond msg : tame (CHECK cond msg).
Proof. destruct cond; [apply tame_ret|apply tame_throw_fmt]. Qed.

Lemma tame_gets {A} (g : World -> A) : tame (gets g).
Proof. intros w. split; [apply moved_on_refl|exact I]. Qed.

Lemma tame_load {A} (heap : World -> list A) p : tame (load heap p).
Proof.
  intros w. apply wp_load.
  destruct (heap w !! p); (split; [apply moved_on_refl|]); reflexivity.
Qed.

Lemma tame_deref {A} (p : option A) : tame (deref p).
Proof.
  intros w. apply wp_deref.
  destruct p; (split; [apply moved_on_refl|]); reflexivity.
Qed.

Lemma tame_bind {A B} (m : M A) (k : A -> M B) :
  tame m -> (forall a, tame (k a)) -> tame (bind m k).
Proof.
  intros Hm Hk w. apply wp_bind. eapply wp_mono; [apply Hm|].
  intros [a|f|h|] w1 [M1 E1]; cbn [pass]; try (split; assumption).
  - eapply wp_mono; [apply Hk|]. intros r w2 [M2 E2].
    split; [eapply moved_on_trans; eassumption|exact E2].
Qed.

Lemma tame_syscall c : tame (syscall c).
Proof. intros w. split; [apply moved_on_logged|exact I]. Qed.

Lemma tame_sys_status c : tame (sys_status c).
Proof.
  intros w. apply wp_sys_status.
  destruct (r_ret _ =? 0);
    (split; [apply moved_on_logged || apply moved_on_errno|exact I]).
Qed.

Lemma tame_sys_value c : tame (sys_value c).
Proof.
  intros w. apply wp_sys_value.
  destruct (r_ret _ <? 0);
    (split; [apply moved_on_logged || apply moved_on_errno|exact I]).
Qed.

Lemma tame_read fd buf count : tame (read fd buf count).
Proof.
  intros w. apply wp_read. cbv zeta.
  destruct (r_ret _ <? 0);
    (split; [apply moved_on_logged || apply moved_on_errno|exact I]).
Qed.

Lemma tame_waitpid pid options : tame (waitpid pid options).
Proof.
  intros w. apply wp_waitpid. cbv zeta.
  destruct (r_ret _ <? 0);
    (split; [apply moved_on_logged || apply moved_on_errno|exact I]).
Qed.

Lemma tame_sigprocmask how set : tame (sigprocmask how set).
Proof.
  intros w. apply wp_sigprocmask.
  destruct (r_ret _ =? 0); (split; [|exact I]).
  - repeat split. now eexists.
  - apply moved_on_errno.
Qed.

Lemma tame_FD_get p : tame (FD_get p).
Proof.
  unfold FD_get, FD_isOk, FD_m_fd.
  apply tame_bind; [apply tame_bind; [apply tame_load|intros; apply tame_ret]|].
  intros [|]; [apply tame_load|apply tame_throw_fmt].
Qed.

Lemma tame_FD_set_flag p get set flag msg1 msg2 :
  tame (let* fd := FD_m_fd p in
        let* flags := fcntl fd get 0 in
        let* _ := CHECK (flags >=? 0) msg1 in
        let* r := fcntl fd set (Z.lor flags flag) in
        CHECK (r >=? 0) msg2).
Proof.
  unfold FD_m_fd, fcntl.
  apply tame_bind; [apply tame_load|]. intros fd.
  apply tame_bind; [apply tame_sys_value|]. intros flags.
  apply tame_bind; [apply tame_CHECK|]. intros _.
  apply tame_bind; [apply tame_sys_value|]. intros r. apply tame_CHECK.
Qed.

Lemma tame_FD_setNonBlock p : tame (FD_setNonBlock p).
Proof. apply tame_FD_set_flag. Qed.

Lemma tame_FD_setCloseOnExec p : tame (FD_setCloseOnExec p).
Proof. apply tame_FD_set_flag. Qed.

Lemma tame_child_dup2 file side target : tame (child_dup2 file side target).
Proof.
  unfold child_dup2, load_file, dup2. destruct file; [|apply tame_ret].
  apply tame_bind; [apply tame_load|]. intros F.
  apply tame_bind; [apply tame_deref|]. intros s.
  apply tame_bind; [apply tame_FD_get|]. intros fd.
  apply tame_bind; [apply tame_sys_value|]. intros r. apply tame_CHECK.
Qed.

Lemma tame_unblock sb uncaught : tame (SignalBlocker_unblock sb uncaught).
Proof.
  unfold SignalBlocker_unblock.
  apply tame_bind; [apply tame_sigprocmask|]. intros [r old].
  destruct (_ && _); [apply tame_throw_fmt|apply tame_ret].
Qed.

Lemma tame_store_proc_spec p v : tame (store_proc_spec p v).
Proof.
  intros w. apply wp_store.
  destruct (h_proc_spec w !! p); (split; [|reflexivity]).
  - repeat split. exists []. now rewrite app_nil_r.
  - apply moved_on_refl.
Qed.

Lemma wp_bind_tame {A B} (m : M A) (k : A -> M B) Q w :
  tame m ->
  (forall a w1, moved_on w w1 -> wp (k a) Q w1) ->
  (forall f w1, moved_on w w1 -> Q (Throw f) w1) ->
  (forall w1, moved_on w w1 -> Q (Halt Crashed) w1) ->
  wp (bind m k) Q w.
Proof.
  intros Hm Hk Ht Hc. apply wp_bind. eapply wp_mono; [apply Hm|].
  intros [a|f|h|] w1 [M1 E1]; cbn [pass]; cbn in E1; subst; auto.
  contradiction.
Qed.

Lemma child_body_end_throw {A} w0 f w1 :
  moved_on w0 w1 -> child_body_end (A:=A) w0 (Throw f) w1.
Proof. intros (F & _). now split. Qed.

Lemma child_body_end_crash {A} w0 w1 :
  moved_on w0 w1 -> child_body_end (A:=A) w0 (Halt Crashed) w1.
Proof. intros (F & _). split; [exact F|now left]. Qed.

(** The inner [try] block of the child ends in an exec, in a crash or in
    a [failure]; it does not come back. *)
Lemma child_body_ends {A} (self : Proc.t) (argv : exec_args) (w : World) :
  wp (let* _ := (if Proc.m_newPGID self >=? 0 then
                   let* r := setpgid 0 (Proc.m_newPGID self) in
                   CHECK (r =? 0) (fun e => "setpgid failed: " +:+ strerror e)
                 else ret tt) in
      let* _ := child_dup2 (Proc.m_stdin self) File.m_readSide STDIN_FILENO in
      let* _ := child_dup2 (Proc.m_stdout self) File.m_writeSide STDOUT_FILENO in
      let* _ := child_dup2 (Proc.m_stderr self) File.m_writeSide STDERR_FILENO in
      let* _ := match Proc.m_blockedSignals self with
                | Some sb => SignalBlocker_unblock sb false
                | None => ret tt
                end in
      do_execvp (A:=A) argv)
     (child_body_end w) w.
Proof.
  apply wp_bind_tame;
    [|intros _ w1 M1
     |intros; now apply child_body_end_throw
     |intros; now apply child_body_end_crash].
  { destruct (_ >=? 0); [|apply tame_ret].
    apply tame_bind; [apply tame_sys_status|intros; apply tame_CHECK]. }
  apply wp_bind_tame;
    [apply tame_child_dup2|intros _ w2 M2
     |intros; apply child_body_end_throw; eapply moved_on_trans; eassumption
     |intros; apply child_body_end_crash; eapply moved_on_trans; eassumption].
  pose proof (moved_on_trans _ _ _ M1 M2) as M12.
  apply wp_bind_tame;
    [apply tame_child_dup2|intros _ w3 M3
     |intros; apply child_body_end_throw; eapply moved_on_trans; eassumption
     |intros; apply child_body_end_crash; eapply moved_on_trans; eassumption].
  pose proof (moved_on_trans _ _ _ M12 M3) as M13.
  apply wp_bind_tame;
    [apply tame_child_dup2|intros _ w4 M4
     |intros; apply child_body_end_throw; eapply moved_on_trans; eassumption
     |intros; apply child_body_end_crash; eapply moved_on_trans; eassumption].
  pose proof (moved_on_trans _ _ _ M13 M4) as M14.
  apply wp_bind_tame;
    [|intros _ w5 M5
     |intros; apply child_body_end_throw; eapply moved_on_trans; eassumption
     |intros; apply child_body_end_crash; eapply moved_on_trans; eassumption].
  { destruct (Proc.m_blockedSignals self);
      [apply tame_unblock|apply tame_ret]. }
  destruct (moved_on_trans _ _ _ M14 M5) as (F & _).
  unfold wp, do_execvp, execvp, bind, syscall, fails, modify, ret,
    gets, halt, throw_fmt, throw, child_body_end.
  destruct (r_ret _ <? 0); cbn [fst snd h_fd set_kernel_view set_errno].
  - split; [exact F|exact I].
  - split; [exact F|]. right. eauto.
Qed.

(** The child of the fork ends there. *)
Lemma child_ends {A} (self : Proc.t) (argv : exec_args) (ew : ptr) (wfd : Z)
    (w : World) :
  h_fd w !! ew = Some wfd -> wfd <> -1 ->
  exists h w', safe_fork_exec_child (A:=A) self argv ew w = (Halt h, w')
               /\ child_end wfd h (w_trace w').
Proof.
  intros Hew Hwfd. unfold safe_fork_exec_child.
  pose proof (child_body_ends (A:=unit) self argv w) as Hb. unfold wp in Hb.
  unfold bind at 1. unfold try_catch.
  match type of Hb with child_body_end _ (fst ?x) _ =>
    destruct x as [[a|f|h|] w1] end; destruct Hb as [F E];
    cbn [fst snd] in F, E; try contradiction; cbv beta iota.
  - rewrite <- F in Hew. rewrite (bind_ok _ _ _ _ _ (FD_get_run _ _ _ Hew Hwfd)).
    destruct (what f) as [msg|].
    + unfold write, sys_value, _exit, bind, syscall, fails, modify, ret, halt.
      destruct (r_ret _ <? 0); do 2 eexists; (split; [reflexivity|]);
        right; right; (split; [reflexivity|]);
        cbn [w_trace set_kernel_view set_errno];
        do 4 eexists; rewrite <- app_assoc; reflexivity.
    + do 2 eexists. split; [reflexivity|]. now left.
  - do 2 eexists. split; [reflexivity|]. destruct E as [->|E]; [now left|].
    right. now left.
Qed.

(** * The error pipe of safe_fork_exec *)

Lemma FD_reset_step (p : ptr) (d : Z) (w : World) :
  wp (FD_reset p d) (fun r w' => reset_step p w w' /\ ends_tamely r) w.
Proof.
  unfold FD_reset, FD_m_fd. apply wp_bind, wp_load.
  destruct (h_fd w !! p) as [fd|] eqn:Hp; cbn [pass].
  2:{ split; [|reflexivity]. split; [reflexivity|]. split; [reflexivity|].
      exists []. rewrite app_nil_r. split; [reflexivity|]. intros raw Hr. congruence. }
  apply wp_bind. destruct (fd =? -1) eqn:Hfd; cbn [negb].
  - apply Z.eqb_eq in Hfd. subst fd. apply wp_ret, wp_store. rewrite Hp.
    split; [|exact I]. split; [reflexivity|]. split.
    + intros q Hq. cbn [h_fd set_h_fd]. apply list_lookup_insert_ne. congruence.
    + exists []. rewrite app_nil_r. split; [reflexivity|].
      intros raw Hr Hn. congruence.
  - unfold close. apply wp_bind, wp_sys_status.
    destruct (r_ret _ =? 0).
    + apply wp_CHECK. rewrite Z.eqb_refl. apply wp_store.
      change (h_fd (logged w (sys_close fd))) with (h_fd w). rewrite Hp.
      split; [|exact I]. split; [reflexivity|]. split.
      * intros q Hq. cbn [h_fd set_h_fd]. apply list_lookup_insert_ne. congruence.
      * eexists. split; [reflexivity|]. intros raw Hr _.
        assert (raw = fd) as -> by congruence. cbn. now left.
    + apply wp_CHECK. change (-1 =? 0) with false. cbv iota.
      split; [|exact I]. split; [reflexivity|]. split; [reflexivity|].
      eexists. split; [reflexivity|]. intros raw Hr _.
      assert (raw = fd) as -> by congruence. cbn. now left.
Qed.

Lemma FD_dtor_step (p : ptr) (w : World) :
  wp (FD_dtor p)
     (fun r w' => reset_step p w w' /\ (r = Ok tt \/ r = Halt Crashed)) w.
Proof.
  unfold FD_dtor. apply wp_try_catch. eapply wp_mono; [apply FD_reset_step|].
  intros [[]|f|h|] w' [S E]; cbn in E; try contradiction.
  - split; [exact S|now left].
  - split; [exact S|now left].
  - subst h. split; [exact S|now right].
Qed.

Section ErrorPipe.

Variables (w0 : World) (er ew : ptr) (raw0 raw1 : Z).
Hypothesis (Hraw0 : raw0 <> -1) (Hraw1 : raw1 <> -1).

Local Abbreviation I := (pipe_kept w0 er ew raw0 raw1).

Lemma held_or_closed_reset (p q : ptr) (raw : Z) (t t' : list Event)
    (w w' : World) :
  raw <> -1 ->
  held_or_closed q raw t w ->
  (forall q', q' <> p -> h_fd w' !! q' = h_fd w !! q') ->
  (forall raw', h_fd w !! p = Some raw' -> raw' <> -1 ->
                In (sys_close raw') (calls t')) ->
  held_or_closed q raw (t ++ t') w'.
Proof.
  intros Hr H Hne Hcl. unfold held_or_closed. rewrite calls_app, in_app_iff.
  destruct H as [H|H]; [|right; now left].
  destruct (decide (q = p)) as [->|Hq].
  - right. right. now apply Hcl.
  - left. rewrite Hne; assumption.
Qed.

Lemma held_or_closed_same (q : ptr) (raw : Z) (t t' : list Event)
    (w w' : World) :
  held_or_closed q raw t w -> h_fd w' = h_fd w ->
  held_or_closed q raw (t ++ t') w'.
Proof.
  intros H F. unfold held_or_closed. rewrite calls_app, in_app_iff, F.
  destruct H as [H|H]; [now left|right; now left].
Qed.

Lemma pipe_kept_moved_on (w w' : World) : I w -> moved_on w w' -> I w'.
Proof.
  intros (K & t & T & H0 & H1) (F & K' & t' & T'). split; [congruence|].
  exists (t ++ t'). split; [now rewrite T', T, app_assoc|].
  split; eapply held_or_closed_same; eassumption.
Qed.

Lemma pipe_kept_reset (p : ptr) (w w' : World) :
  I w -> reset_step p w w' -> I w'.
Proof.
  intros (K & t & T & H0 & H1) (K' & Hne & t' & T' & Hcl). split; [congruence|].
  exists (t ++ t'). split; [now rewrite T', T, app_assoc|].
  split; eapply held_or_closed_reset; eassumption.
Qed.

(** After [FD::reset] on the write end, the write end has been closed. *)
Lemma pipe_kept_closed (p : ptr) (raw : Z) (t t' : list Event) (w : World) :
  raw <> -1 ->
  held_or_closed p raw t w ->
  (forall raw', h_fd w !! p = Some raw' -> raw' <> -1 ->
                In (sys_close raw') (calls t')) ->
  In (sys_close raw) (calls (t ++ t')).
Proof.
  intros Hr [H|H] Hcl; rewrite calls_app, in_app_iff; [right|now left].
  now apply Hcl.
Qed.

Lemma keeps_tame {A} (m : M A) : tame m -> keeps I m.
Proof.
  intros Hm w Hw. eapply wp_mono; [apply Hm|]. intros r w' [M E].
  split; [now apply (pipe_kept_moved_on w)|exact E].
Qed.

Lemma keeps_bind {A B} (m : M A) (k : A -> M B) :
  keeps I m -> (forall a, keeps I (k a)) -> keeps I (bind m k).
Proof.
  intros Hm Hk w Hw. apply wp_bind. eapply wp_mono; [now apply Hm|].
  intros [a|f|h|] w1 [I1 E1]; cbn [pass]; try (split; assumption).
  now apply Hk.
Qed.

Lemma keeps_try_catch {A} (body : M A) handler :
  keeps I body -> (forall f, keeps I (handler f)) ->
  keeps I (try_catch body handler).
Proof.
  intros Hb Hh w Hw. apply wp_try_catch. eapply wp_mono; [now apply Hb|].
  intros [a|f|h|] w1 [I1 E1]; try (split; assumption).
  now apply Hh.
Qed.

Lemma keeps_FD_reset (p : ptr) (d : Z) : keeps I (FD_reset p d).
Proof.
  intros w Hw. eapply wp_mono; [apply FD_reset_step|]. intros r w' [S E].
  split; [now apply (pipe_kept_reset p w)|exact E].
Qed.

(** What the parent does after the fork keeps both ends accounted for. *)
Lemma keeps_parent (self : Proc.t) (pid : Z) :
  keeps I (try_catch
             (let* _ := ret tt in
              safe_fork_exec_parent self pid er ew)
             (fun e =>
                let* _ := kill pid SIGTERM in
                let* _ := waitpid pid 0 in
                throw e)).
Proof.
  apply keeps_try_catch.
  - apply keeps_bind; [apply keeps_tame, tame_ret|]. intros _.
    unfold safe_fork_exec_parent.
    apply keeps_bind; [apply keeps_FD_reset|]. intros _.
    apply keeps_tame.
    apply tame_bind; [apply tame_FD_get|]. intros fd.
    apply tame_bind; [apply tame_read|]. intros [r buf].
    apply tame_bind; [apply tame_CHECK|]. intros _.
    destruct (r >? 0); [apply tame_throw|].
    apply tame_bind; [apply tame_load|]. intros s.
    apply tame_bind; [apply tame_store_proc_spec|]. intros _. apply tame_ret.
  - intros f. apply keeps_tame.
    apply tame_bind; [apply tame_sys_status|]. intros _.
    apply tame_bind; [apply tame_waitpid|]. intros _. apply tame_throw.
Qed.

End ErrorPipe.

Lemma wp_tame {A} (m : M A) Q w :
  tame m ->
  (forall a w1, moved_on w w1 -> Q (Ok a) w1) ->
  (forall f w1, moved_on w w1 -> Q (Throw f) w1) ->
  (forall w1, moved_on w w1 -> Q (Halt Crashed) w1) ->
  wp m Q w.
Proof.
  intros Hm Hk Ht Hc. eapply wp_mono; [apply Hm|].
  intros [a|f|h|] w1 [M1 E1]; cbn in E1; subst; auto. contradiction.
Qed.

Lemma dtor_write_end (w0 : World) (er ew : ptr) (raw0 raw1 : Z) (w w' : World) :
  raw0 <> -1 -> raw1 <> -1 ->
  pipe_kept w0 er ew raw0 raw1 w -> reset_step ew w w' ->
  write_end_closed w0 er raw0 raw1 w'.
Proof.
  intros H0 H1 (K & t & T & He & Hw) (K' & Hne & t' & T' & Hcl).
  exists (t ++ t'). split; [now rewrite T', T, app_assoc|]. split.
  - eapply held_or_closed_reset; eassumption.
  - eapply pipe_kept_closed; eassumption.
Qed.

Lemma dtor_read_end (w0 : World) (er : ptr) (raw0 raw1 : Z) (w w' : World) :
  raw0 <> -1 ->
  write_end_closed w0 er raw0 raw1 w -> reset_step er w w' ->
  both_ends_closed w0 raw0 raw1 w'.
Proof.
  intros H0 (t & T & He & Hw) (K' & Hne & t' & T' & Hcl).
  exists (t ++ t'). split; [now rewrite T', T, app_assoc|]. split.
  - eapply pipe_kept_closed; eassumption.
  - rewrite calls_app, in_app_iff. now left.
Qed.

(** From the fork on. *)
Lemma error_pipe_guarded (self : Proc.t) (argv : exec_args) (pid : Z)
    (w0 : World) (er ew : ptr) (raw0 raw1 : Z) (w : World) :
  raw0 <> -1 -> raw1 <> -1 ->
  pipe_kept w0 er ew raw0 raw1 w -> h_fd w !! ew = Some raw1 ->
  wp (safe_fork_exec_guarded self argv pid er ew)
     (pipe_body_end w0 er ew raw0 raw1) w.
Proof.
  intros H0 H1 Hk Hew. unfold safe_fork_exec_guarded.
  destruct (pid =? 0).
  - destruct (child_ends (A:=unit) self argv ew raw1 w Hew H1)
      as (h & w' & Hrun & Hend).
    apply wp_try_catch, wp_bind. apply (wp_run _ _ _ _ _ Hrun). exact Hend.
  - eapply wp_mono; [now apply (keeps_parent w0 er ew raw0 raw1 H0 H1 self pid)|].
    intros [a|f|h|] w' [I' E]; cbn in E; try assumption.
    subst h. now left.
Qed.

(** From the moment both FD objects hold their ends. *)
Lemma error_pipe_after_pipe (self : Proc.t) (argv : exec_args)
    (w0 : World) (er ew : ptr) (raw0 raw1 : Z) (w : World) :
  raw0 <> -1 -> raw1 <> -1 ->
  pipe_kept w0 er ew raw0 raw1 w -> h_fd w !! ew = Some raw1 ->
  wp (let* _ := FD_setNonBlock ew in
      let* pid := fork in
      let* _ := CHECK (pid >=? 0) (fun e => "fork failed: " +:+ strerror e) in
      safe_fork_exec_guarded self argv pid er ew)
     (pipe_body_end w0 er ew raw0 raw1) w.
Proof.
  intros H0 H1 Hk Hew.
  assert (Hthrow : forall f w1, moved_on w w1 ->
            pipe_body_end w0 er ew raw0 raw1 (Throw f) w1).
  { intros f w1 M. now apply (pipe_kept_moved_on w0 er ew raw0 raw1 w). }
  assert (Hcrash : forall w1, moved_on w w1 ->
            pipe_body_end w0 er ew raw0 raw1 (Halt Crashed) w1).
  { intros w1 M. now left. }
  apply wp_bind_tame; [apply tame_FD_setNonBlock|intros _ w1 M1|auto|auto].
  apply wp_bind_tame; [apply tame_sys_value|intros pid w2 M2| |];
    try (intros; (apply Hthrow || apply Hcrash);
         eapply moved_on_trans; eassumption).
  pose proof (moved_on_trans _ _ _ M1 M2) as M12.
  apply wp_bind_tame; [apply tame_CHECK|intros _ w3 M3| |];
    try (intros; (apply Hthrow || apply Hcrash);
         eapply moved_on_trans; eassumption).
  pose proof (moved_on_trans _ _ _ M12 M3) as M13.
  apply error_pipe_guarded; try assumption.
  - now apply (pipe_kept_moved_on w0 er ew raw0 raw1 w).
  - destruct M13 as (F & _). now rewrite F.
Qed.

(** The block that owns the error pipe. *)
Lemma error_pipe_body (self : Proc.t) (argv : exec_args) (er ew : ptr)
    (w : World) :
  let k := answer w sys_pipe in
  let raw0 := nth 0 (r_aux k) 0 in
  let raw1 := nth 1 (r_aux k) 0 in
  er <> ew ->
  h_fd w !! er = Some (-1) -> h_fd w !! ew = Some (-1) ->
  r_ret k = 0 -> raw0 <> -1 -> raw1 <> -1 ->
  wp (let* _ := FD_pipe er ew FD_CLOEXEC in
      let* _ := FD_setNonBlock ew in
      let* pid := fork in
      let* _ := CHECK (pid >=? 0) (fun e => "fork failed: " +:+ strerror e) in
      safe_fork_exec_guarded self argv pid er ew)
     (pipe_body_end w er ew raw0 raw1) w.
Proof.
  intros k raw0 raw1 Hne Her Hew Hk H0 H1.
  apply wp_bind. unfold FD_pipe. apply wp_bind. unfold pipe.
  apply wp_bind, wp_syscall. fold k. rewrite Hk. cbn [Z.eqb].
  apply wp_ret. cbv beta iota. apply wp_bind, wp_CHECK. cbn [Z.eqb].
  fold raw0 raw1. set (w3 := logged w sys_pipe).
  assert (Her3 : h_fd w3 !! er = Some (-1)) by exact Her.
  apply wp_bind. apply (wp_run _ _ _ _ _ (FD_reset_fresh_run er raw0 w3 Her3)).
  set (w4 := set_h_fd w3 _).
  assert (Hew4 : h_fd w4 !! ew = Some (-1)).
  { unfold w4. cbn [h_fd set_h_fd]. now rewrite list_lookup_insert_ne. }
  apply wp_bind. apply (wp_run _ _ _ _ _ (FD_reset_fresh_run ew raw1 w4 Hew4)).
  set (w5 := set_h_fd w4 _).
  assert (Hew5 : h_fd w5 !! ew = Some raw1).
  { unfold w5. cbn [h_fd set_h_fd]. apply list_lookup_insert_eq.
    now apply lookup_lt_Some in Hew4. }
  assert (Her5 : h_fd w5 !! er = Some raw0).
  { unfold w5. cbn [h_fd set_h_fd].
    rewrite list_lookup_insert_ne by congruence.
    unfold w4. cbn [h_fd set_h_fd]. apply list_lookup_insert_eq.
    now apply lookup_lt_Some in Her3. }
  assert (I5 : pipe_kept w er ew raw0 raw1 w5).
  { split; [reflexivity|]. eexists. split; [reflexivity|].
    split; now left. }
  change (FD_CLOEXEC =? FD_CLOEXEC) with true. cbv iota.
  assert (Hthrow : forall f w1, moved_on w5 w1 ->
            pipe_body_end w er ew raw0 raw1 (Throw f) w1).
  { intros f w1 M. now apply (pipe_kept_moved_on w er ew raw0 raw1 w5). }
  assert (Hcrash : forall w1, moved_on w5 w1 ->
            pipe_body_end w er ew raw0 raw1 (Halt Crashed) w1).
  { intros w1 M. now left. }
  apply wp_bind_tame; [apply tame_FD_setCloseOnExec|intros _ w6 M6| |];
    try (intros; cbn [pass]; (apply Hthrow || apply Hcrash); assumption).
  apply wp_tame; [apply tame_FD_setCloseOnExec|intros _ w7 M7| |];
    try (intros; cbn [pass]; (apply Hthrow || apply Hcrash);
         eapply moved_on_trans; eassumption).
  pose proof (moved_on_trans _ _ _ M6 M7) as M.
  apply error_pipe_after_pipe; try assumption.
  - now apply (pipe_kept_moved_on w er ew raw0 raw1 w5).
  - destruct M as (F & _). now rewrite F.
Qed.

Lemma new_events_since (w0 w w' : World) (t : list Event) :
  w_trace w0 = w_trace w -> w_trace w' = w_trace w0 ++ t -> new_events w w' = t.
Proof.
  intros E T. unfold new_events. rewrite T, E. apply drop_app_length.
Qed.

(** The child of the fork in [safe_fork_exec] does not come back into
    the code of its parent.  With the write end of the error pipe held by
    its FD object, the child ends in every case: in the exec of the
    command, or in [_exit(1)] made right after a [write] of the failure's
    message to the error pipe, or in a crash (a null pointer, or a
    message buffer without its terminator). *)
Theorem child_never_returns {A} (self : Proc.t) (argv : exec_args) (ew : ptr)
    (wfd : Z) (w : World) :
  h_fd w !! ew = Some wfd -> wfd <> -1 ->
  exists h w',
    safe_fork_exec_child (A:=A) self argv ew w = (Halt h, w')
    /\ child_end wfd h (w_trace w').
Proof. apply child_ends. Qed.

Lemma child_never_returns_witness :
  let self := Proc.set_fork_args (Proc.make 0%nat) blocker_usr1 0 in
  h_fd (world_child kernel_exec_fails) !! 1%nat = Some 4
  /\ exists h w',
       safe_fork_exec_child (A:=Z) self ["cat"%string] 1%nat
         (world_child kernel_exec_fails) = (Halt h, w')
       /\ child_end 4 h (w_trace w').
Proof.
  intros self. split; [reflexivity|].
  apply (child_never_returns self ["cat"%string] 1%nat 4
           (world_child kernel_exec_fails)); [reflexivity|lia].
Defined.

(** [safe_fork_exec] does not leak its error pipe.  When the pipe was
    made, then however the call ends in the parent, by returning the pid
    or by throwing (a failed fcntl, a failed fork, a message from the
    child, a failed close), a close has been called on each of the two
    descriptors of the pipe; and when the call ends the process, it ends
    it as the child does. *)
Theorem safe_fork_exec_closes_error_pipe (self : Proc.t)
    (spec : daemon_proc_spec.t) (w : World) :
  let k := answer w sys_pipe in
  let raw0 := nth 0 (r_aux k) 0 in
  let raw1 := nth 1 (r_aux k) 0 in
  h_proc_spec w !! Proc.m_spec self = Some spec ->
  daemon_proc_spec.m_cmdArgv spec <> [] ->
  r_ret k = 0 -> raw0 <> -1 -> raw1 <> -1 ->
  wp (safe_fork_exec self) (fork_exec_end w raw0 raw1) w.
Proof.
  intros k raw0 raw1 Hs Hargv Hk H0 H1.
  unfold safe_fork_exec, load_proc_spec. apply wp_bind, wp_load. rewrite Hs.
  apply wp_bind, wp_CHECK.
  destruct (daemon_proc_spec.m_cmdArgv spec) as [|a0 argv] eqn:Ha;
    [contradiction|]. cbn [exec_args_empty negb].
  apply wp_bind. unfold FD_new at 1. apply wp_alloc.
  set (er := length (h_fd w)). set (w1 := set_h_fd w (h_fd w ++ [-1])).
  apply wp_finally, wp_bind. unfold FD_new at 1. apply wp_alloc.
  set (ew := length (h_fd w1)). set (w2 := set_h_fd w1 (h_fd w1 ++ [-1])).
  apply wp_finally.
  assert (Hlen : ew = S er).
  { unfold ew, w1, er. cbn [h_fd set_h_fd]. rewrite length_app. cbn. lia. }
  assert (Her : h_fd w2 !! er = Some (-1)).
  { unfold w2, w1. cbn [h_fd set_h_fd]. rewrite lookup_app_l.
    - apply lookup_snoc_new.
    - rewrite length_app. cbn. unfold er. lia. }
  assert (Hew : h_fd w2 !! ew = Some (-1)).
  { unfold w2. cbn [h_fd set_h_fd]. apply lookup_snoc_new. }
  assert (Ht : w_trace w2 = w_trace w) by reflexivity.
  eapply wp_mono.
  { apply (error_pipe_body self (a0 :: argv) er ew w2);
      try assumption. lia. }
  change (answer w2 sys_pipe) with k. fold raw0 raw1.
  intros [a|f|h|] w5 H5; cbn [pipe_body_end] in H5;
    try exact H5; try contradiction.
  - eapply wp_mono; [apply FD_dtor_step|]. intros r6 w6 [S6 [ -> | -> ]];
      cbn [pass]; [|now left].
    pose proof (dtor_write_end _ _ _ _ _ _ _ H0 H1 H5 S6) as H6.
    eapply wp_mono; [apply FD_dtor_step|]. intros r7 w7 [S7 [ -> | -> ]];
      cbn [pass]; [|now left].
    destruct (dtor_read_end _ _ _ _ _ _ H0 H6 S7) as (t & T & C0 & C1).
    cbn [fork_exec_end]. now rewrite (new_events_since w2 w w7 t Ht T).
  - eapply wp_mono; [apply FD_dtor_step|]. intros r6 w6 [S6 [ -> | -> ]];
      cbn [pass]; [|now left].
    pose proof (dtor_write_end _ _ _ _ _ _ _ H0 H1 H5 S6) as H6.
    eapply wp_mono; [apply FD_dtor_step|]. intros r7 w7 [S7 [ -> | -> ]];
      cbn [pass]; [|now left].
    destruct (dtor_read_end _ _ _ _ _ _ H0 H6 S7) as (t & T & C0 & C1).
    cbn [fork_exec_end]. now rewrite (new_events_since w2 w w7 t Ht T).
Qed.

Lemma safe_fork_exec_closes_error_pipe_witness :
  let w := set_h_proc_spec (world0 kernel_ok) [proc_cat] in
  h_proc_spec w !! 0%nat = Some proc_cat
  /\ answer w sys_pipe = resp_aux 0 [3; 4]
  /\ wp (safe_fork_exec (Proc.make 0%nat)) (fork_exec_end w 3 4) w.
Proof.
  intros w. split; [reflexivity|]. split; [reflexivity|].
  apply (safe_fork_exec_closes_error_pipe (Proc.make 0%nat) proc_cat w).
  - reflexivity.
  - discriminate.
  - reflexivity.
  - discriminate.
  - discriminate.
Defined.

(** * exec forks under the lock only *)

Lemma grows_refl P w : grows P w w.
Proof. exists []. now rewrite app_nil_r. Qed.

Lemma grows_trans P a b c : grows P a b -> grows P b c -> grows P a c.
Proof.
  intros (t1 & T1 & F1) (t2 & T2 & F2). exists (t1 ++ t2).
  split; [now rewrite T2, T1, app_assoc|]. apply Forall_app. now split.
Qed.

Section Footprint.

Variable P : Call -> Prop.
Hypothesis HP : forall c, c <> sys_fork -> P c.

Lemma only_ret {A} (a : A) : only P (ret a).
Proof. intros w. apply grows_refl. Qed.

Lemma only_throw {A} f : only P (@throw A f).
Proof. intros w. apply grows_refl. Qed.

Lemma only_halt {A} h : only P (@halt A h).
Proof. intros w. apply grows_refl. Qed.

Lemma only_diverge {A} : only P (@diverge A).
Proof. intros w. apply grows_refl. Qed.

Lemma only_gets {A} (g : World -> A) : only P (gets g).
Proof. intros w. apply grows_refl. Qed.

Lemma only_throw_fmt {A} msg : only P (@throw_fmt A msg).
Proof. intros w. apply grows_refl. Qed.

Lemma only_CHECK cond msg : only P (CHECK cond msg).
Proof. intros w. destruct cond; apply grows_refl. Qed.

Lemma only_syscall c : P c -> only P (syscall c).
Proof.
  intros Hc w. exists [(c, answer w c)]. split; [reflexivity|].
  constructor; [exact Hc|constructor].
Qed.

Lemma only_modify g :
  (forall w, w_trace (g w) = w_trace w) -> only P (modify g).
Proof. intros H w. exists []. unfold modify. cbn. now rewrite H, app_nil_r. Qed.

Lemma only_bind {A B} (m : M A) (k : A -> M B) :
  only P m -> (forall a, only P (k a)) -> only P (bind m k).
Proof.
  intros Hm Hk w. apply wp_bind. eapply wp_mono; [apply Hm|].
  intros [a|f|h|] w1 H; cbn; try exact H.
  eapply wp_mono; [apply Hk|]. cbn. intros. eapply grows_trans; eassumption.
Qed.

Lemma only_try_catch {A} (body : M A) handler :
  only P body -> (forall f, only P (handler f)) ->
  only P (try_catch body handler).
Proof.
  intros Hb Hh w. apply wp_try_catch. eapply wp_mono; [apply Hb|].
  intros [a|f|h|] w1 H; cbn; try exact H.
  eapply wp_mono; [apply Hh|]. cbn. intros. eapply grows_trans; eassumption.
Qed.

Lemma only_finally {A} (body : M A) dtor :
  only P body -> (forall u, only P (dtor u)) -> only P (finally body dtor).
Proof.
  intros Hb Hd w. apply wp_finally. eapply wp_mono; [apply Hb|].
  intros [a|f|h|] w1 H; cbn; try exact H.
  - eapply wp_mono; [apply Hd|]. cbn.
    intros [[]| | |] ? ?; eapply grows_trans; eassumption.
  - eapply wp_mono; [apply Hd|]. cbn.
    intros [[]| | |] ? ?; eapply grows_trans; eassumption.
Qed.

Lemma only_load {A} (heap : World -> list A) p : only P (load heap p).
Proof. intros w. apply wp_load. destruct (heap w !! p); apply grows_refl. Qed.

Lemma only_store {A} (heap : World -> list A) set p v :
  (forall w l, w_trace (set w l) = w_trace w) ->
  only P (store heap set p v).
Proof.
  intros H w. apply wp_store. destruct (heap w !! p); [|apply grows_refl].
  exists []. now rewrite H, app_nil_r.
Qed.

Lemma only_alloc {A} (heap : World -> list A) set v :
  (forall w l, w_trace (set w l) = w_trace w) ->
  only P (alloc heap set v).
Proof. intros H w. apply wp_alloc. exists []. now rewrite H, app_nil_r. Qed.

Lemma only_deref {A} (p : option A) : only P (deref p).
Proof. intros w. destruct p; apply grows_refl. Qed.

Create HintDb only.

#[local] Hint Resolve only_ret only_throw only_halt only_diverge
  only_gets only_throw_fmt only_CHECK only_load only_deref : only.

(** A call is allowed: it is not a fork, or forks are allowed here. *)
Ltac allowed := first [assumption | apply HP; discriminate].

(** One step of a proof that a computation is [only P]. *)
Ltac only_step :=
  first
    [ solve [auto with only nocore]
    | apply only_bind; [|intros]
    | apply only_try_catch; [|intros]
    | apply only_finally; [|intros]
    | apply only_syscall; allowed
    | apply only_modify; intros; reflexivity
    | apply only_store; intros; reflexivity
    | apply only_alloc; intros; reflexivity
    | progress unfold close, fcntl, dup, dup2, open, write, setpgid, kill,
        flock, ftruncate, sys_status, sys_value, fails
    | match goal with
      | |- only _ (if ?b then _ else _) => destruct b
      | |- only _ (match ?x with _ => _ end) => destruct x
      | |- only _ (let '(_, _) := ?x in _) => destruct x
      end ].

Ltac only_tac := repeat only_step.

Lemma only_sys_status c : P c -> only P (sys_status c).
Proof. intros Hc. only_tac. Qed.

Lemma only_sys_value c : P c -> only P (sys_value c).
Proof. intros Hc. only_tac. Qed.

Lemma only_pipe : only P pipe.
Proof. unfold pipe. only_tac. Qed.

Lemma only_read fd buf count : only P (read fd buf count).
Proof. unfold read. only_tac. Qed.

Lemma only_waitpid pid options : only P (waitpid pid options).
Proof. unfold waitpid. only_tac. Qed.

Lemma only_sigwait set : only P (sigwait set).
Proof. unfold sigwait. only_tac. Qed.

Lemma only_getpid : only P getpid.
Proof. unfold getpid. only_tac. Qed.

Lemma only_sigprocmask how set : only P (sigprocmask how set).
Proof. unfold sigprocmask. only_tac. Qed.

Lemma only_sigaction sig act : only P (sigaction sig act).
Proof. unfold sigaction. only_tac. Qed.
#[local] Hint Resolve only_pipe only_read only_waitpid only_sigwait
  only_getpid only_sigprocmask only_sigaction : only.

Lemma only_writeN_loop rounds : forall fd buf,
  only P (writeN_loop rounds fd buf).
Proof.
  induction rounds as [|n IH]; intros fd buf; cbn [writeN_loop];
    only_tac; try apply IH.
Qed.

Lemma only_writeN fd buf : only P (writeN fd buf).
Proof. apply only_writeN_loop. Qed.
#[local] Hint Resolve only_writeN : only.

(** ** class FD *)

Lemma only_FD_new fd : only P (FD_new fd).
Proof. unfold FD_new. only_tac. Qed.

Lemma only_FD_m_fd p : only P (FD_m_fd p).
Proof. unfold FD_m_fd. only_tac. Qed.
#[local] Hint Resolve only_FD_new only_FD_m_fd : only.

Lemma only_FD_isOk p : only P (FD_isOk p).
Proof. unfold FD_isOk. only_tac. Qed.
#[local] Hint Resolve only_FD_isOk : only.

Lemma only_FD_get p : only P (FD_get p).
Proof. unfold FD_get. only_tac. Qed.

Lemma only_FD_reset p fd : only P (FD_reset p fd).
Proof. unfold FD_reset. only_tac. Qed.
#[local] Hint Resolve only_FD_get only_FD_reset : only.

Lemma only_FD_dtor p : only P (FD_dtor p).
Proof. unfold FD_dtor. only_tac. Qed.

Lemma only_FD_setCloseOnExec p : only P (FD_setCloseOnExec p).
Proof. unfold FD_setCloseOnExec. only_tac. Qed.

Lemma only_FD_setNonBlock p : only P (FD_setNonBlock p).
Proof. unfold FD_setNonBlock. only_tac. Qed.
#[local] Hint Resolve only_FD_dtor only_FD_setCloseOnExec
  only_FD_setNonBlock : only.

Lemma only_FD_pipe r w flags : only P (FD_pipe r w flags).
Proof. unfold FD_pipe. only_tac. Qed.
#[local] Hint Resolve only_FD_pipe : only.

(** ** File and FileMap *)

Lemma only_load_file f : only P (load_file f).
Proof. unfold load_file. only_tac. Qed.

Lemma only_store_file f v : only P (store_file f v).
Proof. unfold store_file. only_tac. Qed.
#[local] Hint Resolve only_load_file only_store_file : only.

Lemma only_File_new spec : only P (File_new spec).
Proof. unfold File_new. only_tac. Qed.

Lemma only_FDPtr_release_local fd self :
  only P (FDPtr_release_local fd self).
Proof. unfold FDPtr_release_local. only_tac. Qed.
#[local] Hint Resolve only_File_new only_FDPtr_release_local : only.

Lemma only_File_open self : only P (File_open self).
Proof. unfold File_open. only_tac. Qed.

Lemma only_File_dtor self : only P (File_dtor self).
Proof. unfold File_dtor. only_tac. Qed.
#[local] Hint Resolve only_File_open only_File_dtor : only.

Lemma only_FileMap_find files spec : only P (FileMap_find files spec).
Proof.
  induction files as [|f files IH]; cbn [FileMap_find]; only_tac; try apply IH.
Qed.
#[local] Hint Resolve only_FileMap_find : only.

Lemma only_FileMap_get self spec r w : only P (FileMap_get self spec r w).
Proof. unfold FileMap_get. only_tac. Qed.

Lemma only_delete_files files : only P (delete_files files).
Proof.
  induction files as [|f files IH]; cbn [delete_files]; only_tac; try apply IH.
Qed.
#[local] Hint Resolve only_FileMap_get only_delete_files : only.

Lemma only_FileMap_dtor self : only P (FileMap_dtor self).
Proof. unfold FileMap_dtor. only_tac. Qed.

Lemma only_FileMap_new : only P FileMap_new.
Proof. unfold FileMap_new. only_tac. Qed.
#[local] Hint Resolve only_FileMap_dtor only_FileMap_new : only.

(** ** SignalBlocker, ProcHarvester and LockFile *)

Lemma only_add_signals sigs : forall set, only P (add_signals set sigs).
Proof.
  induction sigs as [|s sigs IH]; intros set; cbn [add_signals]; only_tac;
    try apply IH.
Qed.
#[local] Hint Resolve only_add_signals : only.

Lemma only_SignalBlocker_ctor : only P SignalBlocker_ctor.
Proof. unfold SignalBlocker_ctor. only_tac. Qed.

Lemma only_SignalBlocker_unblock sb u : only P (SignalBlocker_unblock sb u).
Proof. unfold SignalBlocker_unblock. only_tac. Qed.
#[local] Hint Resolve only_SignalBlocker_unblock : only.

Lemma only_SignalBlocker_dtor sb u : only P (SignalBlocker_dtor sb u).
Proof. unfold SignalBlocker_dtor. only_tac. Qed.

Lemma only_load_proc_spec p : only P (load_proc_spec p).
Proof. unfold load_proc_spec. only_tac. Qed.

Lemma only_store_proc_spec p v : only P (store_proc_spec p v).
Proof. unfold store_proc_spec. only_tac. Qed.

Lemma only_load_harvester h : only P (load_harvester h).
Proof. unfold load_harvester. only_tac. Qed.
#[local] Hint Resolve only_load_proc_spec only_store_proc_spec
  only_load_harvester : only.

Lemma only_ProcHarvester_new set : only P (ProcHarvester_new set).
Proof. unfold ProcHarvester_new. only_tac. Qed.

Lemma only_addProc h spec : only P (ProcHarvester_addProc h spec).
Proof. unfold ProcHarvester_addProc. only_tac. Qed.

Lemma only_load_proc h i : only P (load_proc h i).
Proof. unfold load_proc. only_tac. Qed.

Lemma only_store_proc h i Q : only P (store_proc h i Q).
Proof. unfold store_proc. only_tac. Qed.
#[local] Hint Resolve only_ProcHarvester_new only_addProc
  only_load_proc only_store_proc : only.

Lemma only_harvest_scan procs : forall left,
  only P (harvest_scan procs left).
Proof.
  induction procs as [|Q procs IH]; intros left; cbn [harvest_scan];
    only_tac; try apply IH.
Qed.

Lemma only_harvest_forward procs sig : only P (harvest_forward procs sig).
Proof.
  induction procs as [|Q procs IH]; cbn [harvest_forward];
    only_tac; try apply IH.
Qed.
#[local] Hint Resolve only_harvest_scan only_harvest_forward : only.

Lemma only_harvest_dispatch procs sig :
  only P (harvest_dispatch procs sig).
Proof. unfold harvest_dispatch. only_tac. Qed.
#[local] Hint Resolve only_harvest_dispatch : only.

Lemma only_harvest fuel self : only P (harvest fuel self).
Proof.
  induction fuel as [|fuel IH]; cbn [harvest]; only_tac; try apply IH.
Qed.
#[local] Hint Resolve only_harvest : only.

Lemma only_ProcHarvester_dtor fuel self :
  only P (ProcHarvester_dtor fuel self).
Proof. unfold ProcHarvester_dtor. only_tac. Qed.

Lemma only_LockFile_new : only P LockFile_new.
Proof. unfold LockFile_new. only_tac. Qed.

Lemma only_LockFile_dtor m_fd : only P (LockFile_dtor m_fd).
Proof. unfold LockFile_dtor. only_tac. Qed.

Lemma only_exec_wire harvester files specs :
  only P (exec_wire harvester files specs).
Proof.
  induction specs as [|i specs IH]; cbn [exec_wire]; only_tac;
    try apply IH.
Qed.

Lemma only_exec_open files : only P (exec_open files).
Proof.
  induction files as [|f files IH]; cbn [exec_open]; only_tac;
    try apply IH.
Qed.
#[local] Hint Resolve only_exec_open : only.

(** ** Where forks are allowed *)

Lemma only_child_dup2 file side target : only P (child_dup2 file side target).
Proof. unfold child_dup2. only_tac. Qed.
#[local] Hint Resolve only_child_dup2 : only.

Lemma only_child {A} self argv ew :
  only P (safe_fork_exec_child (A:=A) self argv ew).
Proof.
  unfold safe_fork_exec_child, do_execvp, execvp, _exit. only_tac.
Qed.

Lemma only_parent self pid er ew : only P (safe_fork_exec_parent self pid er ew).
Proof. unfold safe_fork_exec_parent. only_tac. Qed.
#[local] Hint Resolve only_child only_parent : only.

Lemma only_safe_fork_exec self : P sys_fork -> only P (safe_fork_exec self).
Proof.
  intros Hf. unfold safe_fork_exec, safe_fork_exec_guarded, fork. only_tac.
Qed.

Lemma only_exec_fork harvester signals n : forall i pgid,
  P sys_fork -> only P (exec_fork harvester signals n i pgid).
Proof.
  induction n as [|n IH]; intros i pgid Hf; cbn [exec_fork]; only_tac;
    try (apply only_safe_fork_exec; assumption); try (apply IH; assumption).
Qed.

(** What [exec] does once the lock is taken. *)
Lemma only_exec_tail harvester signals files :
  P sys_fork ->
  only P (let* m_files := load h_filemap files in
          let* _ := exec_open m_files in
          let* H := load_harvester harvester in
          exec_fork harvester signals
            (length (ProcHarvester.m_procs H)) 0 0).
Proof. intros Hf. only_tac. now apply only_exec_fork. Qed.

(** What [LockFile::open] does before the [flock], and after it. *)
Lemma only_lock_refused m_fd file :
  only P (let* _ := FD_reset m_fd (-1) in
          let* errno := gets w_errno in
          if errno =? EWOULDBLOCK
          then throw_fmt (fun _ => already_running_msg file)
          else @throw_fmt unit (fun _ => unable_to_lock_msg file)).
Proof. only_tac. Qed.

Lemma only_lock_granted m_fd file :
  only P (let* fd := FD_get m_fd in
          let* r := ftruncate fd 0 in
          let* _ := CHECK (r =? 0)
                      (fun e => "unable to truncate lockfile " +:+ file
                                +:+ ": " +:+ strerror e) in
          let* pid := getpid in
          let buf := fmt_d pid +:+ nl in
          let* fd := FD_get m_fd in
          let* r := writeN fd buf in
          CHECK (r =? 0)
            (fun e => "unable to write to lockfile " +:+ file +:+ ": "
                      +:+ strerror e)).
Proof. only_tac. Qed.

End Footprint.

Lemma lock_phase_quiet_l (t1 t2 : list Event) :
  Forall (fun e => not_fork (fst e)) t1 -> lock_phase t2 ->
  lock_phase (t1 ++ t2).
Proof.
  intros H1 [H2|(pre & e & post & -> & Hpre & He)].
  - left. apply Forall_app. now split.
  - right. exists (t1 ++ pre), e, post. split; [now rewrite app_assoc|].
    split; [|exact He]. apply Forall_app. now split.
Qed.

Lemma lock_phase_quiet_r (t1 t2 : list Event) :
  lock_phase t1 -> Forall (fun e => not_fork (fst e)) t2 ->
  lock_phase (t1 ++ t2).
Proof.
  intros [H1|(pre & e & post & -> & Hpre & He)] H2.
  - left. apply Forall_app. now split.
  - right. exists pre, e, (post ++ t2). split; [|now split].
    now rewrite <- app_assoc.
Qed.

Lemma lock_phase_locked (t1 t2 : list Event) :
  Forall (fun e => not_fork (fst e)) t1 -> Exists lock_taken t1 ->
  lock_phase (t1 ++ t2).
Proof.
  intros H1 He. apply List.Exists_exists in He. destruct He as (e & Hin & He).
  apply in_split in Hin. destruct Hin as (l1 & l2 & ->).
  apply Forall_app in H1. destruct H1 as [H1 _].
  right. exists l1, e, (l2 ++ t2). split; [|now split].
  now rewrite <- app_assoc.
Qed.

Lemma lock_taken_not_fork (e : Event) (r : Resp) :
  lock_taken e -> e <> (sys_fork, r).
Proof. intros (fd & Hc & _) ->. discriminate. Qed.

Lemma lock_phase_sound (t : list Event) : lock_phase t -> locked_before_fork t.
Proof.
  intros [Hq|(pre & e & post & -> & Hpre & He)] pre' r post' Heq.
  - subst t. apply Forall_app in Hq. destruct Hq as [_ Hq].
    apply Forall_cons in Hq. destruct Hq as [Hq _]. now elim Hq.
  - apply app_eq_app in Heq. destruct Heq as (l & [[E1 E2]|[E1 E2]]).
    + destruct l as [|x l].
      * cbn in E2. injection E2 as E2 _. symmetry in E2.
        now apply (lock_taken_not_fork e r) in He.
      * cbn in E2. injection E2 as E2 _. subst x pre.
        apply Forall_app in Hpre. destruct Hpre as [_ Hpre].
        apply Forall_cons in Hpre. destruct Hpre as [Hq _]. now elim Hq.
    + destruct l as [|x l].
      * cbn in E2. injection E2 as E2 _.
        now apply (lock_taken_not_fork e r) in He.
      * cbn in E2. injection E2 as E2 _. subst x pre'.
        apply Exists_app. right. now apply Exists_cons_hd.
Qed.

Lemma not_fork_ok (c : Call) : c <> sys_fork -> not_fork c.
Proof. exact id. Qed.

Lemma any_call_ok (c : Call) : c <> sys_fork -> any_call c.
Proof. intros _. exact I. Qed.

Lemma phase_quiet {A} (m : M A) : only not_fork m -> phase m.
Proof.
  intros Hm w. eapply wp_mono; [apply Hm|]. intros r w' (t & T & F).
  exists t. split; [exact T|now left].
Qed.

Lemma phase_bind_quiet {A B} (m : M A) (k : A -> M B) :
  only not_fork m -> (forall a, phase (k a)) -> phase (bind m k).
Proof.
  intros Hm Hk w. apply wp_bind. eapply wp_mono; [apply Hm|].
  intros [a|f|h|] w1 (t1 & T1 & F1); cbn;
    try (exists t1; split; [exact T1|now left]).
  eapply wp_mono; [apply Hk|]. cbn. intros r w2 (t2 & T2 & F2).
  exists (t1 ++ t2). split; [now rewrite T2, T1, app_assoc|].
  now apply lock_phase_quiet_l.
Qed.

Lemma phase_finally {A} (body : M A) dtor :
  phase body -> (forall u, only not_fork (dtor u)) ->
  phase (finally body dtor).
Proof.
  intros Hb Hd w. apply wp_finally. eapply wp_mono; [apply Hb|].
  intros [a|f|h|] w1 (t1 & T1 & F1); cbn;
    try (exists t1; split; [exact T1|exact F1]).
  - eapply wp_mono; [apply Hd|]. cbn.
    intros [[]| | |] w2 (t2 & T2 & F2); exists (t1 ++ t2);
      (split; [now rewrite T2, T1, app_assoc|now apply lock_phase_quiet_r]).
  - eapply wp_mono; [apply Hd|]. cbn.
    intros [[]| | |] w2 (t2 & T2 & F2); exists (t1 ++ t2);
      (split; [now rewrite T2, T1, app_assoc|now apply lock_phase_quiet_r]).
Qed.

Lemma phase_locked {A B} (m : M A) (k : A -> M B) :
  takes_lock m -> (forall a, only any_call (k a)) -> phase (bind m k).
Proof.
  intros Hm Hk w. apply wp_bind. eapply wp_mono; [apply Hm|].
  intros [a|f|h|] w1 (t1 & T1 & F1 & L1); cbn;
    try (exists t1; split; [exact T1|now left]).
  eapply wp_mono; [apply Hk|]. cbn. intros r w2 (t2 & T2 & _).
  exists (t1 ++ t2). split; [now rewrite T2, T1, app_assoc|].
  apply lock_phase_locked; [exact F1|now apply L1].
Qed.

Lemma takes_lock_after {A B} (m : M A) (k : A -> M B) :
  only not_fork m -> (forall a, takes_lock (k a)) -> takes_lock (bind m k).
Proof.
  intros Hm Hk w. apply wp_bind. eapply wp_mono; [apply Hm|].
  intros [a|f|h|] w1 (t1 & T1 & F1); cbn;
    try (exists t1; split; [exact T1|]; split; [exact F1|discriminate]).
  eapply wp_mono; [apply Hk|]. cbn. intros r w2 (t2 & T2 & F2 & L2).
  exists (t1 ++ t2). split; [now rewrite T2, T1, app_assoc|].
  split; [apply Forall_app; now split|].
  intros Hr. apply Exists_app. right. now apply L2.
Qed.

Lemma never_ok_lock_refused m_fd file :
  never_ok (let* _ := FD_reset m_fd (-1) in
            let* errno := gets w_errno in
            if errno =? EWOULDBLOCK
            then throw_fmt (fun _ => already_running_msg file)
            else @throw_fmt unit (fun _ => unable_to_lock_msg file)).
Proof.
  apply never_ok_bind_r. intros _. apply never_ok_bind_r. intros errno.
  destruct (errno =? EWOULDBLOCK); intros w; reflexivity.
Qed.

(** [L] at the calls that are not forks. *)
Ltac quiet L :=
  first [apply (L not_fork not_fork_ok) | apply (L not_fork)].

(** [LockFile::open] returns only with the lock taken. *)
Lemma takes_lock_LockFile_open (m_fd : ptr) (file : string) :
  takes_lock (LockFile_open m_fd file).
Proof.
  unfold LockFile_open.
  apply takes_lock_after;
    [quiet only_sys_value; discriminate|]. intros d.
  apply takes_lock_after; [quiet only_FD_reset|]. intros _.
  apply takes_lock_after; [quiet only_FD_isOk|]. intros ok.
  apply takes_lock_after; [quiet only_CHECK|]. intros _.
  apply takes_lock_after; [quiet only_FD_setCloseOnExec|].
  intros _.
  apply takes_lock_after; [quiet only_FD_get|]. intros fd.
  intros w. apply wp_bind. unfold flock. apply wp_sys_status.
  set (c := sys_flock fd (Z.lor LOCK_EX LOCK_NB)).
  destruct (r_ret (answer w c) =? 0) eqn:E.
  - change (negb (0 =? 0)) with false. cbv iota.
    eapply wp_mono; [quiet only_lock_granted|].
    cbn. intros r w2 (t2 & T2 & F2).
    exists ((c, answer w c) :: t2). split.
    + rewrite T2. cbn [w_trace logged set_kernel_view].
      now rewrite <- app_assoc.
    + split; [constructor; [discriminate|exact F2]|]. intros _.
      apply Exists_cons_hd. exists fd. split; [reflexivity|].
      now apply Z.eqb_eq.
  - change (negb (-1 =? 0)) with true. cbv iota.
    pose proof (never_ok_lock_refused m_fd file
                  (set_errno (logged w c) (r_errno (answer w c)))) as Hn.
    assert (Ho : only not_fork
                   (let* _ := FD_reset m_fd (-1) in
                    let* errno := gets w_errno in
                    if errno =? EWOULDBLOCK
                    then throw_fmt (fun _ => already_running_msg file)
                    else @throw_fmt unit (fun _ => unable_to_lock_msg file)))
      by quiet only_lock_refused.
    specialize (Ho (set_errno (logged w c) (r_errno (answer w c)))).
    unfold wp in *. destruct Ho as (t2 & T2 & F2).
    exists ((c, answer w c) :: t2). split.
    + rewrite T2. cbn [w_trace logged set_kernel_view set_errno].
      now rewrite <- app_assoc.
    + split; [constructor; [discriminate|exact F2]|]. intros Hr.
      rewrite Hn in Hr. discriminate.
Qed.

(** With a lock file named, [exec] forks only under the lock.  For
    every kernel and every pipeline, each fork in the calls of [exec]
    comes after a [flock(fd, LOCK_EX | LOCK_NB)] that succeeded: when the
    lock file cannot be opened or locked, no process is started (and the
    destructors that run on the way out start none either). *)
Theorem exec_forks_only_under_lock (fuel : nat) (self : daemon_pipe.t)
    (w : World) :
  daemon_pipe.m_lockFile self <> ""%string ->
  locked_before_fork (new_events w (snd (exec fuel self w))).
Proof.
  intros Hl.
  assert (Hp : phase (exec fuel self)).
  { unfold exec.
    apply phase_bind_quiet; [quiet only_CHECK|]. intros _.
    apply phase_bind_quiet;
      [quiet only_SignalBlocker_ctor|]. intros signals.
    apply phase_finally;
      [|intros u; quiet only_SignalBlocker_dtor].
    apply phase_bind_quiet; [quiet only_LockFile_new|]. intros lock.
    apply phase_finally;
      [|intros u; quiet only_LockFile_dtor].
    apply phase_bind_quiet; [quiet only_ProcHarvester_new|]. intros harvester.
    apply phase_finally;
      [|intros u; quiet only_ProcHarvester_dtor].
    apply phase_bind_quiet; [quiet only_FileMap_new|]. intros files.
    apply phase_finally;
      [|intros u; quiet only_FileMap_dtor].
    apply phase_bind_quiet; [quiet only_exec_wire|].
    intros _.
    destruct (daemon_pipe.m_lockFile self) as [|c s] eqn:Hf; [contradiction|].
    cbn [String.length Nat.eqb negb].
    apply phase_locked; [apply takes_lock_LockFile_open|]. intros _.
    first [apply (only_exec_tail any_call any_call_ok)
          | apply (only_exec_tail any_call)]; exact I. }
  specialize (Hp w). unfold wp in Hp. destruct Hp as (t & T & Ht).
  unfold new_events. rewrite T, drop_app_length. now apply lock_phase_sound.
Qed.

Lemma exec_forks_only_under_lock_witness :
  let self := {| daemon_pipe.m_lockFile := "/var/run/cat.pid";
                 daemon_pipe.m_specs := [0%nat] |} in
  let w := set_h_proc_spec (world0 kernel_ok) [proc_cat] in
  daemon_pipe.m_lockFile self <> ""%string
  /\ locked_before_fork (new_events w (snd (exec 5 self w))).
Proof.
  intros self w. split; [discriminate|].
  apply (exec_forks_only_under_lock 5 self w). discriminate.
Defined.

(** * The Lua binding *)

Lemma lua_sequence_from_cons (i : Z) (s : string) (l : list string) :
  lua_sequence_from i (s :: l)
  = (LNumber i, LString s) :: lua_sequence_from (i + 1) l.
Proof.
  unfold lua_sequence_from. rewrite imap_cons. cbn [Z.of_nat].
  rewrite Z.add_0_r. f_equal. apply imap_ext. intros n x _. cbn.
  do 2 f_equal. lia.
Qed.

(** [copyCmdFromLua] does not look at the world. *)
Lemma copyCmdFromLua_from_pure (errName : string)
    (entries : list (lua_value * lua_value)) :
  forall i cmd w,
    (exists l, entries = lua_sequence_from i l
               /\ copyCmdFromLua_from i cmd entries errName w
                  = (Ok (cmd ++ map until_nul l), w))
    \/ ((forall l, entries <> lua_sequence_from i l)
        /\ exists f, copyCmdFromLua_from i cmd entries errName w = (Throw f, w)).
Proof.
  induction entries as [|[key value] rest IH]; intros i cmd w.
  - left. exists []. rewrite app_nil_r. split; reflexivity.
  - cbn [copyCmdFromLua_from].
    assert (Hbad : forall k v, (forall idx s, (k, v) <> (LNumber idx, LString s)) ->
                   forall l, (k, v) :: rest <> lua_sequence_from i l).
    { intros k v Hkv [|s l]; [discriminate|].
      rewrite lua_sequence_from_cons. intros [= -> -> _]. now apply (Hkv i s). }
    destruct key as [| | |idx| | | | |];
      try (right; split; [apply Hbad; discriminate|eexists; reflexivity]).
    destruct value as [| | | |s| | | |];
      try (right; split; [apply Hbad; discriminate|eexists; reflexivity]).
    cbn [lua_type_of is_number is_string negb].
    destruct (Z.eqb_spec idx i) as [->|Hne]; cbn [negb].
    + destruct (IH (i + 1) (cmd ++ [until_nul s]) w)
        as [(l & -> & E)|(Hno & f & E)].
      * left. exists (s :: l). rewrite lua_sequence_from_cons, E.
        cbn [map]. rewrite <- app_assoc. split; reflexivity.
      * right. split; [|exists f; exact E].
        intros [|s' l]; [discriminate|].
        rewrite lua_sequence_from_cons. intros [= _ ->]. now apply (Hno l).
    + right. split; [|eexists; reflexivity].
      intros [|s' l]; [discriminate|].
      rewrite lua_sequence_from_cons. intros [= -> _ _]. now apply Hne.
Qed.

(** [copyCmdFromLua] accepts the tables that iterate as the keys 1, 2, ...
    in order with string values, and no other: it returns exactly when its
    table is such a sequence, and then it has appended the strings, each
    up to its first null byte, to the command, in order.  In every other
    case it throws.  It makes no call and changes nothing. *)
Theorem copyCmdFromLua_accepts_sequences (cmd : exec_args)
    (entries : list (lua_value * lua_value)) (errName : string) (w : World) :
  (forall cmd' w',
     copyCmdFromLua cmd entries errName w = (Ok cmd', w')
     <-> exists l, entries = lua_sequence l
                   /\ cmd' = cmd ++ map until_nul l /\ w' = w)
  /\ ((forall l, entries <> lua_sequence l) ->
      exists f, copyCmdFromLua cmd entries errName w = (Throw f, w)).
Proof.
  unfold copyCmdFromLua, lua_sequence.
  destruct (copyCmdFromLua_from_pure errName entries 1 cmd w)
    as [(l & -> & E)|(Hno & f & E)].
  - split.
    + intros cmd' w'. rewrite E. split.
      * intros [= <- <-]. now exists l.
      * intros (l' & Hl & -> & ->).
        assert (l' = l); [|now subst].
        clear E. revert Hl. generalize 1. revert l'.
        induction l as [|s l IH]; intros [|s' l'] i; try discriminate;
          [reflexivity|].
        rewrite !lua_sequence_from_cons. intros [= <- H]. f_equal.
        now apply (IH l' (i + 1)).
    + intros Hno. now destruct (Hno l).
  - split.
    + intros cmd' w'. rewrite E. split; [discriminate|].
      intros (l & Hl & _). now destruct (Hno l).
    + intros _. now exists f.
Qed.

(** ** The status properties of a ProcessSpec *)

Lemma land_127_range (s : Z) : 0 <= Z.land s 127 <= 127.
Proof.
  change 127 with (Z.ones 7) at 1 2. rewrite Z.land_ones by lia.
  pose proof (Z.mod_pos_bound s (2 ^ 7)). lia.
Qed.

Lemma WEXITSTATUS_range (s : Z) : 0 <= WEXITSTATUS s <= 255.
Proof.
  unfold WEXITSTATUS. rewrite Z.shiftr_land.
  change (Z.shiftr 65280 8) with (Z.ones 8). rewrite Z.land_ones by lia.
  pose proof (Z.mod_pos_bound (Z.shiftr s 8) (2 ^ 8)). lia.
Qed.

Lemma WIFSIGNALED_spec (s : Z) :
  WIFSIGNALED s = true <-> 1 <= Z.land s 127 <= 126.
Proof.
  unfold WIFSIGNALED. pose proof (land_127_range s) as H.
  set (x := Z.land s 127) in *. cbv zeta.
  destruct (Z.gtb_spec (x + 1) 127);
    rewrite Z.shiftr_div_pow2 by lia; change (2 ^ 1) with 2;
    rewrite Z.gtb_ltb, Z.ltb_lt; Z.to_euclidean_division_equations; lia.
Qed.

Lemma WIFEXITED_spec (s : Z) : WIFEXITED s = true <-> Z.land s 127 = 0.
Proof. unfold WIFEXITED. apply Z.eqb_eq. Qed.

(** What a Lua script reads off a ProcessSpec.  As long as the process
    has not finished, [WIFEXITED], [WIFSIGNALED], [WEXITSTATUS] and
    [WTERMSIG] are all nil.  [WEXITSTATUS] and [WTERMSIG] are never both
    there: an exit status (0 to 255) comes with [WIFEXITED] true and
    [WIFSIGNALED] false, a terminating signal (1 to 126) with
    [WIFSIGNALED] true and [WIFEXITED] false.  [pid] is nil exactly for a
    process that was not started. *)
Theorem proc_status_properties (proc : daemon_proc_spec.t) :
  (daemon_proc_spec.finished proc = false ->
   daemon_proc_exited proc = None /\ daemon_proc_signaled proc = None
   /\ daemon_proc_exitstatus proc = None /\ daemon_proc_termsig proc = None)
  /\ (forall n, daemon_proc_exitstatus proc = Some n ->
                0 <= n <= 255
                /\ daemon_proc_termsig proc = None
                /\ daemon_proc_exited proc = Some true
                /\ daemon_proc_signaled proc = Some false)
  /\ (forall n, daemon_proc_termsig proc = Some n ->
                1 <= n <= 126
                /\ daemon_proc_exitstatus proc = None
                /\ daemon_proc_signaled proc = Some true
                /\ daemon_proc_exited proc = Some false)
  /\ (daemon_proc_get_pid proc = None <-> daemon_proc_spec.m_pid proc = -1).
Proof.
  unfold daemon_proc_exited, daemon_proc_signaled, daemon_proc_exitstatus,
    daemon_proc_termsig, daemon_proc_get_pid.
  set (st := daemon_proc_spec.m_status proc).
  pose proof (WIFSIGNALED_spec st) as Hsig.
  pose proof (WIFEXITED_spec st) as Hex.
  split; [|split; [|split; [|split]]].
  - intros ->. cbn [negb orb]. auto.
  - destruct (daemon_proc_spec.finished proc); cbn [negb orb]; [|discriminate].
    destruct (WIFEXITED st) eqn:E; cbn [negb]; [|discriminate].
    intros n [= <-]. split; [apply WEXITSTATUS_range|].
    destruct (WIFSIGNALED st) eqn:S; cbn [negb]; [|auto].
    exfalso. destruct Hsig as [Hsig _]. destruct Hex as [Hex _].
    specialize (Hsig eq_refl). specialize (Hex eq_refl). lia.
  - destruct (daemon_proc_spec.finished proc); cbn [negb orb]; [|discriminate].
    destruct (WIFSIGNALED st) eqn:S; cbn [negb]; [|discriminate].
    intros n [= <-]. destruct Hsig as [Hsig _]. specialize (Hsig eq_refl).
    split; [exact Hsig|].
    destruct (WIFEXITED st) eqn:E; cbn [negb]; [|auto].
    exfalso. destruct Hex as [Hex _]. specialize (Hex eq_refl).
    unfold WTERMSIG in *. lia.
  - unfold daemon_proc_spec.started.
    destruct (Z.eqb_spec (daemon_proc_spec.m_pid proc) (-1)); cbn [negb];
      [auto|discriminate].
  - unfold daemon_proc_spec.started.
    destruct (Z.eqb_spec (daemon_proc_spec.m_pid proc) (-1)); cbn [negb];
      [auto|contradiction].
Qed.

(** ** try_error_write as Lua calls it *)

Lemma insert_snoc {A} (l : list A) (x y : A) :
  <[length l := y]> (l ++ [x]) = l ++ [y].
Proof. rewrite insert_app_r_alt by lia. now rewrite Nat.sub_diag. Qed.

Lemma lua_try_error_write_cases (fuel : nat)
    (cmd_argv : list (lua_value * lua_value)) (input : string) (w : World) :
  (forall l,
     cmd_argv = lua_sequence l ->
     lua_try_error_write fuel cmd_argv input w
     = try_error_write fuel
         {| daemon_pipe.m_lockFile := "";
            daemon_pipe.m_specs := [length (h_proc_spec w)] |} input
         (set_h_proc_spec w
            (h_proc_spec w
             ++ [set_cmdArgv (set_forwardSignals daemon_proc_spec_new true)
                   (map until_nul l)])))
  /\ ((forall l, cmd_argv <> lua_sequence l) ->
      exists f w',
        lua_try_error_write fuel cmd_argv input w = (Throw f, w')
        /\ w_trace w' = w_trace w).
Proof.
  set (n := length (h_proc_spec w)).
  set (s0 := daemon_proc_spec_new).
  set (w1 := set_h_proc_spec w (h_proc_spec w ++ [s0])).
  set (w2 := set_h_proc_spec w1 (<[n := set_forwardSignals s0 true]> (h_proc_spec w1))).
  assert (H1 : h_proc_spec w1 !! n = Some s0) by apply lookup_snoc_new.
  assert (H2 : h_proc_spec w2 !! n = Some (set_forwardSignals s0 true)).
  { unfold w2. cbn [h_proc_spec set_h_proc_spec].
    apply list_lookup_insert_eq. eapply lookup_lt_Some, H1. }
  assert (Hstart : forall k : M unit,
            lua_try_error_write fuel cmd_argv input w
            = (let* argv := copyCmdFromLua [] cmd_argv
                              "try_error_write argument 1" in
               let* s := load_proc_spec n in
               let* _ := store_proc_spec n (set_cmdArgv s argv) in
               try_error_write fuel
                 {| daemon_pipe.m_lockFile := "";
                    daemon_pipe.m_specs := [n] |} input) w2).
  { intros _. unfold lua_try_error_write.
    unfold bind at 1. unfold alloc at 1. fold n. fold w1.
    unfold load_proc_spec, store_proc_spec.
    rewrite (bind_ok _ _ _ _ _ (load_run _ _ _ _ H1)).
    rewrite (bind_ok _ _ _ _ _ (store_run _ _ _ _ _ _ H1)). fold w2.
    rewrite (bind_ok _ _ _ _ _ (load_run _ _ _ _ H2)). reflexivity. }
  rewrite (Hstart (ret tt)). clear Hstart.
  destruct (copyCmdFromLua_from_pure "try_error_write argument 1" cmd_argv 1 [] w2)
    as [(l & Hl & E)|(Hno & f & E)].
  - split.
    + intros l' Hl'. unfold copyCmdFromLua. rewrite (bind_ok _ _ _ _ _ E).
      assert (l' = l); [|subst l'].
      { rewrite Hl in Hl'. unfold lua_sequence in Hl'. clear -Hl'.
        revert Hl'. generalize 1. revert l'.
        induction l as [|s l IH]; intros [|s' l'] i; try discriminate;
          [reflexivity|].
        rewrite !lua_sequence_from_cons. intros [= -> H]. f_equal.
        now apply (IH l' (i + 1)). }
      unfold load_proc_spec, store_proc_spec.
      rewrite (bind_ok _ _ _ _ _ (load_run _ _ _ _ H2)).
      rewrite (bind_ok _ _ _ _ _ (store_run _ _ _ _ _ _ H2)).
      f_equal. unfold w2, w1, n. cbn [h_proc_spec set_h_proc_spec].
      rewrite !insert_snoc. reflexivity.
    + intros Hno. now destruct (Hno l).
  - split.
    + intros l Hl. now destruct (Hno l).
    + intros _. exists f, w2. unfold copyCmdFromLua, bind. rewrite E.
      split; reflexivity.
Qed.

(** The [try_error_write] of the binding runs the pipeline of the one
    process whose command is the table, with [forward_signals] set and no
    lock file, so the check for exactly one process never fires.  The
    table is read before [daemon_pipe::try_error_write] is entered: a
    table that is not a sequence of strings makes it throw to Lua without
    any system call, the fallback included, and the input is written
    nowhere. *)
Theorem lua_try_error_write_table (fuel : nat) (input : string) (w : World) :
  (forall l,
     lua_try_error_write fuel (lua_sequence l) input w
     = try_error_write fuel
         {| daemon_pipe.m_lockFile := "";
            daemon_pipe.m_specs := [length (h_proc_spec w)] |} input
         (set_h_proc_spec w
            (h_proc_spec w
             ++ [set_cmdArgv (set_forwardSignals daemon_proc_spec_new true)
                   (map until_nul l)])))
  /\ (forall cmd_argv,
        (forall l, cmd_argv <> lua_sequence l) ->
        exists f w',
          lua_try_error_write fuel cmd_argv input w = (Throw f, w')
          /\ w_trace w' = w_trace w).
Proof.
  split.
  - intros l.
    now apply (proj1 (lua_try_error_write_cases fuel (lua_sequence l) input w)).
  - intros cmd_argv.
    apply (proj2 (lua_try_error_write_cases fuel cmd_argv input w)).
Qed.

(** The table [{ "cat", 7 }] has a value that is not a string. *)
Example lua_try_error_write_bad_value :
  let run := lua_try_error_write 8 [(LNumber 1, LString "cat");
                                    (LNumber 2, LNumber 7)] "oops"
               (world0 kernel_ok) in
  match fst run with Throw f => what f | _ => None end
  = Some "bad value in try_error_write argument 1 (string expected, got number)"%string
  /\ w_trace (snd run) = [].
Proof. vm_compute. split; reflexivity. Qed.

(** The table [{ "cat" }] under a kernel that refuses nothing: the child
    is forked with the pipe as its stdin and the input is written to the
    pipe. *)
Example lua_try_error_write_runs :
  let run := lua_try_error_write 8 (lua_sequence ["cat"%string]) "oops"
               (world0 kernel_ok) in
  fst run = Ok tt
  /\ existsb (fun c => match c with sys_fork => true | _ => false end)
       (calls (w_trace (snd run))) = true
  /\ existsb (fun c => match c with
                       | sys_write fd buf => (fd =? 4) && String.eqb buf "oops"
                       | _ => false
                       end) (calls (w_trace (snd run))) = true
  /\ existsb (is_stderr_write "oops") (calls (w_trace (snd run))) = false.
Proof. vm_compute. repeat split; reflexivity. Qed.

(** * The launcher *)



(** [exec_with_namespace_internal] reads the namespace table and the
    command table before it execs anything: if either is not a sequence
    of strings it throws without a call, and for two sequences it is the
    launcher on their strings. *)
Theorem exec_with_namespace_internal_tables (devname : string)
    (namespace_obj cmd_argv_obj : list (lua_value * lua_value)) (w : World) :
  let run := exec_with_namespace_internal (A:=unit) devname namespace_obj
               cmd_argv_obj w in
  (forall ns cmd,
     namespace_obj = lua_sequence ns -> cmd_argv_obj = lua_sequence cmd ->
     run = exec_with_namespace devname (map until_nul ns) (map until_nul cmd) w)
  /\ ((forall ns, namespace_obj <> lua_sequence ns)
      \/ (forall cmd, cmd_argv_obj <> lua_sequence cmd) ->
      exists f, run = (Throw f, w)).
Proof.
  cbv zeta. unfold exec_with_namespace_internal, copyCmdFromLua.
  destruct (copyCmdFromLua_from_pure "exec_with_namespace.namespace"
              namespace_obj 1 [] w) as [(ns & Hns & E1)|(Hno1 & f1 & E1)];
    rewrite ?(bind_ok _ _ _ _ _ E1).
  - destruct (copyCmdFromLua_from_pure "exec_with_namespace.cmd"
                cmd_argv_obj 1 [] w) as [(cmd & Hcmd & E2)|(Hno2 & f2 & E2)];
      rewrite ?(bind_ok _ _ _ _ _ E2).
    + split.
      * intros ns' cmd' Hn Hc.
        assert (Hinj : forall l l' i,
                  lua_sequence_from i l = lua_sequence_from i l' -> l = l').
        { clear. induction l as [|s l IH]; intros [|s' l'] i; try discriminate;
            [reflexivity|].
          rewrite !lua_sequence_from_cons. intros [= -> H]. f_equal.
          now apply (IH l' (i + 1)). }
        rewrite Hns in Hn. rewrite Hcmd in Hc.
        apply Hinj in Hn, Hc. subst ns' cmd'. reflexivity.
      * intros [Hno|Hno]; [now destruct (Hno ns)|now destruct (Hno cmd)].
    + split.
      * intros ns' cmd' _ Hc. now destruct (Hno2 cmd').
      * intros _. exists f2. unfold bind. now rewrite E2.
  - split.
    + intros ns' cmd' Hn _. now destruct (Hno1 ns').
    + intros _. exists f1. unfold bind. now rewrite E1.
Qed.
